(** * MissionScene: the 3D scene builder of the judging web application

    A shallow embedding of [mission-scene-service.js].  The service builds,
    from a mission configuration, the obstacles and the telemetry, a scene
    graph of THREE.js objects and broadcasts ['MissionScene.sceneUpdated'].

    Modelling decisions.
    - JavaScript numbers are idealised as real numbers ([R]); NaN and the
      infinities are outside the model.
    - Every reference to an object or an array may be [null]/[undefined]:
      such references are [option]s, and reading a property through an
      absent reference throws a [TypeError].
    - THREE.js objects live in a heap (a list of cells; a location is an
      index, allocation appends).  Object identity is the location.  Of the
      library only what the service calls is modelled.  The scene graph is
      modelled as the library keeps it: a scene has a list of children, an
      object has at most one parent, and [scene.add(obj)] first takes [obj]
      out of the children of its previous parent.
    - The service object [this], the heap, the parent links and the log of
      the broadcasts received by [$rootScope] form the state that is
      threaded through every method; a method returns [Ok v] or [Throw e].
    - Where a result depends on the rounding of IEEE doubles, which the
      reals do not show, the computation is repeated on binary64 floats
      (section "The coordinate conversion on doubles"). *)

From Stdlib Require Import Floats.
From Stdlib Require Import Reals Lra ZArith Lia String.
From stdpp Require Import base option list gmap.

Local Open Scope R_scope.

(** ** Numbers *)

(** [Math.sign] on the reals. *)
Definition Math_sign (r : R) : R :=
  match total_order_T r 0 with
  | inleft (left _) => -1
  | inleft (right _) => 0
  | inright _ => 1
  end.

(** ** Input data

    The field names are those of the JSON objects the service receives.
    [latitude] and [longitude] are read from every position-like object,
    [altitude_msl] from waypoints, moving obstacles and telemetry. *)

Class HasLatLon (A : Type) := { latitude : A -> R; longitude : A -> R }.
Class HasAltitude (A : Type) := { altitude_msl : A -> R }.

Record GpsPosition := mkGps { gps_latitude : R; gps_longitude : R }.
Record Waypoint := mkWaypoint { wp_latitude : R; wp_longitude : R; wp_altitude_msl : R }.
Record StationaryObstacle := mkStationary
  { so_latitude : R; so_longitude : R; cylinder_radius : R; cylinder_height : R }.
Record MovingObstacle := mkMoving
  { mo_latitude : R; mo_longitude : R; mo_altitude_msl : R; sphere_radius : R }.
Record UasTelemetry := mkTelemetry { ut_latitude : R; ut_longitude : R; ut_altitude_msl : R }.

#[global] Instance GpsPosition_latlon : HasLatLon GpsPosition :=
  {| latitude := gps_latitude; longitude := gps_longitude |}.
#[global] Instance Waypoint_latlon : HasLatLon Waypoint :=
  {| latitude := wp_latitude; longitude := wp_longitude |}.
#[global] Instance Waypoint_alt : HasAltitude Waypoint := {| altitude_msl := wp_altitude_msl |}.
#[global] Instance StationaryObstacle_latlon : HasLatLon StationaryObstacle :=
  {| latitude := so_latitude; longitude := so_longitude |}.
#[global] Instance MovingObstacle_latlon : HasLatLon MovingObstacle :=
  {| latitude := mo_latitude; longitude := mo_longitude |}.
#[global] Instance MovingObstacle_alt : HasAltitude MovingObstacle :=
  {| altitude_msl := mo_altitude_msl |}.
#[global] Instance UasTelemetry_latlon : HasLatLon UasTelemetry :=
  {| latitude := ut_latitude; longitude := ut_longitude |}.
#[global] Instance UasTelemetry_alt : HasAltitude UasTelemetry :=
  {| altitude_msl := ut_altitude_msl |}.

(** A JavaScript array whose elements are references. *)
Definition jsArray (A : Type) : Type := list (option A).

(** [a[i]]: [undefined] out of range. *)
Definition jsIndex {A} (a : jsArray A) (i : nat) : option A :=
  match a !! i with
  | Some e => e
  | None => None
  end.

Record MissionConfig := mkMission
  { home_pos : option GpsPosition;
    air_drop_pos : option GpsPosition;
    emergent_last_known_pos : option GpsPosition;
    ir_primary_target_pos : option GpsPosition;
    ir_secondary_target_pos : option GpsPosition;
    off_axis_target_pos : option GpsPosition;
    sric_pos : option GpsPosition;
    search_grid_points : option (jsArray GpsPosition);
    mission_waypoints : option (jsArray Waypoint);
    mission_waypoints_dist_max : R }.

Record Obstacles := mkObstacles
  { stationary_obstacles : option (jsArray StationaryObstacle);
    moving_obstacles : option (jsArray MovingObstacle) }.

(** ** The injected services *)

Record DistanceService := mkDistance { haversine : R -> R -> R -> R -> R }.

Definition degToRad (d : R) : R := d * PI / 180.

(** Modelled from the spec: the haversine method of the Distance service,
    whose source is outside this module ("a great-circle distance function
    taking two latitude/longitude pairs and returning distance").  This is
    the haversine formula on a sphere of the given radius, the coordinates
    being in degrees.  The methods below never look inside the service; only
    the concrete examples use this definition. *)
Definition greatCircle (radius lat1 lon1 lat2 lon2 : R) : R :=
  let phi1 := degToRad lat1 in
  let phi2 := degToRad lat2 in
  let dphi := degToRad (lat2 - lat1) in
  let dlambda := degToRad (lon2 - lon1) in
  let a := Rsqr (sin (dphi / 2)) + cos phi1 * cos phi2 * Rsqr (sin (dlambda / 2)) in
  2 * radius * asin (sqrt a).

(** The Earth radius in feet; its value plays no role in the results. *)
Definition earthRadiusFt : R := 20925525.

Definition Distance : DistanceService := {| haversine := greatCircle earthRadiusFt |}.

Local Close Scope R_scope.

(** ** The coordinate conversion on doubles

    JavaScript numbers are IEEE 754 binary64 floats.  A product of two
    numbers that are not 0 can be 0 in doubles (underflow), which no
    computation on the reals shows.  This section repeats the arithmetic of
    [setObjectPosition_] on binary64 floats, for the inputs on which that
    matters. *)

(** [Math.sign] on doubles: NaN and the two zeros are returned as they
    are. *)
Definition Math_sign_double (x : float) : float :=
  if (x <? 0)%float then (-1)%float
  else if (0 <? x)%float then 1%float
  else x.

(** [Math.PI] *)
Definition Math_PI_double : float := 0x1.921fb54442d18p+1%float.

(** [Math.sin], [Math.cos] and [Math.asin] of the platform, on doubles.
    ECMAScript fixes only some of their values and asks for an approximation
    elsewhere.  They are modelled on the arguments where the double nearest
    to the exact value is known without computing: the sine of [x] is [x]
    and the cosine of [x] is 1 when [|x| < 2^-27], and the arc sine of a
    zero is that zero.  Other arguments are outside this model ([None]). *)
Definition Math_sin_small (x : float) : option float :=
  if (abs x <? 0x1p-27)%float then Some x else None.

Definition Math_cos_small (x : float) : option float :=
  if (abs x <? 0x1p-27)%float then Some 1%float else None.

Definition Math_asin_zero (x : float) : option float :=
  if (x =? 0)%float then Some x else None.

Definition degToRad_double (d : float) : float := (d * Math_PI_double / 180)%float.

(** Modelled from the spec: the haversine formula of [greatCircle], computed
    on doubles in the order in which it is written there.  Where this model
    is defined the argument of the arc sine is a zero, and so is the
    distance; the form of the formula that ends in [Math.atan2] gives the
    same value there. *)
Definition haversine_double (radius lat1 lon1 lat2 lon2 : float) : option float :=
  let phi1 := degToRad_double lat1 in
  let phi2 := degToRad_double lat2 in
  let dphi := degToRad_double (lat2 - lat1) in
  let dlambda := degToRad_double (lon2 - lon1) in
  s1 ← Math_sin_small (dphi / 2) ;
  c1 ← Math_cos_small phi1 ;
  c2 ← Math_cos_small phi2 ;
  s2 ← Math_sin_small (dlambda / 2) ;
  c ← Math_asin_zero (PrimFloat.sqrt (s1 * s1 + c1 * c2 * s2 * s2)) ;
  Some (2 * radius * c)%float.

Definition earthRadiusFt_double : float := 20925525%float.

Record GpsDouble := mkGpsDouble { latitude_double : float; longitude_double : float }.

(** [setObjectPosition_(pos, alt, refPos, objPos)] on doubles: the values
    assigned to [objPos.x], [objPos.y] and [objPos.z], for a Distance
    service [haversine] on doubles. *)
Definition setObjectPosition_double
    (haversine : float -> float -> float -> float -> option float)
    (pos : GpsDouble) (alt : float) (refPos : GpsDouble) : option (float * float * float) :=
  distX ← haversine (latitude_double refPos) (longitude_double pos)
             (latitude_double refPos) (longitude_double refPos) ;
  distY ← haversine (latitude_double pos) (longitude_double refPos)
             (latitude_double refPos) (longitude_double refPos) ;
  Some ((Math_sign_double (longitude_double pos - longitude_double refPos) * distX)%float,
        (Math_sign_double (latitude_double pos - latitude_double refPos) * distY)%float,
        alt).

(** ** THREE.js objects and the heap *)

Abbreviation loc := nat.

Record Vector3 := mkVector3 { vx : R; vy : R; vz : R }.

(** Objects created once by the constructor.  Of their parameters only the
    colours are kept. *)
Inductive Resource : Type :=
| HemisphereLight
| DirectionalLight
| Texture
| MeshPhongMaterial (color : Z)
| LineDashedMaterial (color : Z)
| PlaneBufferGeometry
| SphereGeometry
| CylinderGeometry.

(** A mesh.  Its [position] is an object of its own, because the reference
    [obj.position] is handed to [setObjectPosition_]; [scale] and [rotation]
    are only ever updated through the mesh and are kept in its cell. *)
Record Mesh := mkMesh
  { geometry : loc;
    material : loc;
    position : loc;
    scale : Vector3;
    rotation : Vector3;
    castShadow : bool;
    receiveShadow : bool }.

Inductive Obj : Type :=
| OResource (r : Resource)
| OVector3 (v : Vector3)
| OMesh (m : Mesh)
| OGeometry (vertices : list loc)
| OLine (line_geometry line_material : loc)
| OScene (children : list loc).

Abbreviation Heap := (list Obj).

(** ** The service object *)

Record MissionScene := mkMissionScene
  { distance_ : DistanceService;
    scene : option loc;
    skyLight : loc;
    sunLight : loc;
    groundTexture_ : loc;
    groundMaterial_ : loc;
    groundGeometry_ : loc;
    ground : loc;
    missionComponentRadius_ : R;
    missionComponentGeometry_ : loc;
    missionComponentMaterial_ : loc;
    homePosGeometry_ : loc;
    homePosMaterial_ : loc;
    searchGridPtGeometry_ : loc;
    searchGridPtMaterial_ : loc;
    searchGridPtRadius_ : R;
    searchGridPtLineMaterial_ : loc;
    missionWaypointGeometry_ : loc;
    missionWaypointMaterial_ : loc;
    missionWaypointLineMaterial_ : loc;
    stationaryObstacleGeometry_ : loc;
    stationaryObstacleMaterial_ : loc;
    movingObstacleGeometry_ : loc;
    movingObstacleMaterial_ : loc;
    telemetryGeometry_ : loc;
    telemetryRadius_ : R;
    telemetryMaterial_ : loc;
    (* The ground and the two lights are three different objects: the
       constructor assigns to each field the result of a [new] expression of
       its own (source lines 44, 45 and 70) and nothing assigns them again. *)
    objects_distinct :
      ground <> skyLight /\ ground <> sunLight /\ skyLight <> sunLight }.

(** [this.scene = s], every other field kept. *)
Definition withScene (t : MissionScene) (s : option loc) : MissionScene :=
  {| distance_ := distance_ t;
     scene := s;
     skyLight := skyLight t;
     sunLight := sunLight t;
     groundTexture_ := groundTexture_ t;
     groundMaterial_ := groundMaterial_ t;
     groundGeometry_ := groundGeometry_ t;
     ground := ground t;
     missionComponentRadius_ := missionComponentRadius_ t;
     missionComponentGeometry_ := missionComponentGeometry_ t;
     missionComponentMaterial_ := missionComponentMaterial_ t;
     homePosGeometry_ := homePosGeometry_ t;
     homePosMaterial_ := homePosMaterial_ t;
     searchGridPtGeometry_ := searchGridPtGeometry_ t;
     searchGridPtMaterial_ := searchGridPtMaterial_ t;
     searchGridPtRadius_ := searchGridPtRadius_ t;
     searchGridPtLineMaterial_ := searchGridPtLineMaterial_ t;
     missionWaypointGeometry_ := missionWaypointGeometry_ t;
     missionWaypointMaterial_ := missionWaypointMaterial_ t;
     missionWaypointLineMaterial_ := missionWaypointLineMaterial_ t;
     stationaryObstacleGeometry_ := stationaryObstacleGeometry_ t;
     stationaryObstacleMaterial_ := stationaryObstacleMaterial_ t;
     movingObstacleGeometry_ := movingObstacleGeometry_ t;
     movingObstacleMaterial_ := movingObstacleMaterial_ t;
     telemetryGeometry_ := telemetryGeometry_ t;
     telemetryRadius_ := telemetryRadius_ t;
     telemetryMaterial_ := telemetryMaterial_ t;
     objects_distinct := objects_distinct t |}.

(** A broadcast received by [$rootScope]: the event name, and the value a
    listener that reads the public field [scene] sees while it is notified
    (listeners run synchronously inside [$broadcast]). *)
Record Broadcast := mkBroadcast { event_name : string; scene_seen : option loc }.

(** The state.  [parents st !! l] is the property [parent] of the object at
    [l]: the scene the object is a child of; an object that is in no scene
    has no parent. *)
Record State := mkState
  { this : MissionScene;
    heap : Heap;
    parents : gmap loc loc;
    broadcasts : list Broadcast }.

(** ** The monad of methods: state and exceptions *)

Inductive Error : Type := TypeError.

Inductive Result (A : Type) : Type :=
| Ok (a : A)
| Throw (e : Error).
Arguments Ok {A} a.
Arguments Throw {A} e.

Definition M (A : Type) : Type := State -> Result A * State.

Definition ret {A} (a : A) : M A := fun st => (Ok a, st).

Definition bind {A B} (m : M A) (f : A -> M B) : M B :=
  fun st =>
    match m st with
    | (Ok a, st') => f a st'
    | (Throw e, st') => (Throw e, st')
    end.

Definition throw {A} (e : Error) : M A := fun st => (Throw e, st).

Notation "x <- m ;; k" := (bind m (fun x => k))
  (at level 100, m at next level, right associativity).
Notation "m ;;; k" := (bind m (fun _ => k))
  (at level 100, right associativity).

(** Reading a property through a reference that may be absent. *)
Definition deref {A} (o : option A) : M A :=
  match o with
  | Some a => ret a
  | None => throw TypeError
  end.

(** [o.f] *)
Definition prop {A B} (o : option A) (f : A -> B) : M B :=
  a <- deref o ;; ret (f a).

(** [this.f] *)
Definition this_ {A} (f : MissionScene -> A) : M A :=
  fun st => (Ok (f (this st)), st).

Definition setHeap (st : State) (h : Heap) : State :=
  {| this := this st; heap := h; parents := parents st; broadcasts := broadcasts st |}.

Definition setParents (st : State) (ps : gmap loc loc) : State :=
  {| this := this st; heap := heap st; parents := ps; broadcasts := broadcasts st |}.

(** [new]: the fresh object gets the next location, and has no parent. *)
Definition alloc (c : Obj) : M loc :=
  fun st =>
    let l := length (heap st) in
    (Ok l, setHeap (setParents st (delete l (parents st))) (heap st ++ [c])).

Definition readCell (l : loc) : M Obj :=
  fun st =>
    match heap st !! l with
    | Some c => (Ok c, st)
    | None => (Throw TypeError, st)
    end.

Definition writeCell (l : loc) (c : Obj) : M unit :=
  fun st => (Ok tt, setHeap st (<[l := c]> (heap st))).

(** [for (var i = 0; i < n; i++) body(i)].  The bounds in this file are
    lengths of input arrays, which no method changes, so a bound is read
    once. *)
Fixpoint forFrom (i count : nat) (body : nat -> M unit) : M unit :=
  match count with
  | O => ret tt
  | S count' => body i ;;; forFrom (S i) count' body
  end.

Definition for_ (n : nat) (body : nat -> M unit) : M unit := forFrom 0 n body.

(** *** The THREE.js operations the service uses *)

Definition zeroVector : Vector3 := mkVector3 0 0 0.

(** [new THREE.Scene()] *)
Definition new_Scene : M loc := alloc (OScene []).

(** [children.splice(children.indexOf(obj), 1)], for an [obj] that is among
    the children: its first occurrence is taken out. *)
Fixpoint removeFirst (obj : loc) (ch : list loc) : list loc :=
  match ch with
  | [] => []
  | c :: ch' => if decide (c = obj) then ch' else c :: removeFirst obj ch'
  end.

(** [obj.parent] *)
Definition getParent (obj : loc) : M (option loc) :=
  fun st => (Ok (parents st !! obj), st).

(** [obj.parent = s] *)
Definition setParent (obj s : loc) : M unit :=
  fun st => (Ok tt, setParents st (<[obj := s]> (parents st))).

(** [p.remove(obj)] of [THREE.Object3D]: when [obj] is among the children of
    [p], it loses its parent and is taken out of the children; otherwise
    nothing happens.  In this service only scenes have children. *)
Definition Object3D_remove (p obj : loc) : M unit :=
  fun st =>
    match heap st !! p with
    | Some (OScene ch) =>
        if decide (elem_of obj ch) then
          (Ok tt, setHeap (setParents st (delete obj (parents st)))
                    (<[p := OScene (removeFirst obj ch)]> (heap st)))
        else (Ok tt, st)
    | _ => (Ok tt, st)
    end.

(** [s.children.push(obj)] *)
Definition pushChild (s obj : loc) : M unit :=
  c <- readCell s ;;
  match c with
  | OScene ch => writeCell s (OScene (ch ++ [obj]))
  | _ => throw TypeError
  end.

(** [scene.add(obj)] of [THREE.Object3D]: [obj] is removed from its previous
    parent, if it has one, gets [scene] as its parent and becomes the last
    child of the scene.  (The library refuses to add an object to itself and
    to add what is no [Object3D]; the service does neither.) *)
Definition Scene_add (s obj : loc) : M unit :=
  c <- readCell s ;;
  match c with
  | OScene _ =>
      p <- getParent obj ;;
      match p with
      | Some p => Object3D_remove p obj
      | None => ret tt
      end ;;;
      setParent obj s ;;;
      pushChild s obj
  | _ => throw TypeError
  end.

(** [new THREE.Vector3()] *)
Definition new_Vector3 : M loc := alloc (OVector3 zeroVector).

(** [new THREE.Mesh(geometry, material)] *)
Definition new_Mesh (g m : loc) : M loc :=
  p <- new_Vector3 ;;
  alloc (OMesh {| geometry := g; material := m; position := p;
                  scale := mkVector3 1 1 1; rotation := zeroVector;
                  castShadow := false; receiveShadow := false |}).

Definition readMesh (obj : loc) : M Mesh :=
  c <- readCell obj ;;
  match c with
  | OMesh m => ret m
  | _ => throw TypeError
  end.

(** [obj.position] *)
Definition Mesh_position (obj : loc) : M loc :=
  m <- readMesh obj ;; ret (position m).

Definition setScale (m : Mesh) (v : Vector3) : Mesh :=
  {| geometry := geometry m; material := material m; position := position m;
     scale := v; rotation := rotation m;
     castShadow := castShadow m; receiveShadow := receiveShadow m |}.

Definition setRotation (m : Mesh) (v : Vector3) : Mesh :=
  {| geometry := geometry m; material := material m; position := position m;
     scale := scale m; rotation := v;
     castShadow := castShadow m; receiveShadow := receiveShadow m |}.

Definition setCastShadow (m : Mesh) (b : bool) : Mesh :=
  {| geometry := geometry m; material := material m; position := position m;
     scale := scale m; rotation := rotation m;
     castShadow := b; receiveShadow := receiveShadow m |}.

Definition setReceiveShadow (m : Mesh) (b : bool) : Mesh :=
  {| geometry := geometry m; material := material m; position := position m;
     scale := scale m; rotation := rotation m;
     castShadow := castShadow m; receiveShadow := b |}.

Definition updateMesh (obj : loc) (f : Mesh -> Mesh) : M unit :=
  m <- readMesh obj ;; writeCell obj (OMesh (f m)).

(** [obj.scale.set(a, b, c)] *)
Definition Mesh_scale_set (obj : loc) (a b c : R) : M unit :=
  updateMesh obj (fun m => setScale m (mkVector3 a b c)).

(** [obj.rotation.set(a, b, c)] *)
Definition Mesh_rotation_set (obj : loc) (a b c : R) : M unit :=
  updateMesh obj (fun m => setRotation m (mkVector3 a b c)).

(** Assignments to the coordinates of a vector.  In this service the target
    is always a [THREE.Vector3]; any other target is treated as an error. *)
Definition readVector3 (l : loc) : M Vector3 :=
  c <- readCell l ;;
  match c with
  | OVector3 v => ret v
  | _ => throw TypeError
  end.

Definition updateVector3 (l : loc) (f : Vector3 -> Vector3) : M unit :=
  v <- readVector3 l ;; writeCell l (OVector3 (f v)).

(** [new THREE.Geometry()] *)
Definition new_Geometry : M loc := alloc (OGeometry []).

(** [geometry.vertices.push(a, b)] *)
Definition vertices_push (g a b : loc) : M unit :=
  c <- readCell g ;;
  match c with
  | OGeometry vs => writeCell g (OGeometry (vs ++ [a; b]))
  | _ => throw TypeError
  end.

(** [new THREE.Line(geometry, material)] *)
Definition new_Line (g m : loc) : M loc := alloc (OLine g m).

(** [this.rootScope_.$broadcast(name)] *)
Definition broadcast (name : string) : M unit :=
  fun st =>
    (Ok tt,
     {| this := this st; heap := heap st; parents := parents st;
        broadcasts := broadcasts st ++ [mkBroadcast name (scene (this st))] |}).

(** [this.scene = s] *)
Definition set_scene (s : loc) : M unit :=
  fun st =>
    (Ok tt,
     {| this := withScene (this st) (Some s); heap := heap st; parents := parents st;
        broadcasts := broadcasts st |}).

(** ** The methods of the service *)

(** [new MissionScene($rootScope, Distance, Units)].  The constructor
    allocates, in this order: the two lights, the ground texture, material
    and geometry, the ground mesh (its position vector, then the mesh), the
    sphere geometry shared by all spherical markers, and the materials.  No
    object is in a scene yet.  The [Units] service is never used;
    [$rootScope] has received no broadcast. *)
Definition new_MissionScene (distance : DistanceService) : State :=
  {| this :=
       {| distance_ := distance;
          scene := None;
          skyLight := 0;
          sunLight := 1;
          groundTexture_ := 2;
          groundMaterial_ := 3;
          groundGeometry_ := 4;
          ground := 6;
          missionComponentRadius_ := 20;
          missionComponentGeometry_ := 7;
          missionComponentMaterial_ := 8;
          homePosGeometry_ := 7;
          homePosMaterial_ := 9;
          searchGridPtGeometry_ := 7;
          searchGridPtMaterial_ := 10;
          searchGridPtRadius_ := 20;
          searchGridPtLineMaterial_ := 11;
          missionWaypointGeometry_ := 7;
          missionWaypointMaterial_ := 12;
          missionWaypointLineMaterial_ := 13;
          stationaryObstacleGeometry_ := 14;
          stationaryObstacleMaterial_ := 15;
          movingObstacleGeometry_ := 7;
          movingObstacleMaterial_ := 15;
          telemetryGeometry_ := 7;
          telemetryRadius_ := 20;
          telemetryMaterial_ := 16;
          objects_distinct :=
            conj (fun e : 6 = 0 => O_S 5 (eq_sym e))
              (conj (fun e : 6 = 1 => O_S 4 (eq_sym (eq_add_S 5 0 e))) (O_S 0)) |};
     heap :=
       [ OResource HemisphereLight;
         OResource DirectionalLight;
         OResource Texture;
         OResource (MeshPhongMaterial 0x526f35);
         OResource PlaneBufferGeometry;
         OVector3 zeroVector;
         OMesh {| geometry := 4; material := 3; position := 5;
                  scale := mkVector3 100000 100000 100000;
                  rotation := zeroVector;
                  castShadow := false; receiveShadow := true |};
         OResource SphereGeometry;
         OResource (MeshPhongMaterial 0xffffff);
         OResource (MeshPhongMaterial 0x00ff00);
         OResource (MeshPhongMaterial 0x00ffff);
         OResource (LineDashedMaterial 0x00ffff);
         OResource (MeshPhongMaterial 0x0000ff);
         OResource (LineDashedMaterial 0x0000ff);
         OResource CylinderGeometry;
         OResource (MeshPhongMaterial 0xff0000);
         OResource (MeshPhongMaterial 0xffff00) ];
     parents := empty;
     broadcasts := [] |}.

(** [setObjectPosition_(pos, alt, refPos, objPos)].  The properties are read
    in the order the source evaluates them. *)
Definition setObjectPosition_ {A B} `{HasLatLon A} `{HasLatLon B}
    (pos : option A) (alt : R) (refPos : option B) (objPos : loc) : M unit :=
  distance <- this_ distance_ ;;
  refLat <- prop refPos latitude ;;
  posLon <- prop pos longitude ;;
  refLon <- prop refPos longitude ;;
  let distX := haversine distance refLat posLon refLat refLon in
  posLat <- prop pos latitude ;;
  let distY := haversine distance posLat refLon refLat refLon in
  updateVector3 objPos
    (fun v => mkVector3 (Math_sign (posLon - refLon) * distX) (vy v) (vz v)) ;;;
  updateVector3 objPos
    (fun v => mkVector3 (vx v) (Math_sign (posLat - refLat) * distY) (vz v)) ;;;
  updateVector3 objPos (fun v => mkVector3 (vx v) (vy v) alt).

(** [createObject_(geometry, material, pos, alt, refPos, scale, scene)] *)
Definition createObject_ {A B} `{HasLatLon A} `{HasLatLon B}
    (geom mat : loc) (pos : option A) (alt : R) (refPos : option B)
    (scl : R) (scn : loc) : M loc :=
  obj <- new_Mesh geom mat ;;
  objPos <- Mesh_position obj ;;
  setObjectPosition_ pos alt refPos objPos ;;;
  Mesh_scale_set obj scl scl scl ;;;
  updateMesh obj (fun m => setCastShadow m true) ;;;
  updateMesh obj (fun m => setReceiveShadow m true) ;;;
  Scene_add scn obj ;;;
  ret obj.

(** The array literal [missionComponents] of [addMissionSceneElements_]. *)
Definition missionComponents (mission : MissionConfig) : jsArray GpsPosition :=
  [ air_drop_pos mission; emergent_last_known_pos mission;
    ir_primary_target_pos mission; ir_secondary_target_pos mission;
    off_axis_target_pos mission; sric_pos mission ].

(** [addMissionSceneElements_(mission, scene)].  It is only called with a
    mission that is present. *)
Definition addMissionSceneElements_ (mission : MissionConfig) (scn : loc) : M unit :=
  (* Add home position. *)
  hg <- this_ homePosGeometry_ ;;
  hm <- this_ homePosMaterial_ ;;
  hr <- this_ missionComponentRadius_ ;;
  _ <- createObject_ hg hm (home_pos mission) hr (home_pos mission) hr scn ;;
  (* Add mission components to scene. *)
  for_ (length (missionComponents mission)) (fun i =>
    let component := jsIndex (missionComponents mission) i in
    g <- this_ missionComponentGeometry_ ;;
    m <- this_ missionComponentMaterial_ ;;
    r <- this_ missionComponentRadius_ ;;
    _ <- createObject_ g m component r (home_pos mission) r scn ;;
    ret tt) ;;;
  (* Add search grid points. *)
  n <- prop (search_grid_points mission) (fun a => length a) ;;
  for_ n (fun i =>
    searchPt <- prop (search_grid_points mission) (fun a => jsIndex a i) ;;
    g <- this_ searchGridPtGeometry_ ;;
    m <- this_ searchGridPtMaterial_ ;;
    r <- this_ searchGridPtRadius_ ;;
    _ <- createObject_ g m searchPt r (home_pos mission) r scn ;;
    ret tt) ;;;
  (* Add lines between search grid points. *)
  searchGridPtLineGeometry <- new_Geometry ;;
  n <- prop (search_grid_points mission) (fun a => length a) ;;
  for_ n (fun i =>
    len <- prop (search_grid_points mission) (fun a => length a) ;;
    let j := ((i + 1) mod len)%nat in
    start <- prop (search_grid_points mission) (fun a => jsIndex a i) ;;
    end_ <- prop (search_grid_points mission) (fun a => jsIndex a j) ;;
    startPt <- new_Vector3 ;;
    r <- this_ searchGridPtRadius_ ;;
    setObjectPosition_ start r (home_pos mission) startPt ;;;
    endPt <- new_Vector3 ;;
    r <- this_ searchGridPtRadius_ ;;
    setObjectPosition_ end_ r (home_pos mission) endPt ;;;
    vertices_push searchGridPtLineGeometry startPt endPt) ;;;
  lm <- this_ searchGridPtLineMaterial_ ;;
  searchGridPtLine <- new_Line searchGridPtLineGeometry lm ;;
  Scene_add scn searchGridPtLine ;;;
  (* Add mission waypoints. *)
  n <- prop (mission_waypoints mission) (fun a => length a) ;;
  for_ n (fun i =>
    waypoint <- prop (mission_waypoints mission) (fun a => jsIndex a i) ;;
    g <- this_ missionWaypointGeometry_ ;;
    m <- this_ missionWaypointMaterial_ ;;
    alt <- prop waypoint altitude_msl ;;
    _ <- createObject_ g m waypoint alt (home_pos mission)
           (mission_waypoints_dist_max mission) scn ;;
    ret tt) ;;;
  (* Add lines between mission waypoints. *)
  missionWaypointLineGeometry <- new_Geometry ;;
  n <- prop (mission_waypoints mission) (fun a => length a) ;;
  for_ (Z.to_nat (Z.of_nat n - 1)) (fun i =>
    start <- prop (mission_waypoints mission) (fun a => jsIndex a i) ;;
    end_ <- prop (mission_waypoints mission) (fun a => jsIndex a (i + 1)) ;;
    startPt <- new_Vector3 ;;
    startAlt <- prop start altitude_msl ;;
    setObjectPosition_ start startAlt (home_pos mission) startPt ;;;
    endPt <- new_Vector3 ;;
    endAlt <- prop end_ altitude_msl ;;
    setObjectPosition_ end_ endAlt (home_pos mission) endPt ;;;
    vertices_push missionWaypointLineGeometry startPt endPt) ;;;
  lm <- this_ missionWaypointLineMaterial_ ;;
  missionWaypointLine <- new_Line missionWaypointLineGeometry lm ;;
  Scene_add scn missionWaypointLine.

(** [addObstacleSceneElements_(mission, obstacles, refPos, scene)].  The
    parameter [refPos] is not used by the source: the reference position is
    [mission.home_pos]. *)
Definition addObstacleSceneElements_ (mission : MissionConfig)
    (obstacles : option Obstacles) (refPos : option GpsPosition) (scn : loc) : M unit :=
  arr <- prop obstacles stationary_obstacles ;;
  n <- prop arr (fun a => length a) ;;
  for_ n (fun i =>
    arr <- prop obstacles stationary_obstacles ;;
    obstacle <- prop arr (fun a => jsIndex a i) ;;
    g <- this_ stationaryObstacleGeometry_ ;;
    m <- this_ stationaryObstacleMaterial_ ;;
    alt <- prop obstacle (fun o => (cylinder_height o / 2)%R) ;;
    obstacleObj <- createObject_ g m obstacle alt (home_pos mission) 1 scn ;;
    radius <- prop obstacle cylinder_radius ;;
    height <- prop obstacle cylinder_height ;;
    Mesh_scale_set obstacleObj radius height radius ;;;
    Mesh_rotation_set obstacleObj (PI / 2) 0 0) ;;;
  arr <- prop obstacles moving_obstacles ;;
  n <- prop arr (fun a => length a) ;;
  for_ n (fun i =>
    arr <- prop obstacles moving_obstacles ;;
    obstacle <- prop arr (fun a => jsIndex a i) ;;
    g <- this_ movingObstacleGeometry_ ;;
    m <- this_ movingObstacleMaterial_ ;;
    alt <- prop obstacle altitude_msl ;;
    radius <- prop obstacle sphere_radius ;;
    _ <- createObject_ g m obstacle alt (home_pos mission) radius scn ;;
    ret tt).

(** [addTelemetrySceneElements_(mission, telemetry, refPos, scene)] *)
Definition addTelemetrySceneElements_ (mission : MissionConfig)
    (telemetry : option (jsArray UasTelemetry)) (refPos : option GpsPosition)
    (scn : loc) : M unit :=
  n <- prop telemetry (fun a => length a) ;;
  for_ n (fun i =>
    userTelem <- prop telemetry (fun a => jsIndex a i) ;;
    g <- this_ telemetryGeometry_ ;;
    m <- this_ telemetryMaterial_ ;;
    alt <- prop userTelem altitude_msl ;;
    r <- this_ telemetryRadius_ ;;
    _ <- createObject_ g m userTelem alt (home_pos mission) r scn ;;
    ret tt).

(** [!!v] for a reference: an object is truthy, [null] and [undefined] are
    not. *)
Definition truthy {A} (v : option A) : bool :=
  match v with
  | Some _ => true
  | None => false
  end.

(** The name of the event broadcast after a rebuild. *)
Definition sceneUpdated : string := "MissionScene.sceneUpdated".

(** [rebuildScene(mission, obstacles, telemetry)] *)
Definition rebuildScene (mission : option MissionConfig) (obstacles : option Obstacles)
    (telemetry : option (jsArray UasTelemetry)) : M unit :=
  (* Create fresh scene for rebuild. *)
  scn <- new_Scene ;;
  (* Add the ground plane. *)
  g <- this_ ground ;;
  Scene_add scn g ;;;
  (* Add the light. *)
  sky <- this_ skyLight ;;
  Scene_add scn sky ;;;
  sun <- this_ sunLight ;;
  Scene_add scn sun ;;;
  (* Build mission scene components. Requires a mission and home position. *)
  match mission with
  | Some m =>
      if truthy (home_pos m) then
        addMissionSceneElements_ m scn ;;;
        addObstacleSceneElements_ m obstacles (home_pos m) scn ;;;
        addTelemetrySceneElements_ m telemetry (home_pos m) scn
      else ret tt
  | None => ret tt
  end ;;;
  (* Update the scene and notify others. *)
  set_scene scn ;;;
  broadcast sceneUpdated.

(** ** Specification vocabulary *)

(** The local coordinates [setObjectPosition_] computes for [pos] relative to
    [refPos]. *)
Definition localCoords {A B} `{HasLatLon A} `{HasLatLon B}
    (d : DistanceService) (pos : A) (alt : R) (refPos : B) : Vector3 :=
  mkVector3
    (Math_sign (longitude pos - longitude refPos) *
       haversine d (latitude refPos) (longitude pos) (latitude refPos) (longitude refPos))
    (Math_sign (latitude pos - latitude refPos) *
       haversine d (latitude pos) (longitude refPos) (latitude refPos) (longitude refPos))
    alt.

(** *** Outcomes *)

(** [wp m Q E st]: run from [st], the method [m] either returns a value and
    a state that satisfy [Q], or throws in a state that satisfies [E]. *)
Definition wp {A} (m : M A) (Q : A -> State -> Prop) (E : State -> Prop)
    (st : State) : Prop :=
  match m st with
  | (Ok a, st') => Q a st'
  | (Throw _, st') => E st'
  end.

(** *** What a scene looks like

    A scene is compared with another one through the values its objects
    hold, not through their locations. *)

Inductive ObjView : Type :=
| VMesh (geom mat : loc) (pos scl rot : Vector3) (cast receive : bool)
| VLine (vertices : list Vector3) (mat : loc).

Definition vectorAt (h : Heap) (l : loc) : option Vector3 :=
  match h !! l with
  | Some (OVector3 v) => Some v
  | _ => None
  end.

Definition viewObj (h : Heap) (l : loc) : option ObjView :=
  match h !! l with
  | Some (OMesh m) =>
      match vectorAt h (position m) with
      | Some p =>
          Some (VMesh (geometry m) (material m) p (scale m) (rotation m)
                  (castShadow m) (receiveShadow m))
      | None => None
      end
  | Some (OLine g m) =>
      match h !! g with
      | Some (OGeometry vs) =>
          match mapM (vectorAt h) vs with
          | Some pts => Some (VLine pts m)
          | None => None
          end
      | _ => None
      end
  | _ => None
  end.

(** [scene.children] *)
Definition sceneChildren (h : Heap) (s : loc) : option (list loc) :=
  match h !! s with
  | Some (OScene ch) => Some ch
  | _ => None
  end.

(** The three objects every scene starts with. *)
Definition baseObjects (t : MissionScene) : list loc := [ground t; skyLight t; sunLight t].

(** The line segments of a line geometry: the vertices are pushed in pairs
    (start, end). *)
Fixpoint segments (pts : list Vector3) : list (Vector3 * Vector3) :=
  match pts with
  | a :: b :: rest => (a, b) :: segments rest
  | _ => []
  end.

Definition uniformScale (v : ObjView) : Prop :=
  match v with
  | VMesh _ _ _ scl _ _ _ => vx scl = vy scl /\ vy scl = vz scl
  | VLine _ _ => True
  end.

Definition castsAndReceivesShadow (v : ObjView) : Prop :=
  match v with
  | VMesh _ _ _ _ _ cast receive => cast = true /\ receive = true
  | VLine _ _ => True
  end.

(** The position of a marker is what [setObjectPosition_] computes from some
    GPS position and altitude, relative to [home]. *)
Definition placedByConversion (d : DistanceService) (home : GpsPosition)
    (v : ObjView) : Prop :=
  match v with
  | VMesh _ _ pos _ _ _ _ => exists lat lon alt, pos = localCoords d (mkGps lat lon) alt home
  | VLine _ _ => True
  end.

(** *** Inputs without absent references *)

Record CompleteInputs := mkComplete
  { ci_home_pos : GpsPosition;
    ci_air_drop_pos : GpsPosition;
    ci_emergent_last_known_pos : GpsPosition;
    ci_ir_primary_target_pos : GpsPosition;
    ci_ir_secondary_target_pos : GpsPosition;
    ci_off_axis_target_pos : GpsPosition;
    ci_sric_pos : GpsPosition;
    ci_search_grid_points : list GpsPosition;
    ci_mission_waypoints : list Waypoint;
    ci_mission_waypoints_dist_max : R;
    ci_stationary_obstacles : list StationaryObstacle;
    ci_moving_obstacles : list MovingObstacle;
    ci_telemetry : list UasTelemetry }.

Definition missionOf (ci : CompleteInputs) : MissionConfig :=
  {| home_pos := Some (ci_home_pos ci);
     air_drop_pos := Some (ci_air_drop_pos ci);
     emergent_last_known_pos := Some (ci_emergent_last_known_pos ci);
     ir_primary_target_pos := Some (ci_ir_primary_target_pos ci);
     ir_secondary_target_pos := Some (ci_ir_secondary_target_pos ci);
     off_axis_target_pos := Some (ci_off_axis_target_pos ci);
     sric_pos := Some (ci_sric_pos ci);
     search_grid_points := Some (map Some (ci_search_grid_points ci));
     mission_waypoints := Some (map Some (ci_mission_waypoints ci));
     mission_waypoints_dist_max := ci_mission_waypoints_dist_max ci |}.

Definition obstaclesOf (ci : CompleteInputs) : Obstacles :=
  {| stationary_obstacles := Some (map Some (ci_stationary_obstacles ci));
     moving_obstacles := Some (map Some (ci_moving_obstacles ci)) |}.

Definition telemetryOf (ci : CompleteInputs) : jsArray UasTelemetry :=
  map Some (ci_telemetry ci).

Definition ci_components (ci : CompleteInputs) : list GpsPosition :=
  [ ci_air_drop_pos ci; ci_emergent_last_known_pos ci;
    ci_ir_primary_target_pos ci; ci_ir_secondary_target_pos ci;
    ci_off_axis_target_pos ci; ci_sric_pos ci ].

(** *** The markers and lines of a scene, in the order they are added *)

(** A marker as [createObject_] leaves it. *)
Definition sphereMarker (geom mat : loc) (p : Vector3) (scl : R) : ObjView :=
  VMesh geom mat p (mkVector3 scl scl scl) zeroVector true true.

(** A stationary obstacle after its scale and rotation have been set. *)
Definition cylinderMarker (geom mat : loc) (p : Vector3) (radius height : R) : ObjView :=
  VMesh geom mat p (mkVector3 radius height radius) (mkVector3 (PI / 2) 0 0) true true.

Section Markers.
Variable t : MissionScene.
Variable ci : CompleteInputs.

Let d := distance_ t.
Let home := ci_home_pos ci.

Definition homeMarker : ObjView :=
  sphereMarker (homePosGeometry_ t) (homePosMaterial_ t)
    (localCoords d home (missionComponentRadius_ t) home) (missionComponentRadius_ t).

Definition componentMarkers : list ObjView :=
  map (fun c => sphereMarker (missionComponentGeometry_ t) (missionComponentMaterial_ t)
                  (localCoords d c (missionComponentRadius_ t) home)
                  (missionComponentRadius_ t))
      (ci_components ci).

Definition searchGridMarkers : list ObjView :=
  map (fun p => sphereMarker (searchGridPtGeometry_ t) (searchGridPtMaterial_ t)
                  (localCoords d p (searchGridPtRadius_ t) home)
                  (searchGridPtRadius_ t))
      (ci_search_grid_points ci).

(** The two vertices pushed by iteration [i] of the search grid line
    loop. *)
Definition searchGridSegment (i : nat) : list Vector3 :=
  let grid := ci_search_grid_points ci in
  match grid !! i, grid !! ((i + 1) mod length grid) with
  | Some a, Some b =>
      [ localCoords d a (searchGridPtRadius_ t) home;
        localCoords d b (searchGridPtRadius_ t) home ]
  | _, _ => []
  end.

Definition searchGridLine : ObjView :=
  VLine (flat_map searchGridSegment (seq 0 (length (ci_search_grid_points ci))))
        (searchGridPtLineMaterial_ t).

Definition waypointMarkers : list ObjView :=
  map (fun w => sphereMarker (missionWaypointGeometry_ t) (missionWaypointMaterial_ t)
                  (localCoords d w (altitude_msl w) home)
                  (ci_mission_waypoints_dist_max ci))
      (ci_mission_waypoints ci).

(** The two vertices pushed by iteration [i] of the waypoint line loop. *)
Definition waypointSegment (i : nat) : list Vector3 :=
  let wps := ci_mission_waypoints ci in
  match wps !! i, wps !! (i + 1) with
  | Some a, Some b =>
      [ localCoords d a (altitude_msl a) home;
        localCoords d b (altitude_msl b) home ]
  | _, _ => []
  end.

Definition waypointLine : ObjView :=
  VLine (flat_map waypointSegment (seq 0 (length (ci_mission_waypoints ci) - 1)))
        (missionWaypointLineMaterial_ t).

Definition stationaryMarkers : list ObjView :=
  map (fun o => cylinderMarker (stationaryObstacleGeometry_ t)
                  (stationaryObstacleMaterial_ t)
                  (localCoords d o (cylinder_height o / 2) home)
                  (cylinder_radius o) (cylinder_height o))
      (ci_stationary_obstacles ci).

Definition movingMarkers : list ObjView :=
  map (fun o => sphereMarker (movingObstacleGeometry_ t) (movingObstacleMaterial_ t)
                  (localCoords d o (altitude_msl o) home) (sphere_radius o))
      (ci_moving_obstacles ci).

Definition telemetryMarkers : list ObjView :=
  map (fun u => sphereMarker (telemetryGeometry_ t) (telemetryMaterial_ t)
                  (localCoords d u (altitude_msl u) home) (telemetryRadius_ t))
      (ci_telemetry ci).

Definition missionElements : list ObjView :=
  homeMarker :: componentMarkers ++ searchGridMarkers ++ [searchGridLine]
    ++ waypointMarkers ++ [waypointLine].

Definition obstacleElements : list ObjView := stationaryMarkers ++ movingMarkers.

Definition sceneElements : list ObjView :=
  missionElements ++ obstacleElements ++ telemetryMarkers.
End Markers.

(** *** What a method leaves alone *)

Inductive Kind : Type := KResource | KVector3 | KMesh | KGeometry | KLine | KScene.

Definition kindOf (c : Obj) : Kind :=
  match c with
  | OResource _ => KResource
  | OVector3 _ => KVector3
  | OMesh _ => KMesh
  | OGeometry _ => KGeometry
  | OLine _ _ => KLine
  | OScene _ => KScene
  end.

Definition isResource (c : Obj) : bool :=
  match c with
  | OResource _ => true
  | _ => false
  end.

(** [frame b st st']: from [st] to [st'] the fields of the service and the
    broadcast log are the same, the heap has only grown, every object below
    location [b] is untouched and has the parent it had, no rendering
    resource has been created or overwritten, and every object is still of
    the kind it was. *)
Definition frame (b : nat) (st st' : State) : Prop :=
  this st' = this st /\
  broadcasts st' = broadcasts st /\
  length (heap st) <= length (heap st') /\
  (forall l, l < b -> heap st' !! l = heap st !! l) /\
  (forall l c, heap st' !! l = Some c -> isResource c = true -> heap st !! l = Some c) /\
  (forall l c, heap st !! l = Some c ->
     exists c', heap st' !! l = Some c' /\ kindOf c' = kindOf c) /\
  (forall l, l < b -> parents st' !! l = parents st !! l).

(** [framed b Qv m]: run in a heap that reaches at least up to [b], the
    method [m] respects [frame b], whether it returns or throws, and a
    returned value satisfies [Qv]. *)
Definition framed {A} (b : nat) (Qv : A -> Prop) (m : M A) : Prop :=
  forall st, b <= length (heap st) ->
    wp m (fun a st' => frame b st st' /\ Qv a) (fun st' => frame b st st') st.

(** The guarded part of [rebuildScene]: the elements of a mission with a
    home position. *)
Definition addSceneElements (mission : option MissionConfig) (obstacles : option Obstacles)
    (telemetry : option (jsArray UasTelemetry)) (scn : loc) : M unit :=
  match mission with
  | Some m =>
      if truthy (home_pos m) then
        addMissionSceneElements_ m scn ;;;
        addObstacleSceneElements_ m obstacles (home_pos m) scn ;;;
        addTelemetrySceneElements_ m telemetry (home_pos m) scn
      else ret tt
  | None => ret tt
  end.

(** [rebuildScene] up to, and without, its last two statements. *)
Definition buildScene (mission : option MissionConfig) (obstacles : option Obstacles)
    (telemetry : option (jsArray UasTelemetry)) : M loc :=
  scn <- new_Scene ;;
  g <- this_ ground ;;
  Scene_add scn g ;;;
  sky <- this_ skyLight ;;
  Scene_add scn sky ;;;
  sun <- this_ sunLight ;;
  Scene_add scn sun ;;;
  match mission with
  | Some m =>
      if truthy (home_pos m) then
        addMissionSceneElements_ m scn ;;;
        addObstacleSceneElements_ m obstacles (home_pos m) scn ;;;
        addTelemetrySceneElements_ m telemetry (home_pos m) scn
      else ret tt
  | None => ret tt
  end ;;;
  ret scn.

(** *** What a rebuild does to the objects that exist *)

(** [movedOut objs c c']: the object [c] has become [c'] by nothing but
    objects among [objs] leaving its children.  An object that is not a
    scene has no children and is unchanged. *)
Definition movedOut (objs : list loc) (c c' : Obj) : Prop :=
  match c with
  | OScene ch =>
      exists ch', c' = OScene ch' /\ sublist ch' ch /\
                  forall x, elem_of x ch -> ~ elem_of x objs -> elem_of x ch'
  | _ => c' = c
  end.

(** [leaves ps s g ch]: the children of the scene [s], which were [ch],
    after the object [g] has been added to another scene, [ps] being the
    parent links before: [g] has been taken out if [s] was its parent. *)
Definition leaves (ps : gmap loc loc) (s g : loc) (ch : list loc) : list loc :=
  if decide (ps !! g = Some s) then removeFirst g ch else ch.

(** The same, for several objects added one after the other. *)
Definition leavesAll (ps : gmap loc loc) (s : loc) (objs : list loc) (ch : list loc) :
    list loc :=
  foldl (fun acc g => leaves ps s g acc) ch objs.

(** [rebuilt b st st']: from [st] to [st'] a scene has been started at
    location [b], the first free one: the fields of the service and the
    broadcast log are the same; an object that existed is unchanged, except
    that the ground and the lights have left the scene they were in; their
    parent is now the scene at [b], and no other object that existed has
    changed its parent; no rendering resource has been created.  The last
    clause says which scenes the ground and the lights have left: those
    that were their parents. *)
Definition rebuilt (b : nat) (st st' : State) : Prop :=
  this st' = this st /\
  broadcasts st' = broadcasts st /\
  length (heap st) < length (heap st') /\
  (forall l c, heap st !! l = Some c ->
     exists c', heap st' !! l = Some c' /\ movedOut (baseObjects (this st)) c c') /\
  (forall l c, b <= l -> heap st' !! l = Some c -> isResource c = false) /\
  (exists ch, heap st' !! b = Some (OScene ch)) /\
  (forall l, l < b -> ~ elem_of l (baseObjects (this st)) ->
     parents st' !! l = parents st !! l) /\
  (forall g, elem_of g (baseObjects (this st)) -> g < b -> parents st' !! g = Some b) /\
  (forall l ch, heap st !! l = Some (OScene ch) ->
     heap st' !! l
       = Some (OScene (leavesAll (delete b (parents st)) l (baseObjects (this st)) ch))).

(** *** Invariants of a rebuild *)

Definition isScene (c : Obj) : bool :=
  match c with
  | OScene _ => true
  | _ => false
  end.

(** [keeps h h']: every object of [h] that is not a scene is the same in
    [h']. *)
Definition keeps (h h' : Heap) : Prop :=
  forall l c, h !! l = Some c -> isScene c = false -> h' !! l = Some c.

Definition meshView (p : Vector3) (m : Mesh) : ObjView :=
  VMesh (geometry m) (material m) p (scale m) (rotation m) (castShadow m) (receiveShadow m).

(** [SceneInv t0 ev0 h0 vs st]: in the course of a rebuild started with the
    service [t0], the log [ev0] and the heap [h0], the state [st] has the
    same service fields and log, the objects of [h0] other than its scenes
    unchanged, and at the location after [h0] the scene under construction,
    whose children are the ground, the lights and then new objects that
    look like [vs]. *)
Definition SceneInv (t0 : MissionScene) (ev0 : list Broadcast) (h0 : Heap)
    (vs : list ObjView) (st : State) : Prop :=
  this st = t0 /\
  broadcasts st = ev0 /\
  keeps h0 (heap st) /\
  exists ms,
    heap st !! length h0 = Some (OScene (baseObjects t0 ++ ms)) /\
    Forall2 (fun l v => viewObj (heap st) l = Some v) ms vs /\
    Forall (fun l => length h0 < l) ms.

(** [LineInv t0 ev0 hs pts st]: while the vertices of a line are pushed, the
    service fields and the log are still [t0] and [ev0], the objects of the
    heap [hs] in which the line geometry was allocated are unchanged, and
    the geometry, at the location after [hs], holds vertices with the values
    [pts]. *)
Definition LineInv (t0 : MissionScene) (ev0 : list Broadcast) (hs : Heap)
    (pts : list Vector3) (st : State) : Prop :=
  this st = t0 /\
  broadcasts st = ev0 /\
  (forall l c, hs !! l = Some c -> heap st !! l = Some c) /\
  exists vl,
    heap st !! length hs = Some (OGeometry vl) /\
    Forall2 (fun l p => heap st !! l = Some (OVector3 p)) vl pts.

(** The guard of [rebuildScene] fails: the mission is absent, or its home
    position is. *)
Definition lacksHomePosition (mission : option MissionConfig) : Prop :=
  match mission with
  | Some m => home_pos m = None
  | None => True
  end.

(** The arguments on which [rebuildScene] returns: the guard fails, or
    nothing that is read is absent. *)
Definition tolerated (mission : option MissionConfig) (obstacles : option Obstacles)
    (telemetry : option (jsArray UasTelemetry)) : Prop :=
  lacksHomePosition mission \/
  exists ci, mission = Some (missionOf ci) /\ obstacles = Some (obstaclesOf ci) /\
             telemetry = Some (telemetryOf ci).

(** ** Example inputs *)

(** A freshly constructed service with the great-circle Distance service. *)
Definition freshService : State := new_MissionScene Distance.

(** The fresh service after one [new THREE.Vector3()]; the vector is at
    location 17. *)
Definition freshWithVector : State := snd (new_Vector3 freshService).

(** Arguments with every field present: three search grid points, two
    waypoints, one stationary obstacle of radius 1 and height 2, one moving
    obstacle and one telemetry point. *)
Definition exampleInputs : CompleteInputs :=
  {| ci_home_pos := mkGps 38 (-76);
     ci_air_drop_pos := mkGps 38 (-77);
     ci_emergent_last_known_pos := mkGps 39 (-76);
     ci_ir_primary_target_pos := mkGps 37 (-76);
     ci_ir_secondary_target_pos := mkGps 38 (-75);
     ci_off_axis_target_pos := mkGps 39 (-77);
     ci_sric_pos := mkGps 37 (-75);
     ci_search_grid_points := [mkGps 38 (-77); mkGps 39 (-77); mkGps 39 (-76)];
     ci_mission_waypoints := [mkWaypoint 38 (-77) 100; mkWaypoint 39 (-76) 200];
     ci_mission_waypoints_dist_max := 50;
     ci_stationary_obstacles := [mkStationary 38 (-77) 1 2];
     ci_moving_obstacles := [mkMoving 39 (-76) 150 30];
     ci_telemetry := [mkTelemetry 38 (-76) 120] |}.

(** ** Further vocabulary *)

(** The position of a marker. *)
Definition viewPosition (h : Heap) (l : loc) : option Vector3 :=
  match viewObj h l with
  | Some (VMesh _ _ p _ _ _ _) => Some p
  | _ => None
  end.

Definition viewGeometry (v : ObjView) : option loc :=
  match v with
  | VMesh g _ _ _ _ _ _ => Some g
  | VLine _ _ => None
  end.

Definition viewMaterial (v : ObjView) : loc :=
  match v with
  | VMesh _ m _ _ _ _ _ => m
  | VLine _ m => m
  end.

(** The centre of a sphere marker is as high as its radius (its scale): the
    sphere touches the plane of height 0 from above. *)
Definition centreAtRadius (v : ObjView) : Prop :=
  match v with
  | VMesh _ _ p scl _ _ _ => vz p = vx scl
  | VLine _ _ => True
  end.

(** The centre of a cylinder marker is at half its height (the second
    component of its scale): the cylinder stands on the plane of height 0. *)
Definition centreAtHalfHeight (v : ObjView) : Prop :=
  match v with
  | VMesh _ _ p scl _ _ _ => vz p = (vy scl / 2)%R
  | VLine _ _ => True
  end.

(** The states of a service: the constructed one, and the state after any
    call of [rebuildScene], whatever its arguments and whether it returns or
    throws.  (Nothing else assigns the fields of the service.) *)
Inductive reachable : State -> Prop :=
| reachable_new (distance : DistanceService) :
    reachable (new_MissionScene distance)
| reachable_rebuild (st : State) (mission : option MissionConfig)
    (obstacles : option Obstacles) (telemetry : option (jsArray UasTelemetry)) :
    reachable st ->
    reachable (snd (rebuildScene mission obstacles telemetry st)).

(** The scene announced by the last broadcast of a log. *)
Definition lastAnnounced (log : list Broadcast) : option loc :=
  match last log with
  | Some b => scene_seen b
  | None => None
  end.

(** Complete arguments with a mission that has neither search grid points
    nor waypoints. *)
Definition bareInputs : CompleteInputs :=
  {| ci_home_pos := mkGps 38 (-76);
     ci_air_drop_pos := mkGps 38 (-77);
     ci_emergent_last_known_pos := mkGps 39 (-76);
     ci_ir_primary_target_pos := mkGps 37 (-76);
     ci_ir_secondary_target_pos := mkGps 38 (-75);
     ci_off_axis_target_pos := mkGps 39 (-77);
     ci_sric_pos := mkGps 37 (-75);
     ci_search_grid_points := [];
     ci_mission_waypoints := [];
     ci_mission_waypoints_dist_max := 50;
     ci_stationary_obstacles := [];
     ci_moving_obstacles := [];
     ci_telemetry := [] |}.

(** Complete arguments with one search grid point and one waypoint. *)
Definition singleInputs : CompleteInputs :=
  {| ci_home_pos := mkGps 38 (-76);
     ci_air_drop_pos := mkGps 38 (-77);
     ci_emergent_last_known_pos := mkGps 39 (-76);
     ci_ir_primary_target_pos := mkGps 37 (-76);
     ci_ir_secondary_target_pos := mkGps 38 (-75);
     ci_off_axis_target_pos := mkGps 39 (-77);
     ci_sric_pos := mkGps 37 (-75);
     ci_search_grid_points := [mkGps 39 (-77)];
     ci_mission_waypoints := [mkWaypoint 38 (-77) 100];
     ci_mission_waypoints_dist_max := 50;
     ci_stationary_obstacles := [];
     ci_moving_obstacles := [];
     ci_telemetry := [] |}.

(** The fresh service after one [new THREE.Scene()]; the empty scene is at
    location 17. *)
Definition freshWithScene : State := snd (new_Scene freshService).
(** ** Reasoning about methods *)

(** *** [Math.sign] *)

Local Open Scope R_scope.

Lemma Math_sign_pos r : 0 < r -> Math_sign r = 1.
Proof.
  intros H. unfold Math_sign.
  destruct (total_order_T r 0) as [[Hlt | Heq] | Hgt]; [lra | lra | reflexivity].
Qed.

Lemma Math_sign_neg r : r < 0 -> Math_sign r = -1.
Proof.
  intros H. unfold Math_sign.
  destruct (total_order_T r 0) as [[Hlt | Heq] | Hgt]; [reflexivity | lra | lra].
Qed.

Lemma Math_sign_zero : Math_sign 0 = 0.
Proof.
  unfold Math_sign.
  destruct (total_order_T 0 0) as [[Hlt | Heq] | Hgt]; [lra | reflexivity | lra].
Qed.

Lemma Math_sign_cases r :
  (r < 0 /\ Math_sign r = -1) \/ (r = 0 /\ Math_sign r = 0) \/ (0 < r /\ Math_sign r = 1).
Proof.
  destruct (Rtotal_order r 0) as [H | [H | H]].
  - left. split; [exact H | apply Math_sign_neg; exact H].
  - right. left. subst r. split; [reflexivity | apply Math_sign_zero].
  - right. right. split; [exact H | apply Math_sign_pos; exact H].
Qed.

Lemma Math_sign_mult a b : Math_sign (a * b) = Math_sign a * Math_sign b.
Proof.
  destruct (Math_sign_cases a) as [[Ha Ea] | [[Ha Ea] | [Ha Ea]]];
  destruct (Math_sign_cases b) as [[Hb Eb] | [[Hb Eb] | [Hb Eb]]];
  rewrite Ea, Eb.
  - rewrite Math_sign_pos; [lra | nra].
  - subst b. rewrite Rmult_0_r, Math_sign_zero. lra.
  - rewrite Math_sign_neg; [lra | nra].
  - subst a. rewrite Rmult_0_l, Math_sign_zero. lra.
  - subst a. rewrite Rmult_0_l, Math_sign_zero. lra.
  - subst a. rewrite Rmult_0_l, Math_sign_zero. lra.
  - rewrite Math_sign_neg; [lra | nra].
  - subst b. rewrite Rmult_0_r, Math_sign_zero. lra.
  - rewrite Math_sign_pos; [lra | nra].
Qed.

Lemma Math_sign_idem r : Math_sign (Math_sign r) = Math_sign r.
Proof.
  destruct (Math_sign_cases r) as [[_ E] | [[_ E] | [_ E]]]; rewrite E.
  - apply Math_sign_neg. lra.
  - apply Math_sign_zero.
  - apply Math_sign_pos. lra.
Qed.

Local Close Scope R_scope.

(** *** Single steps *)

Lemma setHeap_setHeap st h h' : setHeap (setHeap st h) h' = setHeap st h'.
Proof. reflexivity. Qed.

Lemma setParents_setHeap st h ps : setParents (setHeap st h) ps = setHeap (setParents st ps) h.
Proof. reflexivity. Qed.

Lemma setParents_setParents st ps ps' : setParents (setParents st ps) ps' = setParents st ps'.
Proof. reflexivity. Qed.

Lemma bind_run {A B} (m : M A) (f : A -> M B) st :
  bind m f st =
  match m st with
  | (Ok a, st') => f a st'
  | (Throw e, st') => (Throw e, st')
  end.
Proof. reflexivity. Qed.

Lemma updateVector3_run l f st :
  updateVector3 l f st =
  match heap st !! l with
  | Some (OVector3 v) => (Ok tt, setHeap st (<[l := OVector3 (f v)]> (heap st)))
  | _ => (Throw TypeError, st)
  end.
Proof.
  unfold updateVector3, readVector3, readCell, bind.
  destruct (heap st !! l) as [[]|]; reflexivity.
Qed.

Lemma updateMesh_run l f st :
  updateMesh l f st =
  match heap st !! l with
  | Some (OMesh m) => (Ok tt, setHeap st (<[l := OMesh (f m)]> (heap st)))
  | _ => (Throw TypeError, st)
  end.
Proof.
  unfold updateMesh, readMesh, readCell, bind.
  destruct (heap st !! l) as [[]|]; reflexivity.
Qed.

(** Adding an object that has no parent: nothing is detached. *)
Lemma Scene_add_fresh_run s obj st :
  parents st !! obj = None ->
  Scene_add s obj st =
  match heap st !! s with
  | Some (OScene ch) =>
      (Ok tt, setHeap (setParents st (<[obj := s]> (parents st)))
                (<[s := OScene (ch ++ [obj])]> (heap st)))
  | _ => (Throw TypeError, st)
  end.
Proof.
  intros Hnone. unfold Scene_add, readCell, getParent, setParent, pushChild, readCell, bind.
  destruct (heap st !! s) as [[]|] eqn:Hs; try reflexivity.
  rewrite Hnone. unfold ret. cbn [heap setParents]. rewrite Hs. reflexivity.
Qed.

Lemma vertices_push_run g a b st :
  vertices_push g a b st =
  match heap st !! g with
  | Some (OGeometry vs) => (Ok tt, setHeap st (<[g := OGeometry (vs ++ [a; b])]> (heap st)))
  | _ => (Throw TypeError, st)
  end.
Proof.
  unfold vertices_push, readCell, bind.
  destruct (heap st !! g) as [[]|]; reflexivity.
Qed.

(** What [setObjectPosition_] does, in one step. *)
Lemma setObjectPosition_run {A B} `{HasLatLon A} `{HasLatLon B}
    (pos : option A) alt (refPos : option B) objPos st :
  setObjectPosition_ pos alt refPos objPos st =
  match refPos, pos with
  | Some r, Some p =>
      match heap st !! objPos with
      | Some (OVector3 _) =>
          (Ok tt, setHeap st (<[objPos := OVector3 (localCoords (distance_ (this st)) p alt r)]>
                                (heap st)))
      | _ => (Throw TypeError, st)
      end
  | _, _ => (Throw TypeError, st)
  end.
Proof.
  destruct refPos as [r|], pos as [p|]; try reflexivity.
  unfold setObjectPosition_, this_, prop, deref, ret.
  rewrite !bind_run. cbn [fst snd].
  rewrite updateVector3_run.
  destruct (heap st !! objPos) as [c|] eqn:Hl; [|reflexivity].
  assert (Hlt : objPos < length (heap st)) by (eapply lookup_lt_Some; eassumption).
  destruct c; try reflexivity.
  rewrite bind_run, updateVector3_run. cbn [heap setHeap].
  rewrite list_lookup_insert_eq by exact Hlt.
  rewrite updateVector3_run. cbn [heap setHeap].
  rewrite list_lookup_insert_eq by (rewrite length_insert; exact Hlt).
  rewrite setHeap_setHeap, !list_insert_insert_eq.
  reflexivity.
Qed.

(** ** The coordinate conversion (C1) *)

(** C1, as stated, fails on doubles: with the reference at latitude 0 and
    longitude 0 and a position at latitude 0 and longitude [2^-600], the
    longitude difference is positive, but the square of the sine of half the
    difference underflows to 0, so the distance along the parallel is 0,
    [x] is 0 and its sign is not that of the difference. *)
Lemma setObjectPosition_sign_underflow :
  exists x y z,
    setObjectPosition_double (haversine_double earthRadiusFt_double)
      (mkGpsDouble 0 0x1p-600) 30 (mkGpsDouble 0 0) = Some (x, y, z) /\
    Math_sign_double (0x1p-600 - 0) = 1%float /\
    Math_sign_double x = 0%float /\
    Math_sign_double x <> Math_sign_double (0x1p-600 - 0).
Proof.
  exists 0%float, 0%float, 30%float.
  split; [vm_compute; reflexivity |].
  split; [vm_compute; reflexivity |].
  split; [vm_compute; reflexivity |].
  intros Heq. apply (f_equal (fun f => PrimFloat.eqb f 0)) in Heq.
  vm_compute in Heq. discriminate Heq.
Qed.

(** Half a turn along the equator: the great-circle distance between the
    longitudes 0 and 180 at latitude 0 is [PI] times the radius. *)
Lemma greatCircle_half_turn radius : greatCircle radius 0 180 0 0 = (radius * PI)%R.
Proof.
  unfold greatCircle, degToRad.
  replace ((0 - 0) * PI / 180 / 2)%R with 0%R by lra.
  replace ((0 - 180) * PI / 180 / 2)%R with (- (PI / 2))%R by lra.
  replace (0 * PI / 180)%R with 0%R by lra.
  rewrite sin_0, sin_neg, sin_PI2, cos_0.
  replace (Rsqr 0 + 1 * 1 * Rsqr (- (1)))%R with 1%R by (unfold Rsqr; lra).
  rewrite sqrt_1, asin_1. lra.
Qed.

(** C1, amended.  For every position [pos], reference position [refPos],
    altitude [alt] and Distance service, [setObjectPosition_] stores in the
    vector [objPos]: [x], the distance along the parallel of the reference
    (latitude held fixed) multiplied by the sign of the longitude
    difference; [y], the distance along the meridian of the reference
    (longitude held fixed) multiplied by the sign of the latitude
    difference; [z], the altitude unchanged.  When the position has the
    coordinates of the reference, [x] and [y] are 0.  The sign of [x] (of
    [y]) is the sign of the coordinate difference multiplied by the sign of
    the distance: it is the sign of the difference whenever that distance is
    positive. *)
Theorem setObjectPosition_spec (pos refPos : GpsPosition) (alt : R) (objPos : loc)
    (st : State) (v0 : Vector3) :
  heap st !! objPos = Some (OVector3 v0) ->
  let distX := haversine (distance_ (this st)) (latitude refPos) (longitude pos)
                 (latitude refPos) (longitude refPos) in
  let distY := haversine (distance_ (this st)) (latitude pos) (longitude refPos)
                 (latitude refPos) (longitude refPos) in
  exists v,
    setObjectPosition_ (Some pos) alt (Some refPos) objPos st
      = (Ok tt, setHeap st (<[objPos := OVector3 v]> (heap st))) /\
    vx v = (Math_sign (longitude pos - longitude refPos) * distX)%R /\
    vy v = (Math_sign (latitude pos - latitude refPos) * distY)%R /\
    vz v = alt /\
    (longitude pos = longitude refPos -> vx v = 0%R) /\
    (latitude pos = latitude refPos -> vy v = 0%R) /\
    Math_sign (vx v) = (Math_sign (longitude pos - longitude refPos) * Math_sign distX)%R /\
    Math_sign (vy v) = (Math_sign (latitude pos - latitude refPos) * Math_sign distY)%R /\
    ((0 < distX)%R -> Math_sign (vx v) = Math_sign (longitude pos - longitude refPos)) /\
    ((0 < distY)%R -> Math_sign (vy v) = Math_sign (latitude pos - latitude refPos)).
Proof.
  intros Hcell distX distY.
  exists (localCoords (distance_ (this st)) pos alt refPos).
  rewrite setObjectPosition_run, Hcell.
  unfold localCoords. cbn [vx vy vz].
  fold distX. fold distY.
  repeat split.
  - intros ->. rewrite Rminus_diag, Math_sign_zero. lra.
  - intros ->. rewrite Rminus_diag, Math_sign_zero. lra.
  - rewrite Math_sign_mult, Math_sign_idem. reflexivity.
  - rewrite Math_sign_mult, Math_sign_idem. reflexivity.
  - intros Hpos. rewrite Math_sign_mult, Math_sign_idem, (Math_sign_pos distX Hpos). lra.
  - intros Hpos. rewrite Math_sign_mult, Math_sign_idem, (Math_sign_pos distY Hpos). lra.
Qed.

(** A position half a turn east of the reference, on the equator: [x] is
    positive, [y] is 0 and [z] is the altitude. *)
Lemma setObjectPosition_spec_witness :
  heap freshWithVector !! 17 = Some (OVector3 zeroVector) /\
  exists v,
    setObjectPosition_ (Some (mkGps 0 180)) 30 (Some (mkGps 0 0)) 17 freshWithVector
      = (Ok tt, setHeap freshWithVector (<[17 := OVector3 v]> (heap freshWithVector))) /\
    Math_sign (vx v) = Math_sign (180 - 0) /\ vy v = 0%R /\ vz v = 30%R.
Proof.
  split; [reflexivity |].
  destruct (setObjectPosition_spec (mkGps 0 180) (mkGps 0 0) 30 17 freshWithVector zeroVector
              eq_refl) as (v & Hrun & _ & _ & Hz & _ & Hy0 & _ & _ & Hx & _).
  exists v. split; [exact Hrun |].
  split; [| split; [apply Hy0; reflexivity | exact Hz]].
  apply Hx.
  change (0 < greatCircle earthRadiusFt 0 180 0 0)%R.
  rewrite greatCircle_half_turn. unfold earthRadiusFt.
  apply Rmult_lt_0_compat; [lra | apply PI_RGT_0].
Defined.

(** *** Fresh cells *)

Lemma lookup_new0 {A} (h r : list A) a : (h ++ a :: r) !! length h = Some a.
Proof. apply list_lookup_middle. reflexivity. Qed.

Lemma lookup_new1 {A} (h r : list A) a b : (h ++ a :: b :: r) !! S (length h) = Some b.
Proof.
  rewrite lookup_app_r by lia.
  replace (S (length h) - length h) with 1 by lia. reflexivity.
Qed.

Lemma insert_new0 {A} (h r : list A) a c : <[length h := c]> (h ++ a :: r) = h ++ c :: r.
Proof.
  rewrite insert_app_r_alt by lia.
  replace (length h - length h) with 0 by lia. reflexivity.
Qed.

Lemma insert_new1 {A} (h r : list A) a b c :
  <[S (length h) := c]> (h ++ a :: b :: r) = h ++ a :: c :: r.
Proof.
  rewrite insert_app_r_alt by lia.
  replace (S (length h) - length h) with 1 by lia. reflexivity.
Qed.

Lemma new_Mesh_run g m st :
  new_Mesh g m st =
  (Ok (S (length (heap st))),
   setHeap
     (setParents st (delete (S (length (heap st))) (delete (length (heap st)) (parents st))))
     (heap st ++
        [ OVector3 zeroVector;
          OMesh (mkMesh g m (length (heap st)) (mkVector3 1 1 1) zeroVector false false) ])).
Proof.
  unfold new_Mesh, new_Vector3, alloc, bind, setHeap, setParents.
  cbn [heap this broadcasts parents].
  rewrite length_app, <- app_assoc. cbn [length app].
  replace (length (heap st) + 1) with (S (length (heap st))) by lia.
  reflexivity.
Qed.

(** What [createObject_] does, in one step: the position vector and the mesh
    are allocated next to each other; with an absent position or reference
    the method throws after the allocation; otherwise the mesh is completed
    and added to the scene. *)
Lemma createObject_run {A B} `{HasLatLon A} `{HasLatLon B}
    g m (pos : option A) alt (refPos : option B) scl scn st :
  createObject_ g m pos alt refPos scl scn st =
  let n := length (heap st) in
  let st0 := setParents st (delete (S n) (delete n (parents st))) in
  match refPos, pos with
  | Some r, Some p =>
      let h1 := heap st ++
                  [ OVector3 (localCoords (distance_ (this st)) p alt r);
                    OMesh (mkMesh g m n (mkVector3 scl scl scl) zeroVector true true) ] in
      match h1 !! scn with
      | Some (OScene ch) =>
          (Ok (S n),
           setHeap (setParents st (<[S n := scn]> (delete (S n) (delete n (parents st)))))
             (<[scn := OScene (ch ++ [S n])]> h1))
      | _ => (Throw TypeError, setHeap st0 h1)
      end
  | _, _ =>
      (Throw TypeError,
       setHeap st0 (heap st ++
         [ OVector3 zeroVector;
           OMesh (mkMesh g m n (mkVector3 1 1 1) zeroVector false false) ]))
  end.
Proof.
  unfold createObject_.
  rewrite bind_run, new_Mesh_run.
  unfold Mesh_position, readMesh, readCell.
  rewrite !bind_run. cbn [heap setHeap setParents].
  rewrite lookup_new1. unfold ret at 1 2. cbn [position].
  rewrite bind_run, setObjectPosition_run. cbn [heap setHeap setParents this].
  destruct refPos as [r|], pos as [p|]; try reflexivity.
  rewrite lookup_new0, setHeap_setHeap, insert_new0.
  unfold Mesh_scale_set.
  rewrite bind_run, updateMesh_run. cbn [heap setHeap setParents].
  rewrite lookup_new1, setHeap_setHeap, insert_new1.
  rewrite bind_run, updateMesh_run. cbn [heap setHeap setParents].
  rewrite lookup_new1, setHeap_setHeap, insert_new1.
  rewrite bind_run, updateMesh_run. cbn [heap setHeap setParents].
  rewrite lookup_new1, setHeap_setHeap, insert_new1.
  rewrite bind_run, Scene_add_fresh_run
    by (cbn [parents setHeap setParents]; apply lookup_delete_eq).
  cbn [heap parents setHeap setParents].
  cbn [setScale setCastShadow setReceiveShadow geometry material position scale rotation
       castShadow receiveShadow].
  destruct (_ !! scn) as [[]|]; reflexivity.
Qed.

(** *** Rules for [wp] *)

Lemma wp_ret {A} (a : A) Q E st : Q a st -> wp (ret a) Q E st.
Proof. intros HQ. exact HQ. Qed.

Lemma wp_bind {A B} (m : M A) (f : A -> M B) Q E st :
  wp m (fun a => wp (f a) Q E) E st -> wp (bind m f) Q E st.
Proof.
  unfold wp, bind. destruct (m st) as [[a | e] st']; intros Hm; exact Hm.
Qed.

Lemma wp_mono {A} (m : M A) (Q Q' : A -> State -> Prop) (E E' : State -> Prop) st :
  (forall a st', Q a st' -> Q' a st') ->
  (forall st', E st' -> E' st') ->
  wp m Q E st -> wp m Q' E' st.
Proof.
  unfold wp. intros HQ HE. destruct (m st) as [[a | e] st']; [apply HQ | apply HE].
Qed.

Lemma wp_this_ {A} (f : MissionScene -> A) Q E st : Q (f (this st)) st -> wp (this_ f) Q E st.
Proof. intros HQ. exact HQ. Qed.

Lemma wp_prop {A B} (o : option A) (f : A -> B) Q E st :
  match o with
  | Some a => Q (f a) st
  | None => E st
  end ->
  wp (prop o f) Q E st.
Proof. destruct o; intros HQ; exact HQ. Qed.

Lemma wp_alloc c Q E st :
  Q (length (heap st))
    (setHeap (setParents st (delete (length (heap st)) (parents st))) (heap st ++ [c])) ->
  wp (alloc c) Q E st.
Proof. intros HQ. exact HQ. Qed.

Lemma wp_forFrom (I : nat -> State -> Prop) E body n : forall i st,
  I i st ->
  (forall k st', i <= k < i + n -> I k st' -> wp (body k) (fun _ st'' => I (S k) st'') E st') ->
  wp (forFrom i n body) (fun _ st' => I (i + n) st') E st.
Proof.
  induction n as [| n IH]; intros i st Hi Hbody.
  - cbn [forFrom]. apply wp_ret. replace (i + 0) with i by lia. exact Hi.
  - cbn [forFrom]. apply wp_bind.
    eapply wp_mono; [| | apply (Hbody i st); [lia | exact Hi]].
    + intros u st' HS. cbn beta.
      replace (i + S n) with (S i + n) by lia.
      apply IH; [exact HS |].
      intros k st'' Hk. apply Hbody. lia.
    + intros st' HE. exact HE.
Qed.

(** *** The frame *)

Lemma frame_refl b st : frame b st st.
Proof. unfold frame. repeat split; eauto. Qed.

Lemma frame_trans b st1 st2 st3 : frame b st1 st2 -> frame b st2 st3 -> frame b st1 st3.
Proof.
  intros (Ht1 & Hb1 & Hl1 & Hp1 & Hr1 & Hk1 & Hpar1) (Ht2 & Hb2 & Hl2 & Hp2 & Hr2 & Hk2 & Hpar2).
  unfold frame. split; [| split; [| split; [| split; [| split; [| split]]]]].
  - congruence.
  - congruence.
  - lia.
  - intros l Hl. rewrite Hp2, Hp1 by exact Hl. reflexivity.
  - intros l c Hc Hres. apply Hr1; [| exact Hres]. apply Hr2; assumption.
  - intros l c Hc. destruct (Hk1 l c Hc) as (c1 & Hc1 & Hkind1).
    destruct (Hk2 l c1 Hc1) as (c2 & Hc2 & Hkind2).
    exists c2. split; [exact Hc2 | congruence].
  - intros l Hl. rewrite Hpar2, Hpar1 by exact Hl. reflexivity.
Qed.

(** Parent links at or above [b] are outside the frame. *)
Lemma frame_setParents b st ps :
  (forall l, l < b -> ps !! l = parents st !! l) -> frame b st (setParents st ps).
Proof.
  intros Hps. unfold frame. cbn [this heap broadcasts parents setParents].
  split; [| split; [| split; [| split; [| split; [| split]]]]]; try reflexivity.
  - intros l c Hc _. exact Hc.
  - intros l c Hc. exists c. split; [exact Hc | reflexivity].
  - exact Hps.
Qed.

Lemma frame_append b st cs :
  b <= length (heap st) ->
  Forall (fun c => isResource c = false) cs ->
  frame b st (setHeap st (heap st ++ cs)).
Proof.
  intros Hb Hcs. unfold frame. cbn [this heap broadcasts parents setHeap].
  split; [| split; [| split; [| split; [| split; [| split]]]]]; try reflexivity.
  - rewrite length_app. lia.
  - intros l Hl. apply lookup_app_l. lia.
  - intros l c Hc Hres. destruct (decide (l < length (heap st))) as [Hlt | Hge].
    + rewrite lookup_app_l in Hc by exact Hlt. exact Hc.
    + rewrite lookup_app_r in Hc by lia.
      apply list_elem_of_lookup_2 in Hc.
      rewrite Forall_forall in Hcs. apply Hcs in Hc. congruence.
  - intros l c Hc. exists c. split; [| reflexivity].
    apply lookup_app_l_Some. exact Hc.
Qed.

Lemma frame_insert b st l c c0 :
  b <= l -> isResource c = false ->
  heap st !! l = Some c0 -> kindOf c = kindOf c0 ->
  frame b st (setHeap st (<[l := c]> (heap st))).
Proof.
  intros Hbl Hc Hc0 Hkind. unfold frame. cbn [this heap broadcasts parents setHeap].
  split; [| split; [| split; [| split; [| split; [| split]]]]]; try reflexivity.
  - rewrite length_insert. lia.
  - intros l' Hl'. apply list_lookup_insert_ne. lia.
  - intros l' c' Hc' Hres. apply list_lookup_insert_Some in Hc'.
    destruct Hc' as [(-> & -> & _) | (_ & Hc')]; [congruence | exact Hc'].
  - intros l' c' Hc'. destruct (decide (l = l')) as [<- | Hne].
    + exists c. split; [| congruence].
      apply list_lookup_insert_eq. eapply lookup_lt_Some. exact Hc0.
    + exists c'. split; [| reflexivity].
      rewrite list_lookup_insert_ne by exact Hne. exact Hc'.
Qed.

Lemma frame_append_insert b st cs l c c0 :
  b <= length (heap st) ->
  Forall (fun c => isResource c = false) cs ->
  b <= l -> isResource c = false ->
  (heap st ++ cs) !! l = Some c0 -> kindOf c = kindOf c0 ->
  frame b st (setHeap st (<[l := c]> (heap st ++ cs))).
Proof.
  intros Hb Hcs Hbl Hc Hc0 Hkind.
  eapply frame_trans; [apply (frame_append b st cs Hb Hcs) |].
  rewrite <- (setHeap_setHeap st (heap st ++ cs)).
  apply (frame_insert b (setHeap st (heap st ++ cs)) l c c0); assumption.
Qed.

Lemma frame_length b st st' : frame b st st' -> b <= length (heap st) -> b <= length (heap st').
Proof. intros (_ & _ & Hl & _) Hb. lia. Qed.

Lemma framed_ret {A} b (Qv : A -> Prop) a : Qv a -> framed b Qv (ret a).
Proof. intros HQ st _. apply wp_ret. split; [apply frame_refl | exact HQ]. Qed.

Lemma framed_bind {A B} b (Q1 : A -> Prop) (Q2 : B -> Prop) (m : M A) (f : A -> M B) :
  framed b Q1 m -> (forall a, Q1 a -> framed b Q2 (f a)) -> framed b Q2 (bind m f).
Proof.
  intros Hm Hf st Hb. apply wp_bind.
  eapply wp_mono; [| | apply (Hm st Hb)].
  - intros a st' [Hfr HQ1]. cbn beta.
    eapply wp_mono; [| | apply (Hf a HQ1 st' (frame_length _ _ _ Hfr Hb))].
    + intros c st'' [Hfr' HQ2]. split; [eapply frame_trans; eassumption | exact HQ2].
    + intros st'' Hfr'. eapply frame_trans; eassumption.
  - intros st' Hfr. exact Hfr.
Qed.

Lemma framed_this_ {A} b (f : MissionScene -> A) : framed b (fun _ => True) (this_ f).
Proof. intros st _. apply wp_this_. split; [apply frame_refl | exact I]. Qed.

Lemma framed_prop {A B} b (o : option A) (f : A -> B) : framed b (fun _ => True) (prop o f).
Proof.
  intros st _. apply wp_prop. destruct o; [split; [apply frame_refl | exact I] | apply frame_refl].
Qed.

Lemma framed_alloc b c : isResource c = false -> framed b (fun l => b <= l) (alloc c).
Proof.
  intros Hc st Hb. apply wp_alloc. split; [| exact Hb].
  eapply frame_trans.
  - apply (frame_setParents b st (delete (length (heap st)) (parents st))).
    intros l Hl. apply lookup_delete_ne. lia.
  - apply (frame_append b (setParents st _) [c]); [exact Hb |].
    constructor; [exact Hc | constructor].
Qed.

Lemma framed_updateMesh b l f : b <= l -> framed b (fun _ => True) (updateMesh l f).
Proof.
  intros Hbl st _. unfold wp. rewrite updateMesh_run.
  destruct (heap st !! l) as [[]|] eqn:Hcell; try apply frame_refl.
  split; [eapply frame_insert; [exact Hbl | reflexivity | exact Hcell | reflexivity] | exact I].
Qed.

(** A new line is added to the scene: the line has no parent, nothing is
    detached. *)
Lemma new_Line_add_run {X} g m scn (k : M X) st :
  (line <- new_Line g m ;; Scene_add scn line ;;; k) st =
  let n := length (heap st) in
  match (heap st ++ [OLine g m]) !! scn with
  | Some (OScene ch) =>
      k (setHeap (setParents st (<[n := scn]> (delete n (parents st))))
           (<[scn := OScene (ch ++ [n])]> (heap st ++ [OLine g m])))
  | _ =>
      (Throw TypeError,
       setHeap (setParents st (delete n (parents st))) (heap st ++ [OLine g m]))
  end.
Proof.
  unfold new_Line, alloc. rewrite bind_run. cbn beta iota zeta.
  rewrite bind_run, Scene_add_fresh_run
    by (cbn [parents setHeap setParents]; apply lookup_delete_eq).
  cbn [heap parents setHeap setParents].
  destruct (_ !! scn) as [[]|]; reflexivity.
Qed.

Lemma framed_new_Line_add {X} b g m scn (k : M X) (Qv : X -> Prop) :
  b <= scn -> framed b Qv k ->
  framed b Qv (line <- new_Line g m ;; Scene_add scn line ;;; k).
Proof.
  intros Hbl Hk st Hb. unfold wp. rewrite new_Line_add_run. cbn zeta.
  assert (Hnew : Forall (fun c => isResource c = false) [OLine g m]) by (repeat constructor).
  destruct (_ !! scn) as [c |] eqn:Hcell.
  - destruct c as [r | p | me | vl | g' m' | ch];
      try (eapply frame_trans;
           [apply (frame_setParents b st (delete (length (heap st)) (parents st)));
            intros l Hl; apply lookup_delete_ne; lia
           | apply (frame_append b (setParents st _) [OLine g m]); [exact Hb | exact Hnew]]).
    set (st2 := setHeap _ _).
    assert (Hfr : frame b st st2).
    { eapply frame_trans.
      - apply (frame_setParents b st (<[length (heap st) := scn]>
                                        (delete (length (heap st)) (parents st)))).
        intros l Hl. rewrite lookup_insert_ne, lookup_delete_ne by lia. reflexivity.
      - apply (frame_append_insert b (setParents st _) [OLine g m] scn _ (OScene ch));
          [exact Hb | exact Hnew | exact Hbl | reflexivity | exact Hcell | reflexivity]. }
    specialize (Hk st2 (frame_length _ _ _ Hfr Hb)). unfold wp in Hk.
    destruct (k st2) as [[x | e] st3].
    + destruct Hk as [Hfr' HQ]. split; [eapply frame_trans; eassumption | exact HQ].
    + eapply frame_trans; eassumption.
  - eapply frame_trans;
      [apply (frame_setParents b st (delete (length (heap st)) (parents st)));
       intros l Hl; apply lookup_delete_ne; lia
      | apply (frame_append b (setParents st _) [OLine g m]); [exact Hb | exact Hnew]].
Qed.

Lemma bind_ret_tt (m : M unit) st : (m ;;; ret tt) st = m st.
Proof. unfold bind, ret. destruct (m st) as [[[] | e] st']; reflexivity. Qed.

Lemma framed_new_Line_add_last b g m scn :
  b <= scn -> framed b (fun _ => True) (line <- new_Line g m ;; Scene_add scn line).
Proof.
  intros Hbl st Hb.
  pose proof (framed_new_Line_add b g m scn (ret tt) (fun _ => True) Hbl
                (framed_ret b _ tt I) st Hb) as Hwp.
  unfold wp in *. unfold new_Line, alloc in *. rewrite bind_run in *.
  cbn beta iota zeta in *. rewrite bind_ret_tt in Hwp. exact Hwp.
Qed.

Lemma framed_vertices_push b g v1 v2 :
  b <= g -> framed b (fun _ => True) (vertices_push g v1 v2).
Proof.
  intros Hbl st _. unfold wp. rewrite vertices_push_run.
  destruct (heap st !! g) as [[]|] eqn:Hcell; try apply frame_refl.
  split; [eapply frame_insert; [exact Hbl | reflexivity | exact Hcell | reflexivity] | exact I].
Qed.

Lemma framed_setObjectPosition_ {A B} `{HasLatLon A} `{HasLatLon B}
    b (pos : option A) alt (refPos : option B) objPos :
  b <= objPos -> framed b (fun _ => True) (setObjectPosition_ pos alt refPos objPos).
Proof.
  intros Hbl st _. unfold wp. rewrite setObjectPosition_run.
  destruct refPos, pos; try apply frame_refl.
  destruct (heap st !! objPos) as [[]|] eqn:Hcell; try apply frame_refl.
  split; [eapply frame_insert; [exact Hbl | reflexivity | exact Hcell | reflexivity] | exact I].
Qed.

Lemma framed_createObject_ {A B} `{HasLatLon A} `{HasLatLon B}
    b g m (pos : option A) alt (refPos : option B) scl scn :
  b <= scn -> framed b (fun obj => b <= obj) (createObject_ g m pos alt refPos scl scn).
Proof.
  intros Hbl st Hb. unfold wp. rewrite createObject_run. cbn zeta.
  assert (Hnew : forall v m', Forall (fun c => isResource c = false) [OVector3 v; OMesh m']).
  { intros v m'. repeat constructor. }
  assert (Hps : frame b st
            (setParents st (delete (S (length (heap st)))
                              (delete (length (heap st)) (parents st))))).
  { apply frame_setParents. intros l Hl. rewrite !lookup_delete_ne by lia. reflexivity. }
  assert (Hthrow : forall v m',
            frame b st
              (setHeap (setParents st (delete (S (length (heap st)))
                                         (delete (length (heap st)) (parents st))))
                 (heap st ++ [OVector3 v; OMesh m']))).
  { intros v m'. eapply frame_trans; [exact Hps |].
    apply (frame_append b (setParents st _)); [exact Hb | apply Hnew]. }
  destruct refPos, pos; try apply Hthrow.
  destruct (_ !! scn) as [[]|] eqn:Hcell; try apply Hthrow.
  split; [| lia].
  eapply frame_trans.
  - apply (frame_setParents b st
             (<[S (length (heap st)) := scn]>
                (delete (S (length (heap st))) (delete (length (heap st)) (parents st))))).
    intros l Hl. rewrite lookup_insert_ne, !lookup_delete_ne by lia. reflexivity.
  - eapply (frame_append_insert b (setParents st _));
      [exact Hb | apply Hnew | exact Hbl | reflexivity | exact Hcell | reflexivity].
Qed.

Lemma framed_forFrom b body n : forall i,
  (forall k, framed b (fun _ => True) (body k)) ->
  framed b (fun _ => True) (forFrom i n body).
Proof.
  induction n as [| n IH]; intros i Hbody.
  - cbn [forFrom]. apply framed_ret. exact I.
  - cbn [forFrom]. eapply framed_bind; [apply Hbody |].
    intros _ _. apply IH. exact Hbody.
Qed.

(** One step of a frame proof, chosen by the shape of the method. *)
Ltac framed_step :=
  lazymatch goal with
  | |- framed _ _ (bind (new_Line _ _) _) =>
      first [eapply framed_new_Line_add; [lia |] | apply framed_new_Line_add_last; lia]
  | |- framed _ _ (bind _ _) => eapply framed_bind; [| intros ? ?; cbn beta in *]
  | |- framed _ _ (ret _) => apply framed_ret; exact I
  | |- framed _ _ (this_ _) => apply framed_this_
  | |- framed _ _ (prop _ _) => apply framed_prop
  | |- framed _ _ (for_ _ _) => unfold for_; apply framed_forFrom; intros ?
  | |- framed _ _ new_Vector3 => apply framed_alloc; reflexivity
  | |- framed _ _ new_Geometry => apply framed_alloc; reflexivity
  | |- framed _ _ new_Scene => apply framed_alloc; reflexivity
  | |- framed _ _ (vertices_push _ _ _) => apply framed_vertices_push; lia
  | |- framed _ _ (Mesh_scale_set _ _ _ _) => apply framed_updateMesh; lia
  | |- framed _ _ (Mesh_rotation_set _ _ _ _) => apply framed_updateMesh; lia
  | |- framed _ _ (setObjectPosition_ _ _ _ _) => apply framed_setObjectPosition_; lia
  | |- framed _ _ (createObject_ _ _ _ _ _ _ _) => apply framed_createObject_; lia
  end.

Lemma framed_addMissionSceneElements_ b mission scn :
  b <= scn -> framed b (fun _ => True) (addMissionSceneElements_ mission scn).
Proof. intros Hb. unfold addMissionSceneElements_. repeat framed_step. Qed.

Lemma framed_addObstacleSceneElements_ b mission obstacles refPos scn :
  b <= scn ->
  framed b (fun _ => True) (addObstacleSceneElements_ mission obstacles refPos scn).
Proof. intros Hb. unfold addObstacleSceneElements_. repeat framed_step. Qed.

Lemma framed_addTelemetrySceneElements_ b mission telemetry refPos scn :
  b <= scn ->
  framed b (fun _ => True) (addTelemetrySceneElements_ mission telemetry refPos scn).
Proof. intros Hb. unfold addTelemetrySceneElements_. repeat framed_step. Qed.

Lemma rebuildScene_buildScene mission obstacles telemetry st :
  rebuildScene mission obstacles telemetry st =
  (scn <- buildScene mission obstacles telemetry ;;
   set_scene scn ;;; broadcast sceneUpdated) st.
Proof.
  unfold rebuildScene, buildScene, bind.
  repeat match goal with
  | |- context [match ?m ?s with (_, _) => _ end] =>
      lazymatch m with
      | fun _ => _ => fail
      | _ => destruct (m s) as [[? | ?] ?]; try reflexivity
      end
  end.
Qed.

(** *** Moving an object into a scene *)

Lemma removeFirst_sublist obj ch : sublist (removeFirst obj ch) ch.
Proof.
  induction ch as [| c ch IH]; cbn [removeFirst]; [constructor |].
  destruct (decide (c = obj)); [apply sublist_cons; reflexivity | apply sublist_skip; exact IH].
Qed.

Lemma removeFirst_elem obj ch x :
  elem_of x ch -> x <> obj -> elem_of x (removeFirst obj ch).
Proof.
  induction ch as [| c ch IH]; cbn [removeFirst]; intros Hin Hne; [exact Hin |].
  apply elem_of_cons in Hin.
  destruct (decide (c = obj)) as [-> | Hc].
  - destruct Hin as [-> | Hin]; [contradiction | exact Hin].
  - apply elem_of_cons.
    destruct Hin as [-> | Hin]; [left; reflexivity | right; apply IH; assumption].
Qed.

Lemma removeFirst_absent obj ch : ~ elem_of obj ch -> removeFirst obj ch = ch.
Proof.
  induction ch as [| c ch IH]; cbn [removeFirst]; intros Hnot; [reflexivity |].
  apply not_elem_of_cons in Hnot. destruct Hnot as [Hne Hnot].
  destruct (decide (c = obj)) as [-> | _]; [contradiction |].
  rewrite IH by exact Hnot. reflexivity.
Qed.

Lemma movedOut_refl objs c : movedOut objs c c.
Proof.
  destruct c as [r | p | m | vl | g mat | ch]; try reflexivity.
  exists ch. split; [reflexivity |]. split; [reflexivity |]. intros x Hx _. exact Hx.
Qed.

Lemma movedOut_trans objs1 objs2 c c1 c2 :
  movedOut objs1 c c1 -> movedOut objs2 c1 c2 -> movedOut (objs1 ++ objs2) c c2.
Proof.
  destruct c as [r | p | m | vl | g mat | ch]; cbn [movedOut];
    try (intros -> H2; exact H2).
  intros (ch1 & -> & Hsub1 & Hin1) (ch2 & -> & Hsub2 & Hin2).
  exists ch2. split; [reflexivity |]. split; [etransitivity; eassumption |].
  intros x Hx Hnot. apply Hin2.
  - apply Hin1; [exact Hx |]. intros Hin. apply Hnot. apply elem_of_app. left. exact Hin.
  - intros Hin. apply Hnot. apply elem_of_app. right. exact Hin.
Qed.

Lemma movedOut_not_scene objs c c' : movedOut objs c c' -> isScene c = false -> c' = c.
Proof. destruct c; cbn [movedOut isScene]; intros H Hns; [exact H .. | discriminate Hns]. Qed.

(** The first step of [scene.add(obj)]: [obj] leaves its previous parent. *)
Lemma detach_spec (obj : loc) (p : option loc) st :
  exists st1,
    match p with
    | Some p => Object3D_remove p obj
    | None => ret tt
    end st = (Ok tt, st1) /\
    this st1 = this st /\
    broadcasts st1 = broadcasts st /\
    length (heap st1) = length (heap st) /\
    (forall l c, heap st !! l = Some c ->
       exists c', heap st1 !! l = Some c' /\ movedOut [obj] c c') /\
    (forall s ch, heap st !! s = Some (OScene ch) -> ~ elem_of obj ch ->
       heap st1 !! s = Some (OScene ch)) /\
    (forall l, l <> obj -> parents st1 !! l = parents st !! l) /\
    (forall l ch, heap st !! l = Some (OScene ch) ->
       heap st1 !! l
         = Some (OScene (if decide (p = Some l) then removeFirst obj ch else ch))).
Proof.
  assert (Hsame : forall r,
            (forall l ch, p = Some l -> heap st !! l = Some (OScene ch) -> ~ elem_of obj ch) ->
            r = (Ok tt, st) ->
            exists st1, r = (Ok tt, st1) /\
              this st1 = this st /\ broadcasts st1 = broadcasts st /\
              length (heap st1) = length (heap st) /\
              (forall l c, heap st !! l = Some c ->
                 exists c', heap st1 !! l = Some c' /\ movedOut [obj] c c') /\
              (forall s ch, heap st !! s = Some (OScene ch) -> ~ elem_of obj ch ->
                 heap st1 !! s = Some (OScene ch)) /\
              (forall l, l <> obj -> parents st1 !! l = parents st !! l) /\
              (forall l ch, heap st !! l = Some (OScene ch) ->
                 heap st1 !! l
                   = Some (OScene (if decide (p = Some l) then removeFirst obj ch else ch)))).
  { intros r Habsent ->. exists st. repeat split; try reflexivity.
    - intros l c Hc. exists c. split; [exact Hc | apply movedOut_refl].
    - intros s ch Hs _. exact Hs.
    - intros l ch Hl. destruct (decide (p = Some l)) as [Hpl | _]; [| exact Hl].
      rewrite (removeFirst_absent _ _ (Habsent l ch Hpl Hl)). exact Hl. }
  destruct p as [p |]; [| apply Hsame; [discriminate | reflexivity]].
  unfold Object3D_remove.
  destruct (heap st !! p) as [c |] eqn:Hp;
    [| apply Hsame; [intros l ch [= <-] Hl; congruence | reflexivity]].
  destruct c as [r | v | m | vl | g mat | chp];
    try (apply Hsame; [intros l ch [= <-] Hl; congruence | reflexivity]).
  destruct (decide (elem_of obj chp)) as [Hin | Hnin];
    [| apply Hsame; [intros l ch [= <-] Hl; congruence | reflexivity]].
  assert (Hlt : p < length (heap st)) by (eapply lookup_lt_Some; exact Hp).
  eexists. split; [reflexivity |].
  cbn [this heap broadcasts parents setHeap setParents].
  split; [reflexivity |]. split; [reflexivity |]. split; [apply length_insert |].
  split; [| split; [| split]].
  - intros l c Hc. destruct (decide (l = p)) as [-> | Hne].
    + rewrite Hp in Hc. injection Hc as <-.
      exists (OScene (removeFirst obj chp)).
      split; [apply list_lookup_insert_eq; exact Hlt |].
      exists (removeFirst obj chp). split; [reflexivity |].
      split; [apply removeFirst_sublist |].
      intros x Hx Hnot. apply removeFirst_elem; [exact Hx |].
      intros ->. apply Hnot. apply list_elem_of_here.
    + exists c. rewrite list_lookup_insert_ne by congruence.
      split; [exact Hc | apply movedOut_refl].
  - intros s ch Hs Hnot.
    assert (s <> p) by (intros ->; rewrite Hp in Hs; injection Hs as ->; contradiction).
    rewrite list_lookup_insert_ne by congruence. exact Hs.
  - intros l Hl. apply lookup_delete_ne. congruence.
  - intros l ch Hl. destruct (decide (Some p = Some l)) as [[= <-] | Hne].
    + rewrite Hp in Hl. injection Hl as <-.
      apply list_lookup_insert_eq. exact Hlt.
    + rewrite list_lookup_insert_ne by congruence. exact Hl.
Qed.

(** [scene.add(obj)] for an object that is not yet among the children of the
    scene: it becomes the last child and has the scene as its parent; the
    one other object that may change is the previous parent of [obj]. *)
Lemma Scene_add_spec s obj st ch :
  heap st !! s = Some (OScene ch) ->
  ~ elem_of obj ch ->
  exists st',
    Scene_add s obj st = (Ok tt, st') /\
    this st' = this st /\
    broadcasts st' = broadcasts st /\
    length (heap st') = length (heap st) /\
    heap st' !! s = Some (OScene (ch ++ [obj])) /\
    (forall l c, l <> s -> heap st !! l = Some c ->
       exists c', heap st' !! l = Some c' /\ movedOut [obj] c c') /\
    (forall l, l <> obj -> parents st' !! l = parents st !! l) /\
    parents st' !! obj = Some s /\
    (forall l ch', l <> s -> heap st !! l = Some (OScene ch') ->
       heap st' !! l = Some (OScene (leaves (parents st) l obj ch'))).
Proof.
  intros Hs Hnot.
  destruct (detach_spec obj (parents st !! obj) st)
    as (st1 & Hrun & Ht & Hb & Hlen & Hold & Hkeep & Hpar & Hexact).
  assert (Hlt : s < length (heap st1)).
  { rewrite Hlen. eapply lookup_lt_Some. exact Hs. }
  exists (setHeap (setParents st1 (<[obj := s]> (parents st1)))
            (<[s := OScene (ch ++ [obj])]> (heap st1))).
  split.
  - unfold Scene_add. rewrite bind_run. unfold readCell at 1. rewrite Hs.
    rewrite bind_run. unfold getParent at 1.
    rewrite bind_run, Hrun.
    rewrite bind_run. unfold setParent at 1.
    unfold pushChild. rewrite bind_run. unfold readCell. cbn [heap setParents].
    rewrite (Hkeep s ch Hs Hnot). reflexivity.
  - cbn [this heap broadcasts parents setHeap setParents].
    split; [exact Ht |]. split; [exact Hb |].
    split; [rewrite length_insert; exact Hlen |].
    split; [apply list_lookup_insert_eq; exact Hlt |].
    split; [| split; [| split]].
    + intros l c Hl Hc. destruct (Hold l c Hc) as (c' & Hc' & Hmoved).
      exists c'. rewrite list_lookup_insert_ne by congruence. split; assumption.
    + intros l Hl. rewrite lookup_insert_ne by congruence. apply Hpar. exact Hl.
    + apply lookup_insert_eq.
    + intros l ch' Hl Hc. rewrite list_lookup_insert_ne by congruence.
      apply Hexact. exact Hc.
Qed.

(** *** The start of every rebuild: a fresh scene with the ground and the
    two lights *)

Lemma sceneStart_run {B} (k : loc -> M B) st :
  exists st1,
    (scn <- new_Scene ;;
     g <- this_ ground ;;
     Scene_add scn g ;;;
     sky <- this_ skyLight ;;
     Scene_add scn sky ;;;
     sun <- this_ sunLight ;;
     Scene_add scn sun ;;;
     k scn) st
    = k (length (heap st)) st1 /\
    rebuilt (length (heap st)) st st1 /\
    length (heap st1) = S (length (heap st)) /\
    heap st1 !! length (heap st) = Some (OScene (baseObjects (this st))).
Proof.
  destruct (objects_distinct (this st)) as (Hgs & Hgu & Hsu).
  destruct (Scene_add_spec (length (heap st)) (ground (this st))
              (setHeap (setParents st (delete (length (heap st)) (parents st)))
                 (heap st ++ [OScene []])) [])
    as (st1 & Hr1 & Ht1 & Hb1 & Hl1 & Hs1 & Hold1 & Hpar1 & Hpg1 & Hex1).
  { apply lookup_new0. }
  { apply not_elem_of_nil. }
  destruct (Scene_add_spec (length (heap st)) (skyLight (this st)) st1 _ Hs1)
    as (st2 & Hr2 & Ht2 & Hb2 & Hl2 & Hs2 & Hold2 & Hpar2 & Hpg2 & Hex2).
  { cbn [app]. rewrite list_elem_of_singleton. congruence. }
  destruct (Scene_add_spec (length (heap st)) (sunLight (this st)) st2 _ Hs2)
    as (st3 & Hr3 & Ht3 & Hb3 & Hl3 & Hs3 & Hold3 & Hpar3 & Hpg3 & Hex3).
  { cbn [app]. rewrite !elem_of_cons, elem_of_nil. intros [? | [? | []]]; congruence. }
  cbn [this heap broadcasts parents setHeap setParents] in *.
  rewrite length_app in Hl1. cbn [length] in Hl1.
  exists st3. split; [| split; [| split]].
  - unfold new_Scene, alloc. rewrite bind_run. cbn beta iota zeta.
    rewrite bind_run. unfold this_ at 1. cbn [this setHeap setParents].
    rewrite bind_run, Hr1.
    rewrite bind_run. unfold this_ at 1. rewrite Ht1.
    rewrite bind_run, Hr2.
    rewrite bind_run. unfold this_ at 1. rewrite Ht2, Ht1.
    rewrite bind_run, Hr3. reflexivity.
  - unfold rebuilt.
    split; [congruence |]. split; [congruence |]. split; [lia |].
    split; [| split; [| split; [| split; [| split]]]].
    + intros l c Hc.
      assert (Hlt : l < length (heap st)) by (eapply lookup_lt_Some; exact Hc).
      destruct (Hold1 l c ltac:(lia) (lookup_app_l_Some _ _ _ _ Hc)) as (c1 & Hc1 & Hm1).
      destruct (Hold2 l c1 ltac:(lia) Hc1) as (c2 & Hc2 & Hm2).
      destruct (Hold3 l c2 ltac:(lia) Hc2) as (c3 & Hc3 & Hm3).
      exists c3. split; [exact Hc3 |].
      apply (movedOut_trans [ground (this st)] [skyLight (this st); sunLight (this st)] c c1);
        [exact Hm1 |].
      apply (movedOut_trans [skyLight (this st)] [sunLight (this st)] c1 c2); assumption.
    + intros l c Hl Hc.
      assert (Hlt : l < length (heap st3)) by (eapply lookup_lt_Some; exact Hc).
      assert (l = length (heap st)) as -> by lia.
      rewrite Hs3 in Hc. injection Hc as <-. reflexivity.
    + eexists. exact Hs3.
    + intros l Hl Hnot. unfold baseObjects in Hnot.
      rewrite !elem_of_cons, elem_of_nil in Hnot.
      rewrite Hpar3, Hpar2, Hpar1 by (intros ->; tauto).
      apply lookup_delete_ne. lia.
    + intros g Hg _. unfold baseObjects in Hg.
      rewrite !elem_of_cons, elem_of_nil in Hg.
      destruct Hg as [-> | [-> | [-> | []]]].
      * rewrite Hpar3, Hpar2 by congruence. exact Hpg1.
      * rewrite Hpar3 by congruence. exact Hpg2.
      * exact Hpg3.
    + intros l ch Hc.
      assert (Hlt : l < length (heap st)) by (eapply lookup_lt_Some; exact Hc).
      pose proof (Hex1 l ch ltac:(lia) (lookup_app_l_Some _ _ _ _ Hc)) as Hc1.
      pose proof (Hex2 l _ ltac:(lia) Hc1) as Hc2.
      pose proof (Hex3 l _ ltac:(lia) Hc2) as Hc3.
      rewrite Hc3. unfold leavesAll, baseObjects, leaves. cbn [foldl].
      rewrite (Hpar2 (sunLight (this st))), (Hpar1 (sunLight (this st))) by congruence.
      rewrite (Hpar1 (skyLight (this st))) by congruence.
      reflexivity.
  - lia.
  - exact Hs3.
Qed.

(** [buildScene] starts the scene and then adds the elements. *)
Lemma buildScene_start mission obstacles telemetry st :
  exists st1,
    buildScene mission obstacles telemetry st
    = (addSceneElements mission obstacles telemetry (length (heap st)) ;;;
       ret (length (heap st))) st1 /\
    rebuilt (length (heap st)) st st1 /\
    length (heap st1) = S (length (heap st)) /\
    heap st1 !! length (heap st) = Some (OScene (baseObjects (this st))).
Proof.
  exact (sceneStart_run
           (fun scn => addSceneElements mission obstacles telemetry scn ;;; ret scn) st).
Qed.

Lemma framed_elements b mission obstacles telemetry scn :
  b <= scn ->
  framed b (fun _ => True) (addSceneElements mission obstacles telemetry scn).
Proof.
  intros Hb. unfold addSceneElements.
  destruct mission as [m |]; [| apply framed_ret; exact I].
  destruct (truthy (home_pos m)); [| apply framed_ret; exact I].
  eapply framed_bind; [apply framed_addMissionSceneElements_; exact Hb |].
  intros _ _.
  eapply framed_bind; [apply framed_addObstacleSceneElements_; exact Hb |].
  intros _ _.
  apply framed_addTelemetrySceneElements_; exact Hb.
Qed.

(** A started scene stays started while elements are added to it. *)
Lemma rebuilt_frame b st st1 st2 :
  b = length (heap st) -> rebuilt b st st1 -> frame b st1 st2 -> rebuilt b st st2.
Proof.
  intros -> (Ht1 & Hb1 & Hl1 & Hold1 & Hnew1 & (ch & Hs1) & Hpar1 & Hbase1 & Hex1)
            (Ht2 & Hb2 & Hl2 & Hp2 & Hr2 & Hk2 & Hpar2).
  unfold rebuilt.
  split; [congruence |]. split; [congruence |]. split; [lia |].
  split; [| split; [| split; [| split; [| split]]]].
  - intros l c Hc.
    assert (Hlt : l < length (heap st)) by (eapply lookup_lt_Some; exact Hc).
    destruct (Hold1 l c Hc) as (c' & Hc' & Hm).
    exists c'. rewrite Hp2 by exact Hlt. split; assumption.
  - intros l c Hl Hc.
    destruct (isResource c) eqn:Hres; [| reflexivity].
    rewrite <- Hres. apply (Hnew1 l c Hl). apply Hr2; assumption.
  - destruct (Hk2 _ _ Hs1) as (c' & Hc' & Hkind).
    destruct c'; try discriminate Hkind. eexists. exact Hc'.
  - intros l Hl Hnot. rewrite Hpar2 by exact Hl. apply Hpar1; assumption.
  - intros g Hg Hl. rewrite Hpar2 by exact Hl. apply Hbase1; assumption.
  - intros l ch' Hc. rewrite Hp2 by (eapply lookup_lt_Some; exact Hc).
    apply Hex1. exact Hc.
Qed.

(** Building the scene moves the ground and the lights to the new scene and
    besides only allocates and fills new objects, whether it succeeds or
    throws; when it succeeds it returns the fresh scene. *)
Lemma buildScene_frame mission obstacles telemetry st :
  wp (buildScene mission obstacles telemetry)
     (fun scn st' => scn = length (heap st) /\ rebuilt (length (heap st)) st st')
     (fun st' => rebuilt (length (heap st)) st st')
     st.
Proof.
  unfold wp.
  destruct (buildScene_start mission obstacles telemetry st) as (st1 & -> & Hst1 & Hlen1 & _).
  rewrite bind_run.
  pose proof (framed_elements (length (heap st)) mission obstacles telemetry
                (length (heap st)) (Nat.le_refl _) st1 ltac:(lia)) as Hrest.
  unfold wp in Hrest.
  destruct (addSceneElements mission obstacles telemetry (length (heap st)) st1)
    as [[u | e] st2].
  - destruct Hrest as [Hfr2 _]. unfold ret.
    split; [reflexivity |]. eapply rebuilt_frame; [reflexivity | exact Hst1 | exact Hfr2].
  - eapply rebuilt_frame; [reflexivity | exact Hst1 | exact Hrest].
Qed.

(** [rebuildScene] publishes what [buildScene] returns, and nothing when it
    throws. *)
Lemma rebuildScene_cases mission obstacles telemetry st :
  match buildScene mission obstacles telemetry st with
  | (Ok scn, st1) =>
      rebuildScene mission obstacles telemetry st =
      (Ok tt,
       {| this := withScene (this st1) (Some scn);
          heap := heap st1;
          parents := parents st1;
          broadcasts := broadcasts st1 ++ [mkBroadcast sceneUpdated (Some scn)] |})
  | (Throw e, st1) => rebuildScene mission obstacles telemetry st = (Throw e, st1)
  end.
Proof.
  rewrite rebuildScene_buildScene, bind_run.
  destruct (buildScene mission obstacles telemetry st) as [[scn | e] st1]; reflexivity.
Qed.

(** Without a home position the arguments are not looked at. *)
Lemma buildScene_without_home mission obstacles telemetry st :
  lacksHomePosition mission ->
  buildScene mission obstacles telemetry st = buildScene None None None st.
Proof.
  intros Hlacks. unfold buildScene.
  destruct mission as [m |]; [| reflexivity].
  cbn in Hlacks. rewrite Hlacks. reflexivity.
Qed.

Lemma rebuildScene_without_home mission obstacles telemetry st :
  lacksHomePosition mission ->
  exists st1,
    rebuildScene mission obstacles telemetry st =
    (Ok tt,
     {| this := withScene (this st) (Some (length (heap st)));
        heap := heap st1;
        parents := parents st1;
        broadcasts := broadcasts st ++ [mkBroadcast sceneUpdated (Some (length (heap st)))] |}) /\
    rebuilt (length (heap st)) st st1 /\
    length (heap st1) = S (length (heap st)) /\
    heap st1 !! length (heap st) = Some (OScene (baseObjects (this st))).
Proof.
  intros Hlacks.
  pose proof (rebuildScene_cases mission obstacles telemetry st) as Hcases.
  rewrite (buildScene_without_home _ _ _ _ Hlacks) in Hcases.
  destruct (buildScene_start None None None st) as (st1 & Heq & Hst1 & Hlen & Hscn).
  rewrite Heq in Hcases.
  change ((addSceneElements None None None (length (heap st)) ;;; ret (length (heap st))) st1)
    with (Ok (length (heap st)), st1) in Hcases.
  cbv beta iota in Hcases.
  exists st1. split; [| auto].
  rewrite Hcases. destruct Hst1 as (-> & -> & _). reflexivity.
Qed.

(** ** The rebuild without a home position (C2) *)

(** C2.  When the mission is absent, or its home position is, [rebuildScene]
    returns, and the scene it publishes has exactly three children: the
    ground plane, the hemisphere light and the directional light of the
    service, in this order; there is no marker and no line. *)
Theorem rebuildScene_minimal_scene mission obstacles telemetry st :
  lacksHomePosition mission ->
  exists st' s,
    rebuildScene mission obstacles telemetry st = (Ok tt, st') /\
    scene (this st') = Some s /\
    sceneChildren (heap st') s
      = Some [ground (this st'); skyLight (this st'); sunLight (this st')].
Proof.
  intros Hlacks.
  destruct (rebuildScene_without_home mission obstacles telemetry st Hlacks)
    as (st1 & Hrun & _ & _ & Hscn).
  eexists. exists (length (heap st)).
  split; [exact Hrun |].
  split; [reflexivity |].
  unfold sceneChildren. cbn [heap this withScene ground skyLight sunLight].
  rewrite Hscn. reflexivity.
Qed.

Lemma rebuildScene_minimal_scene_witness :
  lacksHomePosition (Some (mkMission None None None None None None None None None 0)) /\
  exists st' s,
    rebuildScene (Some (mkMission None None None None None None None None None 0))
      None None freshService = (Ok tt, st') /\
    scene (this st') = Some s /\
    sceneChildren (heap st') s
      = Some [ground (this st'); skyLight (this st'); sunLight (this st')].
Proof.
  split; [reflexivity |].
  apply (rebuildScene_minimal_scene
           (Some (mkMission None None None None None None None None None 0))
           None None freshService).
  reflexivity.
Defined.

(** ** The notification (C3) *)

(** C3.  A call of [rebuildScene] that returns has appended exactly one
    broadcast to the log, ['MissionScene.sceneUpdated'], and a listener
    notified by it reads in the public field [scene] the scene built by this
    call: a scene object that did not exist before the call, and the one a
    reader finds in the field afterwards. *)
Theorem rebuildScene_notifies_once mission obstacles telemetry st st' :
  rebuildScene mission obstacles telemetry st = (Ok tt, st') ->
  exists s ch,
    broadcasts st' = broadcasts st ++ [mkBroadcast sceneUpdated (Some s)] /\
    scene (this st') = Some s /\
    heap st !! s = None /\
    heap st' !! s = Some (OScene ch).
Proof.
  intros Hrun.
  pose proof (rebuildScene_cases mission obstacles telemetry st) as Hcases.
  pose proof (buildScene_frame mission obstacles telemetry st) as Hframe.
  unfold wp in Hframe.
  destruct (buildScene mission obstacles telemetry st) as [[scn | e] st1].
  - rewrite Hcases in Hrun. injection Hrun as <-.
    destruct Hframe as (-> & (_ & Hb & _ & _ & _ & (ch & Hch) & _)).
    exists (length (heap st)), ch. cbn [broadcasts this heap withScene scene].
    split; [rewrite Hb; reflexivity |].
    split; [reflexivity |].
    split; [apply lookup_ge_None_2; lia | exact Hch].
  - rewrite Hcases in Hrun. discriminate Hrun.
Qed.

Lemma rebuildScene_notifies_once_witness :
  exists st',
    rebuildScene None None None freshService = (Ok tt, st') /\
    exists s ch,
      broadcasts st' = [mkBroadcast sceneUpdated (Some s)] /\
      scene (this st') = Some s /\
      heap freshService !! s = None /\
      heap st' !! s = Some (OScene ch).
Proof.
  eexists. split; [reflexivity |].
  apply (rebuildScene_notifies_once None None None freshService). reflexivity.
Defined.

(** ** Failure leaves the published scene alone (C10) *)

(** C10.  When [rebuildScene] throws, no field of the service has changed,
    so the public field [scene] holds its previous value, and no broadcast
    has been added to the log. *)
Theorem rebuildScene_throw_keeps_scene mission obstacles telemetry st e st' :
  rebuildScene mission obstacles telemetry st = (Throw e, st') ->
  this st' = this st /\
  scene (this st') = scene (this st) /\
  broadcasts st' = broadcasts st.
Proof.
  intros Hrun.
  pose proof (rebuildScene_cases mission obstacles telemetry st) as Hcases.
  pose proof (buildScene_frame mission obstacles telemetry st) as Hframe.
  unfold wp in Hframe.
  destruct (buildScene mission obstacles telemetry st) as [[scn | e'] st1].
  - rewrite Hcases in Hrun. discriminate Hrun.
  - rewrite Hcases in Hrun. injection Hrun as -> ->.
    destruct Hframe as (Ht & Hb & _).
    split; [exact Ht |]. split; [rewrite Ht; reflexivity | exact Hb].
Qed.

Lemma rebuildScene_throw_keeps_scene_witness :
  exists st',
    rebuildScene (Some (missionOf exampleInputs)) None (Some (telemetryOf exampleInputs))
      freshService = (Throw TypeError, st') /\
    this st' = this freshService /\
    scene (this st') = scene (this freshService) /\
    broadcasts st' = broadcasts freshService.
Proof.
  assert (Hthrows :
    fst (rebuildScene (Some (missionOf exampleInputs)) None
           (Some (telemetryOf exampleInputs)) freshService) = Throw TypeError)
    by (vm_compute; reflexivity).
  destruct (rebuildScene (Some (missionOf exampleInputs)) None
              (Some (telemetryOf exampleInputs)) freshService) as [r st'] eqn:Hrun.
  cbn [fst] in Hthrows. subst r.
  exists st'. split; [reflexivity |].
  exact (rebuildScene_throw_keeps_scene (Some (missionOf exampleInputs)) None
           (Some (telemetryOf exampleInputs)) freshService TypeError st' Hrun).
Defined.

(** ** The rendering resources are reused (C9) *)



(** ** What the scene of a complete rebuild looks like *)

(** *** Views survive what a rebuild does to the heap *)

Lemma vectorAt_Some (h : Heap) l p : vectorAt h l = Some p <-> h !! l = Some (OVector3 p).
Proof.
  unfold vectorAt. destruct (h !! l) as [[]|]; split; intros Heq; congruence.
Qed.

Lemma vectorAt_keeps h h' l p : keeps h h' -> vectorAt h l = Some p -> vectorAt h' l = Some p.
Proof.
  intros Hk Hv. apply vectorAt_Some. apply vectorAt_Some in Hv.
  apply (Hk l _ Hv). reflexivity.
Qed.

Lemma viewObj_keeps h h' l v : keeps h h' -> viewObj h l = Some v -> viewObj h' l = Some v.
Proof.
  intros Hk. unfold viewObj.
  destruct (h !! l) as [c |] eqn:Hc; [| discriminate].
  destruct c as [r | p | m | vl | g mat | ch]; try discriminate.
  - rewrite (Hk l _ Hc eq_refl).
    destruct (vectorAt h (position m)) as [p |] eqn:Hp; [| discriminate].
    rewrite (vectorAt_keeps h h' _ _ Hk Hp). trivial.
  - rewrite (Hk l _ Hc eq_refl).
    destruct (h !! g) as [cg |] eqn:Hg; [| discriminate].
    destruct cg as [r | p | m | vl | g' mat' | ch]; try discriminate.
    rewrite (Hk g _ Hg eq_refl).
    destruct (mapM (vectorAt h) vl) as [pts |] eqn:Hpts; [| discriminate].
    assert (Hpts' : mapM (vectorAt h') vl = Some pts).
    { apply mapM_Some. apply mapM_Some in Hpts.
      eapply Forall2_impl; [exact Hpts |].
      intros x y Hxy. eapply vectorAt_keeps; eassumption. }
    rewrite Hpts'. trivial.
Qed.

Lemma views_keep h h' (ms : list loc) vs :
  keeps h h' ->
  Forall2 (fun l v => viewObj h l = Some v) ms vs ->
  Forall2 (fun l v => viewObj h' l = Some v) ms vs.
Proof.
  intros Hk Hvs. eapply Forall2_impl; [exact Hvs |].
  intros l v Hv. eapply viewObj_keeps; eassumption.
Qed.

(** Appending objects and replacing a scene keeps all other objects. *)
Lemma keeps_append_insert (h new : Heap) s c ch :
  h !! s = Some (OScene ch) ->
  keeps h (<[s := c]> (h ++ new)).
Proof.
  intros Hs l c' Hc' Hns.
  assert (l <> s) by (intros ->; rewrite Hs in Hc'; injection Hc' as <-; discriminate).
  rewrite list_lookup_insert_ne by congruence.
  apply lookup_app_l_Some. exact Hc'.
Qed.

(** *** The four ways a rebuild extends the heap *)

(** A completed mesh and its position vector are allocated and the mesh is
    added to the scene. *)
Lemma SceneInv_add_mesh t0 ev0 h0 vs st ch v mesh :
  SceneInv t0 ev0 h0 vs st ->
  heap st !! length h0 = Some (OScene ch) ->
  position mesh = length (heap st) ->
  SceneInv t0 ev0 h0 (vs ++ [meshView v mesh])
    (setHeap st (<[length h0 := OScene (ch ++ [S (length (heap st))])]>
                   (heap st ++ [OVector3 v; OMesh mesh]))).
Proof.
  intros (Ht & Hb & Hold & ms & Hs & Hviews & Hlocs) Hch Hpos.
  assert (Hlt : length h0 < length (heap st)) by (eapply lookup_lt_Some; exact Hs).
  assert (Hch' : ch = baseObjects t0 ++ ms) by congruence. subst ch. clear Hch.
  unfold SceneInv. cbn [this broadcasts heap setHeap].
  split; [exact Ht |]. split; [exact Hb |]. split.
  - intros l c Hc Hns.
    assert (l < length h0) by (eapply lookup_lt_Some; exact Hc).
    rewrite list_lookup_insert_ne by lia.
    apply lookup_app_l_Some. apply Hold; assumption.
  - exists (ms ++ [S (length (heap st))]). split; [| split].
    + rewrite list_lookup_insert_eq by (rewrite length_app; lia).
      rewrite <- app_assoc. reflexivity.
    + apply Forall2_app.
      * eapply views_keep; [| exact Hviews].
        eapply keeps_append_insert. exact Hs.
      * constructor; [| constructor].
        unfold viewObj, vectorAt.
        rewrite list_lookup_insert_ne by lia. rewrite lookup_new1.
        rewrite list_lookup_insert_ne by lia. rewrite Hpos, lookup_new0.
        reflexivity.
    + apply Forall_app. split; [exact Hlocs |].
      constructor; [lia | constructor].
Qed.

(** A line geometry is allocated. *)
Lemma LineInv_start st :
  LineInv (this st) (broadcasts st) (heap st) []
    (setHeap st (heap st ++ [OGeometry []])).
Proof.
  unfold LineInv. cbn [this broadcasts heap setHeap].
  split; [reflexivity |]. split; [reflexivity |]. split.
  - intros l c Hc. apply lookup_app_l_Some. exact Hc.
  - exists []. split; [apply lookup_new0 | constructor].
Qed.

(** Two vertices are allocated and pushed to the line geometry. *)
Lemma LineInv_push t0 ev0 hs pts st vl va vb :
  LineInv t0 ev0 hs pts st ->
  heap st !! length hs = Some (OGeometry vl) ->
  LineInv t0 ev0 hs (pts ++ [va; vb])
    (setHeap st
       (<[length hs := OGeometry (vl ++ [length (heap st); S (length (heap st))])]>
          (heap st ++ [OVector3 va; OVector3 vb]))).
Proof.
  intros (Ht & Hb & Hold & vl' & Hg & Hvl) Hg'.
  assert (Hlt : length hs < length (heap st)) by (eapply lookup_lt_Some; exact Hg).
  rewrite Hg in Hg'. injection Hg' as <-.
  unfold LineInv. cbn [this broadcasts heap setHeap].
  split; [exact Ht |]. split; [exact Hb |]. split.
  - intros l c Hc.
    assert (l < length hs) by (eapply lookup_lt_Some; exact Hc).
    rewrite list_lookup_insert_ne by lia.
    apply lookup_app_l_Some. apply Hold. exact Hc.
  - exists (vl' ++ [length (heap st); S (length (heap st))]). split.
    + apply list_lookup_insert_eq. rewrite length_app. lia.
    + apply Forall2_app.
      * eapply Forall2_impl; [exact Hvl |].
        intros l p Hl. cbn beta in Hl.
        assert (l <> length hs) by (intros ->; rewrite Hg in Hl; discriminate).
        rewrite list_lookup_insert_ne by congruence.
        apply lookup_app_l_Some. exact Hl.
      * constructor; [| constructor; [| constructor]].
        -- rewrite list_lookup_insert_ne by lia. apply lookup_new0.
        -- rewrite list_lookup_insert_ne by lia. apply lookup_new1.
Qed.

(** The line of a filled geometry is allocated and added to the scene.  The
    state [sts] is the one in which the geometry was allocated. *)
Lemma SceneInv_add_line t0 ev0 h0 vs sts pts st ch mat :
  SceneInv t0 ev0 h0 vs sts ->
  LineInv t0 ev0 (heap sts) pts st ->
  heap st !! length h0 = Some (OScene ch) ->
  SceneInv t0 ev0 h0 (vs ++ [VLine pts mat])
    (setHeap st (<[length h0 := OScene (ch ++ [length (heap st)])]>
                   (heap st ++ [OLine (length (heap sts)) mat]))).
Proof.
  intros (_ & _ & Hold & ms & Hs & Hviews & Hlocs) (Ht & Hb & Hkeep & vl & Hg & Hvl) Hch.
  assert (Hlt : length h0 < length (heap st)) by (eapply lookup_lt_Some; exact Hch).
  assert (Hch' : ch = baseObjects t0 ++ ms)
    by (rewrite (Hkeep _ _ Hs) in Hch; congruence).
  subst ch. clear Hch.
  assert (Hfinal : forall l c, heap st !! l = Some c -> isScene c = false ->
            <[length h0 := OScene ((baseObjects t0 ++ ms) ++ [length (heap st)])]>
              (heap st ++ [OLine (length (heap sts)) mat]) !! l = Some c).
  { intros l c Hc Hns. eapply keeps_append_insert; [apply Hkeep; exact Hs | exact Hc | exact Hns]. }
  unfold SceneInv. cbn [this broadcasts heap setHeap].
  split; [exact Ht |]. split; [exact Hb |]. split.
  - intros l c Hc Hns.
    assert (l < length h0) by (eapply lookup_lt_Some; exact Hc).
    rewrite list_lookup_insert_ne by lia.
    apply lookup_app_l_Some. apply Hkeep. apply Hold; assumption.
  - exists (ms ++ [length (heap st)]). split; [| split].
    + rewrite list_lookup_insert_eq by (rewrite length_app; lia).
      rewrite <- app_assoc. reflexivity.
    + apply Forall2_app.
      * eapply views_keep; [| exact Hviews].
        intros l c Hc Hns. apply Hfinal; [apply Hkeep; exact Hc | exact Hns].
      * constructor; [| constructor].
        unfold viewObj.
        rewrite list_lookup_insert_ne by lia. rewrite lookup_new0.
        rewrite (Hfinal _ _ Hg eq_refl).
        assert (Hpts : mapM (vectorAt
                  (<[length h0 := OScene ((baseObjects t0 ++ ms) ++ [length (heap st)])]>
                     (heap st ++ [OLine (length (heap sts)) mat]))) vl = Some pts).
        { apply mapM_Some. eapply Forall2_impl; [exact Hvl |].
          intros l p Hl. apply vectorAt_Some. apply Hfinal; [exact Hl | reflexivity]. }
        rewrite Hpts. reflexivity.
    + apply Forall_app. split; [exact Hlocs |].
      constructor; [lia | constructor].
Qed.

(** The invariants do not look at the parent links. *)
Lemma SceneInv_setParents t0 ev0 h0 vs st ps :
  SceneInv t0 ev0 h0 vs st -> SceneInv t0 ev0 h0 vs (setParents st ps).
Proof. intros Hinv. exact Hinv. Qed.

Lemma LineInv_setParents t0 ev0 hs pts st ps :
  LineInv t0 ev0 hs pts st -> LineInv t0 ev0 hs pts (setParents st ps).
Proof. intros Hinv. exact Hinv. Qed.

(** *** The steps of a rebuild, on the invariants *)

Lemma wp_createObject_ {A B} `{HasLatLon A} `{HasLatLon B}
    t0 ev0 h0 vs st g m (p : A) alt (r : B) scl (Q : loc -> State -> Prop) E :
  SceneInv t0 ev0 h0 vs st ->
  (forall st',
     SceneInv t0 ev0 h0
       (vs ++ [sphereMarker g m (localCoords (distance_ t0) p alt r) scl]) st' ->
     Q (S (length (heap st))) st') ->
  wp (createObject_ g m (Some p) alt (Some r) scl (length h0)) Q E st.
Proof.
  intros Hinv HQ. unfold wp. rewrite createObject_run. cbn zeta.
  pose proof Hinv as (Ht & _ & _ & ms & Hs & _).
  rewrite (lookup_app_l_Some _ _ _ _ Hs).
  rewrite ?Ht. apply HQ.
  apply (SceneInv_add_mesh t0 ev0 h0 vs (setParents st _) _ _
           (mkMesh g m (length (heap st)) (mkVector3 scl scl scl) zeroVector true true)
           (SceneInv_setParents _ _ _ _ _ _ Hinv) Hs eq_refl).
Qed.

Lemma wp_stationary t0 ev0 h0 vs st g m (o : StationaryObstacle) (r : GpsPosition)
    (Q : unit -> State -> Prop) E :
  SceneInv t0 ev0 h0 vs st ->
  (forall st',
     SceneInv t0 ev0 h0
       (vs ++ [cylinderMarker g m (localCoords (distance_ t0) o (cylinder_height o / 2) r)
                 (cylinder_radius o) (cylinder_height o)]) st' ->
     Q tt st') ->
  wp (obstacleObj <- createObject_ g m (Some o) (cylinder_height o / 2) (Some r) 1
                       (length h0) ;;
      radius <- prop (Some o) cylinder_radius ;;
      height <- prop (Some o) cylinder_height ;;
      Mesh_scale_set obstacleObj radius height radius ;;;
      Mesh_rotation_set obstacleObj (PI / 2) 0 0) Q E st.
Proof.
  intros Hinv HQ. unfold wp. rewrite bind_run, createObject_run. cbn zeta.
  pose proof Hinv as (Ht & _ & _ & ms & Hs & _).
  assert (Hlt : length h0 < length (heap st)) by (eapply lookup_lt_Some; exact Hs).
  rewrite (lookup_app_l_Some _ _ _ _ Hs).
  unfold prop, deref, ret. rewrite !bind_run. cbn beta iota.
  unfold Mesh_scale_set, Mesh_rotation_set.
  rewrite updateMesh_run. cbn [heap setHeap setParents].
  rewrite list_lookup_insert_ne by lia. rewrite lookup_new1.
  rewrite updateMesh_run. cbn [heap setHeap setParents].
  rewrite list_lookup_insert_eq
    by (rewrite length_insert, length_app; cbn [length]; lia).
  rewrite !setHeap_setHeap, list_insert_insert_eq.
  rewrite (list_insert_insert_ne _ (S (length (heap st))) (length h0)) by lia.
  rewrite insert_new1.
  rewrite ?Ht. apply HQ.
  apply (SceneInv_add_mesh t0 ev0 h0 vs (setParents st _) _ _
           (mkMesh g m (length (heap st))
              (mkVector3 (cylinder_radius o) (cylinder_height o) (cylinder_radius o))
              (mkVector3 (PI / 2) 0 0) true true)
           (SceneInv_setParents _ _ _ _ _ _ Hinv) Hs eq_refl).
Qed.

Lemma wp_segment {A} `{HasLatLon A} t0 ev0 hs pts st (pure1 pure2 : M R) alt1 alt2
    (a b : A) (home : GpsPosition) (Q : unit -> State -> Prop) E :
  LineInv t0 ev0 hs pts st ->
  (forall st1, this st1 = t0 -> pure1 st1 = (Ok alt1, st1)) ->
  (forall st1, this st1 = t0 -> pure2 st1 = (Ok alt2, st1)) ->
  (forall st',
     LineInv t0 ev0 hs
       (pts ++ [localCoords (distance_ t0) a alt1 home;
                localCoords (distance_ t0) b alt2 home]) st' ->
     Q tt st') ->
  wp (startPt <- new_Vector3 ;;
      r <- pure1 ;;
      setObjectPosition_ (Some a) r (Some home) startPt ;;;
      endPt <- new_Vector3 ;;
      r <- pure2 ;;
      setObjectPosition_ (Some b) r (Some home) endPt ;;;
      vertices_push (length hs) startPt endPt) Q E st.
Proof.
  intros Hinv Hp1 Hp2 HQ. unfold wp.
  pose proof Hinv as (Ht & _ & _ & vl & Hg & _).
  assert (Hlt : length hs < length (heap st)) by (eapply lookup_lt_Some; exact Hg).
  unfold new_Vector3, alloc. rewrite bind_run. cbn beta iota zeta.
  rewrite bind_run, Hp1 by exact Ht.
  rewrite bind_run, setObjectPosition_run. cbn [heap setHeap setParents this].
  rewrite lookup_new0, setHeap_setHeap, insert_new0.
  rewrite bind_run. cbn beta iota zeta. cbn [heap parents setHeap setParents].
  rewrite setParents_setHeap, setHeap_setHeap, setParents_setParents.
  rewrite bind_run, Hp2 by exact Ht.
  rewrite bind_run, setObjectPosition_run. cbn [heap setHeap setParents this].
  rewrite <- app_assoc. cbn [app].
  rewrite length_app. cbn [length]. rewrite Nat.add_1_r.
  rewrite lookup_new1, !setHeap_setHeap, insert_new1.
  rewrite vertices_push_run. cbn [heap setHeap setParents].
  rewrite (lookup_app_l_Some _ _ _ _ Hg), setHeap_setHeap.
  rewrite ?Ht. apply HQ.
  apply (LineInv_push t0 ev0 hs pts (setParents st _));
    [apply LineInv_setParents; exact Hinv | exact Hg].
Qed.

Lemma wp_marker_loop {X} (xs : list X) (f : X -> ObjView) (body : nat -> M unit)
    t0 ev0 h0 vs st (Q : unit -> State -> Prop) E :
  SceneInv t0 ev0 h0 vs st ->
  (forall i x vs' st' (Q' : unit -> State -> Prop),
     xs !! i = Some x ->
     SceneInv t0 ev0 h0 vs' st' ->
     (forall st'', SceneInv t0 ev0 h0 (vs' ++ [f x]) st'' -> Q' tt st'') ->
     wp (body i) Q' E st') ->
  (forall st', SceneInv t0 ev0 h0 (vs ++ map f xs) st' -> Q tt st') ->
  wp (for_ (length xs) body) Q E st.
Proof.
  intros Hinv Hbody HQ. unfold for_.
  eapply wp_mono;
    [| | apply (wp_forFrom (fun k st' => SceneInv t0 ev0 h0 (vs ++ map f (take k xs)) st')
                  E body (length xs) 0 st)].
  - intros [] st' Hend. cbn beta in Hend. apply HQ.
    rewrite Nat.add_0_l, firstn_all in Hend. exact Hend.
  - intros st' HE. exact HE.
  - cbn [take map]. rewrite app_nil_r. exact Hinv.
  - intros k st' Hk Hk_inv.
    destruct (lookup_lt_is_Some_2 xs k ltac:(lia)) as [x Hx].
    apply (Hbody k x _ st' _ Hx Hk_inv).
    intros st'' Hnext.
    rewrite (take_S_r xs k x Hx), map_app, app_assoc. exact Hnext.
Qed.

Lemma wp_line_loop n (segf : nat -> list Vector3) (body : nat -> M unit)
    t0 ev0 hs st (Q : unit -> State -> Prop) E :
  LineInv t0 ev0 hs [] st ->
  (forall i pts st' (Q' : unit -> State -> Prop),
     i < n ->
     LineInv t0 ev0 hs pts st' ->
     (forall st'', LineInv t0 ev0 hs (pts ++ segf i) st'' -> Q' tt st'') ->
     wp (body i) Q' E st') ->
  (forall st', LineInv t0 ev0 hs (flat_map segf (seq 0 n)) st' -> Q tt st') ->
  wp (for_ n body) Q E st.
Proof.
  intros Hinv Hbody HQ. unfold for_.
  eapply wp_mono;
    [| | apply (wp_forFrom (fun k st' => LineInv t0 ev0 hs (flat_map segf (seq 0 k)) st')
                  E body n 0 st)].
  - intros [] st' Hend. cbn beta in Hend. apply HQ.
    rewrite Nat.add_0_l in Hend. exact Hend.
  - intros st' HE. exact HE.
  - exact Hinv.
  - intros k st' Hk Hk_inv.
    apply (Hbody k _ st' _ ltac:(lia) Hk_inv).
    intros st'' Hnext.
    rewrite seq_S, flat_map_app. cbn [flat_map]. rewrite app_nil_r. exact Hnext.
Qed.

Lemma jsIndex_map_Some {X} (xs : list X) i : jsIndex (map Some xs) i = xs !! i.
Proof.
  unfold jsIndex. revert i. induction xs as [| x xs IH]; intros [| i]; try reflexivity.
  apply IH.
Qed.

Lemma wp_finish_line_then {X} t0 ev0 h0 vs sts pts st (matf : MissionScene -> loc)
    (k : M X) (Q : X -> State -> Prop) E :
  SceneInv t0 ev0 h0 vs sts ->
  LineInv t0 ev0 (heap sts) pts st ->
  (forall st', SceneInv t0 ev0 h0 (vs ++ [VLine pts (matf t0)]) st' -> wp k Q E st') ->
  wp (lm <- this_ matf ;;
      line <- new_Line (length (heap sts)) lm ;;
      Scene_add (length h0) line ;;;
      k) Q E st.
Proof.
  intros Hinv Hline HQ. unfold wp at 1.
  rewrite bind_run. unfold this_ at 1. cbn beta iota.
  rewrite new_Line_add_run. cbn zeta.
  pose proof Hinv as (_ & _ & _ & ms & Hs & _).
  pose proof Hline as (Ht & _ & Hkeep & _).
  pose proof (Hkeep _ _ Hs) as Hs'.
  rewrite (lookup_app_l_Some _ _ _ _ Hs').
  rewrite ?Ht. apply HQ.
  apply (SceneInv_add_line t0 ev0 h0 vs sts pts (setParents st _) _ _ Hinv
           (LineInv_setParents _ _ _ _ _ _ Hline) Hs').
Qed.

Lemma wp_finish_line t0 ev0 h0 vs sts pts st (matf : MissionScene -> loc)
    (Q : unit -> State -> Prop) E :
  SceneInv t0 ev0 h0 vs sts ->
  LineInv t0 ev0 (heap sts) pts st ->
  (forall st', SceneInv t0 ev0 h0 (vs ++ [VLine pts (matf t0)]) st' -> Q tt st') ->
  wp (lm <- this_ matf ;;
      line <- new_Line (length (heap sts)) lm ;;
      Scene_add (length h0) line) Q E st.
Proof.
  intros Hinv Hline HQ.
  pose proof (wp_finish_line_then t0 ev0 h0 vs sts pts st matf (ret tt) Q E Hinv Hline
                (fun st' Hinv' => wp_ret tt Q E st' (HQ st' Hinv'))) as Hwp.
  unfold wp in *. rewrite bind_run in *. unfold this_ in *. cbn beta iota in *.
  unfold new_Line, alloc in *. rewrite bind_run in *. cbn beta iota zeta in *.
  rewrite bind_ret_tt in Hwp. exact Hwp.
Qed.

(** Reading a field of the service, in a state that satisfies one of the
    invariants. *)
Ltac wp_this Hinv :=
  apply wp_bind; apply wp_this_; cbn beta; rewrite (proj1 Hinv).

Ltac wp_read :=
  apply wp_bind; apply wp_prop; cbn beta iota;
  cbn [missionOf obstaclesOf search_grid_points mission_waypoints home_pos
       stationary_obstacles moving_obstacles mission_waypoints_dist_max].

Lemma this_pure {X} (f : MissionScene -> X) t0 st :
  this st = t0 -> this_ f st = (Ok (f t0), st).
Proof. intros <-. reflexivity. Qed.

Lemma wp_addMissionSceneElements_ ci t0 ev0 h0 vs st (Q : unit -> State -> Prop) E :
  SceneInv t0 ev0 h0 vs st ->
  (forall st', SceneInv t0 ev0 h0 (vs ++ missionElements t0 ci) st' -> Q tt st') ->
  wp (addMissionSceneElements_ (missionOf ci) (length h0)) Q E st.
Proof.
  intros Hinv HQ. unfold addMissionSceneElements_.
  (* home position *)
  do 3 wp_this Hinv.
  apply wp_bind. eapply wp_createObject_; [exact Hinv |]. clear st Hinv.
  intros st Hinv. cbn beta.
  (* mission components *)
  apply wp_bind.
  apply (wp_marker_loop (ci_components ci)
           (fun c => sphereMarker (missionComponentGeometry_ t0) (missionComponentMaterial_ t0)
                       (localCoords (distance_ t0) c (missionComponentRadius_ t0)
                          (ci_home_pos ci))
                       (missionComponentRadius_ t0)) _ t0 ev0 h0 _ st _ E Hinv).
  { intros i x vs' st' Q' Hx Hinv' HQ'.
    change (missionComponents (missionOf ci)) with (map Some (ci_components ci)).
    rewrite jsIndex_map_Some, Hx.
    do 3 wp_this Hinv'.
    apply wp_bind. eapply wp_createObject_; [exact Hinv' |].
    intros st'' Hinv''. apply wp_ret. apply HQ'. exact Hinv''. }
  clear st Hinv. intros st Hinv. cbn beta.
  (* search grid points *)
  wp_read. rewrite length_map.
  apply wp_bind.
  apply (wp_marker_loop (ci_search_grid_points ci)
           (fun p => sphereMarker (searchGridPtGeometry_ t0) (searchGridPtMaterial_ t0)
                       (localCoords (distance_ t0) p (searchGridPtRadius_ t0)
                          (ci_home_pos ci))
                       (searchGridPtRadius_ t0)) _ t0 ev0 h0 _ st _ E Hinv).
  { intros i x vs' st' Q' Hx Hinv' HQ'.
    wp_read. rewrite jsIndex_map_Some, Hx.
    do 3 wp_this Hinv'.
    apply wp_bind. eapply wp_createObject_; [exact Hinv' |].
    intros st'' Hinv''. apply wp_ret. apply HQ'. exact Hinv''. }
  clear st Hinv. intros st Hinv. cbn beta.
  (* search grid line *)
  apply wp_bind. unfold new_Geometry. apply wp_alloc.
  wp_read. rewrite length_map.
  apply wp_bind.
  pose proof (LineInv_start (setParents st (delete (length (heap st)) (parents st))))
    as Hline.
  cbn [this heap broadcasts setParents] in Hline.
  rewrite (proj1 Hinv), (proj1 (proj2 Hinv)) in Hline.
  apply (wp_line_loop _ (searchGridSegment t0 ci) _ t0 ev0 (heap st) _ _ E Hline).
  { intros i pts st' Q' Hi Hline' HQ'.
    wp_read. rewrite length_map.
    destruct (lookup_lt_is_Some_2 (ci_search_grid_points ci) i Hi) as [a Ha].
    assert (Hj : (i + 1) mod length (ci_search_grid_points ci)
                 < length (ci_search_grid_points ci)).
    { apply Nat.mod_upper_bound. lia. }
    destruct (lookup_lt_is_Some_2 (ci_search_grid_points ci) _ Hj) as [b Hb].
    wp_read. rewrite jsIndex_map_Some, Ha.
    wp_read. rewrite jsIndex_map_Some, Hb.
    eapply wp_segment; [exact Hline' | apply this_pure | apply this_pure |].
    intros st'' Hline''. apply HQ'.
    unfold searchGridSegment. rewrite Ha, Hb. exact Hline''. }
  intros st' Hline'. cbn beta.
  eapply (wp_finish_line_then t0 ev0 h0 _ st _ st' searchGridPtLineMaterial_);
    [exact Hinv | exact Hline' |].
  clear st Hinv Hline st' Hline'. intros st Hinv.
  (* mission waypoints *)
  wp_read. rewrite length_map.
  apply wp_bind.
  apply (wp_marker_loop (ci_mission_waypoints ci)
           (fun w => sphereMarker (missionWaypointGeometry_ t0) (missionWaypointMaterial_ t0)
                       (localCoords (distance_ t0) w (altitude_msl w) (ci_home_pos ci))
                       (ci_mission_waypoints_dist_max ci)) _ t0 ev0 h0 _ st _ E Hinv).
  { intros i x vs' st' Q' Hx Hinv' HQ'.
    wp_read. rewrite jsIndex_map_Some, Hx.
    do 2 wp_this Hinv'.
    wp_read.
    apply wp_bind. eapply wp_createObject_; [exact Hinv' |].
    intros st'' Hinv''. apply wp_ret. apply HQ'. exact Hinv''. }
  clear st Hinv. intros st Hinv. cbn beta.
  (* waypoint line *)
  apply wp_bind. unfold new_Geometry. apply wp_alloc.
  wp_read. rewrite length_map.
  replace (Z.to_nat (Z.of_nat (length (ci_mission_waypoints ci)) - 1))
    with (length (ci_mission_waypoints ci) - 1) by lia.
  apply wp_bind.
  pose proof (LineInv_start (setParents st (delete (length (heap st)) (parents st))))
    as Hline.
  cbn [this heap broadcasts setParents] in Hline.
  rewrite (proj1 Hinv), (proj1 (proj2 Hinv)) in Hline.
  apply (wp_line_loop _ (waypointSegment t0 ci) _ t0 ev0 (heap st) _ _ E Hline).
  { intros i pts st' Q' Hi Hline' HQ'.
    destruct (lookup_lt_is_Some_2 (ci_mission_waypoints ci) i ltac:(lia)) as [a Ha].
    destruct (lookup_lt_is_Some_2 (ci_mission_waypoints ci) (i + 1) ltac:(lia)) as [b Hb].
    wp_read. rewrite jsIndex_map_Some, Ha.
    wp_read. rewrite jsIndex_map_Some, Hb.
    eapply (wp_segment t0 ev0 (heap st) pts st' _ _ (altitude_msl a) (altitude_msl b));
      [exact Hline' | reflexivity | reflexivity |].
    intros st'' Hline''. apply HQ'.
    unfold waypointSegment. rewrite Ha, Hb. exact Hline''. }
  intros st' Hline'. cbn beta.
  eapply (wp_finish_line t0 ev0 h0 _ st _ st' missionWaypointLineMaterial_);
    [exact Hinv | exact Hline' |].
  intros st'' Hinv''. apply HQ.
  unfold missionElements, homeMarker, componentMarkers, searchGridMarkers, searchGridLine,
    waypointMarkers, waypointLine.
  repeat rewrite <- app_assoc in Hinv''. cbn [app] in Hinv''.
  repeat rewrite <- app_assoc. exact Hinv''.
Qed.

Lemma wp_addObstacleSceneElements_ ci t0 ev0 h0 vs st refPos (Q : unit -> State -> Prop) E :
  SceneInv t0 ev0 h0 vs st ->
  (forall st', SceneInv t0 ev0 h0 (vs ++ obstacleElements t0 ci) st' -> Q tt st') ->
  wp (addObstacleSceneElements_ (missionOf ci) (Some (obstaclesOf ci)) refPos (length h0))
     Q E st.
Proof.
  intros Hinv HQ. unfold addObstacleSceneElements_.
  (* stationary obstacles *)
  wp_read. wp_read. rewrite length_map.
  apply wp_bind.
  apply (wp_marker_loop (ci_stationary_obstacles ci)
           (fun o => cylinderMarker (stationaryObstacleGeometry_ t0)
                       (stationaryObstacleMaterial_ t0)
                       (localCoords (distance_ t0) o (cylinder_height o / 2) (ci_home_pos ci))
                       (cylinder_radius o) (cylinder_height o)) _ t0 ev0 h0 _ st _ E Hinv).
  { intros i x vs' st' Q' Hx Hinv' HQ'.
    wp_read. wp_read. rewrite jsIndex_map_Some, Hx.
    do 2 wp_this Hinv'.
    wp_read.
    eapply wp_stationary; [exact Hinv' |].
    intros st'' Hinv''. apply HQ'. exact Hinv''. }
  clear st Hinv. intros st Hinv. cbn beta.
  (* moving obstacles *)
  wp_read. wp_read. rewrite length_map.
  apply (wp_marker_loop (ci_moving_obstacles ci)
           (fun o => sphereMarker (movingObstacleGeometry_ t0) (movingObstacleMaterial_ t0)
                       (localCoords (distance_ t0) o (altitude_msl o) (ci_home_pos ci))
                       (sphere_radius o)) _ t0 ev0 h0 _ st _ E Hinv).
  { intros i x vs' st' Q' Hx Hinv' HQ'.
    wp_read. wp_read. rewrite jsIndex_map_Some, Hx.
    do 2 wp_this Hinv'.
    wp_read. wp_read.
    apply wp_bind. eapply wp_createObject_; [exact Hinv' |].
    intros st'' Hinv''. apply wp_ret. apply HQ'. exact Hinv''. }
  intros st' Hinv'. apply HQ.
  unfold obstacleElements, stationaryMarkers, movingMarkers.
  rewrite <- app_assoc in Hinv'. exact Hinv'.
Qed.

Lemma wp_addTelemetrySceneElements_ ci t0 ev0 h0 vs st refPos (Q : unit -> State -> Prop) E :
  SceneInv t0 ev0 h0 vs st ->
  (forall st', SceneInv t0 ev0 h0 (vs ++ telemetryMarkers t0 ci) st' -> Q tt st') ->
  wp (addTelemetrySceneElements_ (missionOf ci) (Some (telemetryOf ci)) refPos (length h0))
     Q E st.
Proof.
  intros Hinv HQ. unfold addTelemetrySceneElements_, telemetryOf.
  wp_read. rewrite length_map.
  apply (wp_marker_loop (ci_telemetry ci)
           (fun u => sphereMarker (telemetryGeometry_ t0) (telemetryMaterial_ t0)
                       (localCoords (distance_ t0) u (altitude_msl u) (ci_home_pos ci))
                       (telemetryRadius_ t0)) _ t0 ev0 h0 _ st _ E Hinv).
  { intros i x vs' st' Q' Hx Hinv' HQ'.
    wp_read. rewrite jsIndex_map_Some, Hx.
    do 2 wp_this Hinv'.
    wp_read.
    wp_this Hinv'.
    apply wp_bind. eapply wp_createObject_; [exact Hinv' |].
    intros st'' Hinv''. apply wp_ret. apply HQ'. exact Hinv''. }
  intros st' Hinv'. apply HQ. exact Hinv'.
Qed.

(** For complete inputs [buildScene] returns, and the fresh scene holds the
    ground, the lights and then the elements listed by [sceneElements]. *)
Lemma buildScene_complete ci st :
  wp (buildScene (Some (missionOf ci)) (Some (obstaclesOf ci)) (Some (telemetryOf ci)))
     (fun scn st' =>
        scn = length (heap st) /\
        SceneInv (this st) (broadcasts st) (heap st) (sceneElements (this st) ci) st')
     (fun _ => False)
     st.
Proof.
  unfold wp.
  destruct (buildScene_start (Some (missionOf ci)) (Some (obstaclesOf ci))
              (Some (telemetryOf ci)) st) as (st1 & -> & Hst1 & Hlen1 & Hscn1).
  assert (Hinv : SceneInv (this st) (broadcasts st) (heap st) [] st1).
  { destruct Hst1 as (Ht & Hb & _ & Hold & _). unfold SceneInv.
    split; [exact Ht |]. split; [exact Hb |]. split.
    - intros l c Hc Hns. destruct (Hold l c Hc) as (c' & Hc' & Hm).
      rewrite (movedOut_not_scene _ _ _ Hm Hns) in Hc'. exact Hc'.
    - exists []. rewrite app_nil_r. split; [exact Hscn1 |].
      split; constructor. }
  change (wp ((addMissionSceneElements_ (missionOf ci) (length (heap st)) ;;;
               addObstacleSceneElements_ (missionOf ci) (Some (obstaclesOf ci))
                 (Some (ci_home_pos ci)) (length (heap st)) ;;;
               addTelemetrySceneElements_ (missionOf ci) (Some (telemetryOf ci))
                 (Some (ci_home_pos ci)) (length (heap st))) ;;;
              ret (length (heap st)))
            (fun scn st' =>
               scn = length (heap st) /\
               SceneInv (this st) (broadcasts st) (heap st) (sceneElements (this st) ci) st')
            (fun _ => False) st1).
  apply wp_bind.
  apply wp_bind. eapply wp_addMissionSceneElements_; [exact Hinv |].
  intros st2 Hinv2. cbn beta.
  apply wp_bind. eapply wp_addObstacleSceneElements_; [exact Hinv2 |].
  intros st3 Hinv3. cbn beta.
  eapply wp_addTelemetrySceneElements_; [exact Hinv3 |].
  intros st4 Hinv4. cbn beta.
  apply wp_ret. split; [reflexivity |].
  unfold sceneElements. cbn [app] in Hinv4. rewrite <- app_assoc in Hinv4. exact Hinv4.
Qed.

Lemma sceneElements_withScene t s ci : sceneElements (withScene t s) ci = sceneElements t ci.
Proof. reflexivity. Qed.

Lemma viewObj_lt (h : Heap) l v : viewObj h l = Some v -> l < length h.
Proof.
  unfold viewObj. destruct (h !! l) as [c |] eqn:Hc; [| discriminate].
  intros _. eapply lookup_lt_Some. exact Hc.
Qed.

(** The rebuild for complete inputs: it returns; the published scene is the
    fresh one; its children are the ground, the lights and then objects that
    look like [sceneElements]; every object that existed and is not a scene
    is unchanged. *)
Lemma rebuildScene_complete ci st :
  exists st' ms,
    rebuildScene (Some (missionOf ci)) (Some (obstaclesOf ci)) (Some (telemetryOf ci)) st
      = (Ok tt, st') /\
    this st' = withScene (this st) (Some (length (heap st))) /\
    broadcasts st' = broadcasts st ++ [mkBroadcast sceneUpdated (Some (length (heap st)))] /\
    keeps (heap st) (heap st') /\
    sceneChildren (heap st') (length (heap st)) = Some (baseObjects (this st) ++ ms) /\
    mapM (viewObj (heap st')) ms = Some (sceneElements (this st) ci) /\
    Forall (fun l => length (heap st) < l < length (heap st')) ms.
Proof.
  pose proof (rebuildScene_cases (Some (missionOf ci)) (Some (obstaclesOf ci))
                (Some (telemetryOf ci)) st) as Hcases.
  pose proof (buildScene_complete ci st) as Hbuild. unfold wp in Hbuild.
  destruct (buildScene (Some (missionOf ci)) (Some (obstaclesOf ci))
              (Some (telemetryOf ci)) st) as [[scn | e] st1]; [| contradiction].
  destruct Hbuild as (-> & Ht & Hb & Hold & ms & Hs & Hviews & Hlocs).
  eexists. exists ms. split; [exact Hcases |].
  cbn [this heap broadcasts].
  split; [rewrite Ht; reflexivity |].
  split; [rewrite Hb; reflexivity |].
  split; [exact Hold |].
  split; [unfold sceneChildren; rewrite Hs; reflexivity |].
  split; [apply mapM_Some; exact Hviews |].
  apply Forall_forall. intros l Hl. split.
  - rewrite Forall_forall in Hlocs. apply Hlocs. exact Hl.
  - apply list_elem_of_lookup in Hl. destruct Hl as [i Hi].
    destruct (Forall2_lookup_l _ _ _ _ _ Hviews Hi) as (v & _ & Hv).
    eapply viewObj_lt. exact Hv.
Qed.

(** *** When a rebuild returns, nothing that was read was absent *)

Lemma bind_Ok_inv {A B} (m : M A) (f : A -> M B) st b st' :
  bind m f st = (Ok b, st') ->
  exists a st1, m st = (Ok a, st1) /\ f a st1 = (Ok b, st').
Proof.
  unfold bind. destruct (m st) as [[a | e] st1]; intros Hrun; [| discriminate].
  exists a, st1. split; [reflexivity | exact Hrun].
Qed.

Lemma prop_Ok_inv {A B} (o : option A) (f : A -> B) st b st' :
  prop o f st = (Ok b, st') -> exists a, o = Some a /\ b = f a.
Proof.
  destruct o as [a |]; intros Hrun; [| discriminate].
  exists a. split; [reflexivity |]. injection Hrun as <- _. reflexivity.
Qed.

Lemma createObject_Ok_inv {A B} `{HasLatLon A} `{HasLatLon B}
    g m (pos : option A) alt (refPos : option B) scl scn st obj st' :
  createObject_ g m pos alt refPos scl scn st = (Ok obj, st') -> is_Some pos.
Proof.
  rewrite createObject_run. cbn zeta.
  destruct refPos, pos; intros Hrun; try discriminate. eexists. reflexivity.
Qed.

Lemma forFrom_Ok_inv body n : forall i st u st',
  forFrom i n body st = (Ok u, st') ->
  forall k, i <= k < i + n -> exists st1 st2, body k st1 = (Ok tt, st2).
Proof.
  induction n as [| n IH]; intros i st u st' Hrun k Hk; [lia |].
  cbn [forFrom] in Hrun. apply bind_Ok_inv in Hrun.
  destruct Hrun as ([] & st1 & Hbody & Hrest).
  destruct (decide (k = i)) as [-> | Hne].
  - exists st, st1. exact Hbody.
  - apply (IH _ _ _ _ Hrest). lia.
Qed.

(** An array all of whose elements are present. *)
Lemma jsArray_all_present {X} (a : jsArray X) :
  (forall i, i < length a -> is_Some (jsIndex a i)) -> exists xs, a = map Some xs.
Proof.
  induction a as [| e a IH]; intros Hall.
  - exists []. reflexivity.
  - destruct (Hall 0 ltac:(cbn; lia)) as [x Hx]. cbn in Hx. subst e.
    destruct IH as [xs ->].
    + intros i Hi. apply (Hall (S i)). cbn. lia.
    + exists (x :: xs). reflexivity.
Qed.

(** Splitting a returning sequence into its first step, which returned,
    and the rest. *)
Tactic Notation "split_run" hyp(H) "as" ident(a) ident(Hstep) :=
  let st := fresh "st" in
  apply bind_Ok_inv in H; destruct H as (a & st & Hstep & H).

Ltac skip_run H :=
  let a := fresh "a" in
  let st := fresh "st" in
  apply bind_Ok_inv in H; destruct H as (a & st & _ & H).

(** A loop whose body reads element [i] of an array returns only if every
    element is present. *)
Lemma loop_all_present {X} (a : jsArray X) (body : nat -> M unit) st u st' :
  for_ (length a) body st = (Ok u, st') ->
  (forall i st1 st2, body i st1 = (Ok tt, st2) -> is_Some (jsIndex a i)) ->
  exists xs, a = map Some xs.
Proof.
  intros Hrun Hbody. apply jsArray_all_present. intros i Hi.
  destruct (forFrom_Ok_inv body (length a) 0 st u st' Hrun i ltac:(lia)) as (st1 & st2 & Hi').
  eapply Hbody. exact Hi'.
Qed.

Lemma addMissionSceneElements_Ok_inv mission scn st u st' :
  addMissionSceneElements_ mission scn st = (Ok u, st') ->
  (exists c1 c2 c3 c4 c5 c6,
     missionComponents mission = [Some c1; Some c2; Some c3; Some c4; Some c5; Some c6]) /\
  (exists grid, search_grid_points mission = Some (map Some grid)) /\
  (exists wps, mission_waypoints mission = Some (map Some wps)).
Proof.
  unfold addMissionSceneElements_. intros Hrun.
  do 4 skip_run Hrun.
  split_run Hrun as u1 Hcomps.
  split_run Hrun as n1 Hgridlen.
  split_run Hrun as u2 Hgrid.
  do 6 skip_run Hrun.
  split_run Hrun as n2 Hwplen.
  split_run Hrun as u3 Hwps.
  clear Hrun.
  split; [| split].
  - destruct (loop_all_present (missionComponents mission) _ _ _ _ Hcomps) as [xs Hxs].
    + intros i sta stb Hbody. do 3 skip_run Hbody. split_run Hbody as obj Hcreate.
      apply createObject_Ok_inv in Hcreate. exact Hcreate.
    + unfold missionComponents in *.
      destruct xs as [| c1 [| c2 [| c3 [| c4 [| c5 [| c6 [| c7 xs]]]]]]]; try discriminate Hxs.
      exists c1, c2, c3, c4, c5, c6. exact Hxs.
  - apply prop_Ok_inv in Hgridlen. destruct Hgridlen as (arr & Harr & ->).
    rewrite Harr in Hgrid.
    destruct (loop_all_present arr _ _ _ _ Hgrid) as [xs Hxs].
    + intros i sta stb Hbody. split_run Hbody as searchPt Hread.
      apply prop_Ok_inv in Hread. destruct Hread as (arr' & Harr' & ->).
      injection Harr' as <-.
      do 3 skip_run Hbody. split_run Hbody as obj Hcreate.
      apply createObject_Ok_inv in Hcreate. exact Hcreate.
    + exists xs. rewrite Harr, Hxs. reflexivity.
  - apply prop_Ok_inv in Hwplen. destruct Hwplen as (arr & Harr & ->).
    rewrite Harr in Hwps.
    destruct (loop_all_present arr _ _ _ _ Hwps) as [xs Hxs].
    + intros i sta stb Hbody. split_run Hbody as waypoint Hread.
      apply prop_Ok_inv in Hread. destruct Hread as (arr' & Harr' & ->).
      injection Harr' as <-.
      do 2 skip_run Hbody. split_run Hbody as alt Halt.
      apply prop_Ok_inv in Halt. destruct Halt as (w & Hw & _).
      rewrite Hw. eexists. reflexivity.
    + exists xs. rewrite Harr, Hxs. reflexivity.
Qed.

Lemma addObstacleSceneElements_Ok_inv mission obstacles refPos scn st u st' :
  addObstacleSceneElements_ mission obstacles refPos scn st = (Ok u, st') ->
  exists sts mvs,
    obstacles = Some (mkObstacles (Some (map Some sts)) (Some (map Some mvs))).
Proof.
  unfold addObstacleSceneElements_. intros Hrun.
  split_run Hrun as a1 Hobst.
  apply prop_Ok_inv in Hobst. destruct Hobst as (o & -> & ->).
  split_run Hrun as n1 Hstlen.
  apply prop_Ok_inv in Hstlen. destruct Hstlen as (arr1 & Harr1 & ->).
  split_run Hrun as u1 Hst.
  split_run Hrun as a2 Hobst2.
  apply prop_Ok_inv in Hobst2. destruct Hobst2 as (o' & Ho' & ->). injection Ho' as <-.
  split_run Hrun as n2 Hmvlen.
  apply prop_Ok_inv in Hmvlen. destruct Hmvlen as (arr2 & Harr2 & ->).
  destruct (loop_all_present arr1 _ _ _ _ Hst) as [sts Hsts].
  { intros i sta stb Hbody. split_run Hbody as arr0 Hobst0.
    apply prop_Ok_inv in Hobst0. destruct Hobst0 as (o0 & Ho0 & ->). injection Ho0 as <-.
    split_run Hbody as obstacle Hread.
    apply prop_Ok_inv in Hread. destruct Hread as (arr' & Harr' & ->).
    rewrite Harr1 in Harr'. injection Harr' as <-.
    do 2 skip_run Hbody. split_run Hbody as alt Halt.
    apply prop_Ok_inv in Halt. destruct Halt as (x & Hx & _).
    rewrite Hx. eexists. reflexivity. }
  destruct (loop_all_present arr2 _ _ _ _ Hrun) as [mvs Hmvs].
  { intros i sta stb Hbody. split_run Hbody as arr0 Hobst0.
    apply prop_Ok_inv in Hobst0. destruct Hobst0 as (o0 & Ho0 & ->). injection Ho0 as <-.
    split_run Hbody as obstacle Hread.
    apply prop_Ok_inv in Hread. destruct Hread as (arr' & Harr' & ->).
    rewrite Harr2 in Harr'. injection Harr' as <-.
    do 2 skip_run Hbody. split_run Hbody as alt Halt.
    apply prop_Ok_inv in Halt. destruct Halt as (x & Hx & _).
    rewrite Hx. eexists. reflexivity. }
  exists sts, mvs. destruct o as [so mo]. cbn in Harr1, Harr2. subst. reflexivity.
Qed.

Lemma addTelemetrySceneElements_Ok_inv mission telemetry refPos scn st u st' :
  addTelemetrySceneElements_ mission telemetry refPos scn st = (Ok u, st') ->
  exists tels, telemetry = Some (map Some tels).
Proof.
  unfold addTelemetrySceneElements_. intros Hrun.
  split_run Hrun as n1 Hlen.
  apply prop_Ok_inv in Hlen. destruct Hlen as (arr & -> & ->).
  destruct (loop_all_present arr _ _ _ _ Hrun) as [tels Htels].
  { intros i sta stb Hbody. split_run Hbody as userTelem Hread.
    apply prop_Ok_inv in Hread. destruct Hread as (arr' & Harr' & ->).
    injection Harr' as <-.
    do 2 skip_run Hbody. split_run Hbody as alt Halt.
    apply prop_Ok_inv in Halt. destruct Halt as (x & Hx & _).
    rewrite Hx. eexists. reflexivity. }
  exists tels. rewrite Htels. reflexivity.
Qed.

(** [rebuildScene] returns only on tolerated arguments. *)
Lemma rebuildScene_Ok_inv mission obstacles telemetry st u st' :
  rebuildScene mission obstacles telemetry st = (Ok u, st') ->
  tolerated mission obstacles telemetry.
Proof.
  intros Hrun. rewrite rebuildScene_buildScene in Hrun.
  split_run Hrun as scn Hbuild. clear Hrun.
  destruct (buildScene_start mission obstacles telemetry st) as (st1 & Heq & _).
  rewrite Heq in Hbuild. unfold addSceneElements in Hbuild.
  destruct mission as [m |]; [| left; exact I].
  destruct (home_pos m) as [home |] eqn:Hhome; [| left; exact Hhome].
  right. cbn [truthy] in Hbuild.
  split_run Hbuild as u1 Helems. clear Hbuild.
  split_run Helems as u2 Hmission.
  split_run Helems as u3 Hobstacles.
  apply addMissionSceneElements_Ok_inv in Hmission.
  destruct Hmission as ((c1 & c2 & c3 & c4 & c5 & c6 & Hcomps) & (grid & Hgrid) & (wps & Hwps)).
  apply addObstacleSceneElements_Ok_inv in Hobstacles.
  destruct Hobstacles as (sts & mvs & ->).
  apply addTelemetrySceneElements_Ok_inv in Helems.
  destruct Helems as (tels & ->).
  exists (mkComplete home c1 c2 c3 c4 c5 c6 grid wps (mission_waypoints_dist_max m)
            sts mvs tels).
  split; [| split; reflexivity].
  destruct m. unfold missionComponents in Hcomps. cbn in *.
  injection Hcomps as -> -> -> -> -> ->. subst. reflexivity.
Qed.

(** ** Absent arguments (C4) *)

(** C4, as stated, fails: with a complete mission, an [obstacles] argument
    that is [null] makes [rebuildScene] throw a [TypeError]. *)
Lemma rebuildScene_null_obstacles_throws :
  fst (rebuildScene (Some (missionOf exampleInputs)) None
         (Some (telemetryOf exampleInputs)) freshService) = Throw TypeError.
Proof. vm_compute. reflexivity. Qed.

(** C4, amended.  [rebuildScene] returns without an error exactly on the
    tolerated arguments: when the mission is absent or has no home position,
    whatever the obstacles and the telemetry are, absent included; and when
    the mission has a home position and nothing that is read is absent (the
    six mission components, the two arrays of the mission and their
    elements, the obstacles, their two arrays and their elements, the
    telemetry and its elements).  On all other arguments it throws a
    [TypeError]. *)
Theorem rebuildScene_no_error mission obstacles telemetry st :
  (fst (rebuildScene mission obstacles telemetry st) = Ok tt <->
   tolerated mission obstacles telemetry) /\
  (fst (rebuildScene mission obstacles telemetry st) = Throw TypeError <->
   ~ tolerated mission obstacles telemetry).
Proof.
  assert (Hok : fst (rebuildScene mission obstacles telemetry st) = Ok tt <->
                tolerated mission obstacles telemetry).
  { split.
    - destruct (rebuildScene mission obstacles telemetry st) as [r st'] eqn:Hrun.
      cbn [fst]. intros ->. eapply rebuildScene_Ok_inv. exact Hrun.
    - intros [Hlacks | (ci & -> & -> & ->)].
      + destruct (rebuildScene_without_home _ obstacles telemetry st Hlacks)
          as (st1 & Hrun & _).
        rewrite Hrun. reflexivity.
      + destruct (rebuildScene_complete ci st) as (st' & ms & Hrun & _).
        rewrite Hrun. reflexivity. }
  split; [exact Hok |].
  destruct (fst (rebuildScene mission obstacles telemetry st)) as [[] | []].
  - split; [discriminate |]. intros Hnot. exfalso. apply Hnot. apply Hok. reflexivity.
  - split; [| reflexivity]. intros _ Htol. apply Hok in Htol. discriminate Htol.
Qed.

Lemma rebuildScene_no_error_witness :
  fst (rebuildScene None None None freshService) = Ok tt.
Proof.
  apply (proj1 (rebuildScene_no_error None None None freshService)).
  left. exact I.
Defined.

(** ** Markers (C5) *)

Lemma Forall_map_all {X Y} (P : Y -> Prop) (f : X -> Y) (xs : list X) :
  (forall x, P (f x)) -> Forall P (map f xs).
Proof. intros HP. induction xs; constructor; auto. Qed.

(** C5, as stated, fails: the marker of a stationary obstacle of radius 1 and
    height 2 ends with the scale (1, 2, 1), which is not uniform.  It is the
    child number 17 of the scene built from the example inputs. *)
Lemma stationary_obstacle_not_uniform :
  exists st' s ch l v,
    rebuildScene (Some (missionOf exampleInputs)) (Some (obstaclesOf exampleInputs))
      (Some (telemetryOf exampleInputs)) freshService = (Ok tt, st') /\
    scene (this st') = Some s /\
    sceneChildren (heap st') s = Some ch /\
    ch !! 17 = Some l /\
    viewObj (heap st') l = Some v /\
    ~ uniformScale v.
Proof.
  destruct (rebuildScene_complete exampleInputs freshService)
    as (st' & ms & Hrun & Ht & _ & _ & Hch & Hviews & _).
  apply mapM_Some in Hviews.
  destruct (Forall2_lookup_r _ _ _ 14
              (cylinderMarker 14 15
                 (localCoords Distance (mkStationary 38 (-77) 1 2) (2 / 2) (mkGps 38 (-76)))
                 1 2)
              Hviews eq_refl) as (l & Hl & Hv).
  exists st', (length (heap freshService)), (baseObjects (this freshService) ++ ms), l.
  eexists.
  split; [exact Hrun |].
  split; [rewrite Ht; reflexivity |].
  split; [exact Hch |].
  split; [exact Hl |].
  split; [exact Hv |].
  unfold uniformScale, cylinderMarker. cbn [vx vy vz]. lra.
Qed.

Lemma sphereMarker_uniform g m p scl : uniformScale (sphereMarker g m p scl).
Proof. split; reflexivity. Qed.

(** C5, amended.  For complete inputs the rebuild returns and the children
    of the published scene, after the ground and the lights, look like
    [sceneElements]: the home marker, the six mission components, the search
    grid points and their line, the waypoints and their line, the stationary
    obstacles, the moving obstacles and the telemetry points.  Every marker
    among them has the position [setObjectPosition_] computes relative to the
    home position, and casts and receives shadows.  Every marker except the
    stationary obstacles is uniformly scaled; a stationary obstacle has the
    scale (radius, height, radius) and is rotated by a quarter turn about
    the first axis. *)
Theorem rebuildScene_markers ci st :
  let t := this st in
  exists st' ms,
    rebuildScene (Some (missionOf ci)) (Some (obstaclesOf ci)) (Some (telemetryOf ci)) st
      = (Ok tt, st') /\
    scene (this st') = Some (length (heap st)) /\
    sceneChildren (heap st') (length (heap st)) = Some (baseObjects t ++ ms) /\
    mapM (viewObj (heap st')) ms = Some (sceneElements t ci) /\
    Forall (placedByConversion (distance_ t) (ci_home_pos ci)) (sceneElements t ci) /\
    Forall castsAndReceivesShadow (sceneElements t ci) /\
    Forall uniformScale (missionElements t ci ++ movingMarkers t ci ++ telemetryMarkers t ci) /\
    Forall2 (fun o v => exists g m p,
               v = VMesh g m p
                     (mkVector3 (cylinder_radius o) (cylinder_height o) (cylinder_radius o))
                     (mkVector3 (PI / 2) 0 0) true true)
            (ci_stationary_obstacles ci) (stationaryMarkers t ci).
Proof.
  cbn zeta.
  destruct (rebuildScene_complete ci st) as (st' & ms & Hrun & Ht & _ & _ & Hch & Hviews & _).
  exists st', ms.
  split; [exact Hrun |].
  split; [rewrite Ht; reflexivity |].
  split; [exact Hch |].
  split; [exact Hviews |].
  unfold sceneElements, missionElements, obstacleElements, homeMarker, componentMarkers,
    searchGridMarkers, searchGridLine, waypointMarkers, waypointLine, stationaryMarkers,
    movingMarkers, telemetryMarkers.
  split; [| split; [| split]].
  - repeat first
      [ apply Forall_app; split
      | apply Forall_cons; split
      | apply Forall_nil
      | apply Forall_map_all; intros ? ].
    all: first [ exact I | do 3 eexists; reflexivity ].
  - repeat first
      [ apply Forall_app; split
      | apply Forall_cons; split
      | apply Forall_nil
      | apply Forall_map_all; intros ? ].
    all: first [ split; reflexivity | exact I ].
  - repeat first
      [ apply Forall_app; split
      | apply Forall_cons; split
      | apply Forall_nil
      | apply Forall_map_all; intros ? ].
    all: first [ apply sphereMarker_uniform | exact I ].
  - induction (ci_stationary_obstacles ci) as [| o os IH]; constructor; [| exact IH].
    eexists. eexists. eexists. reflexivity.
Qed.

(** ** The connecting lines (C6, C7) *)

Lemma segments_flat_map {X} (f : X -> list Vector3) (g : X -> Vector3 * Vector3)
    (xs : list X) :
  (forall x, x ∈ xs -> f x = [fst (g x); snd (g x)]) ->
  segments (flat_map f xs) = map g xs.
Proof.
  induction xs as [| x xs IH]; intros Hf; [reflexivity |].
  cbn [flat_map map]. rewrite (Hf x) by (left).
  cbn [app segments]. rewrite IH.
  - destruct (g x). reflexivity.
  - intros y Hy. apply Hf. right. exact Hy.
Qed.

(** The search grid line has one segment per grid point, from the point to
    the next one, cyclically. *)
Lemma searchGridLine_segments t ci :
  let grid := ci_search_grid_points ci in
  let pts := flat_map (searchGridSegment t ci) (seq 0 (length grid)) in
  length (segments pts) = length grid /\
  forall i a b,
    grid !! i = Some a ->
    grid !! ((i + 1) mod length grid) = Some b ->
    segments pts !! i =
      Some (localCoords (distance_ t) a (searchGridPtRadius_ t) (ci_home_pos ci),
            localCoords (distance_ t) b (searchGridPtRadius_ t) (ci_home_pos ci)).
Proof.
  intros grid pts.
  pose (g := fun i =>
    match grid !! i, grid !! ((i + 1) mod length grid) with
    | Some a, Some b =>
        (localCoords (distance_ t) a (searchGridPtRadius_ t) (ci_home_pos ci),
         localCoords (distance_ t) b (searchGridPtRadius_ t) (ci_home_pos ci))
    | _, _ => (zeroVector, zeroVector)
    end).
  assert (Hsegs : segments pts = map g (seq 0 (length grid))).
  { apply segments_flat_map. intros i Hi.
    apply elem_of_seq in Hi.
    destruct (lookup_lt_is_Some_2 grid i ltac:(lia)) as [a Ha].
    assert (Hj : (i + 1) mod length grid < length grid)
      by (apply Nat.mod_upper_bound; lia).
    destruct (lookup_lt_is_Some_2 grid _ Hj) as [b Hb].
    unfold searchGridSegment, g. fold grid. rewrite Ha, Hb. reflexivity. }
  rewrite Hsegs. split.
  - rewrite length_map, length_seq. reflexivity.
  - intros i a b Ha Hb.
    assert (Hi : i < length grid) by (eapply lookup_lt_Some; exact Ha).
    change (map g (seq 0 (length grid))) with (g <$> seq 0 (length grid)).
    rewrite list_lookup_fmap, lookup_seq_lt by exact Hi.
    cbn [fmap option_fmap option_map Nat.add]. unfold g. rewrite Ha, Hb. reflexivity.
Qed.

(** The waypoint line has one segment per pair of consecutive waypoints. *)
Lemma waypointLine_segments t ci :
  let wps := ci_mission_waypoints ci in
  let pts := flat_map (waypointSegment t ci) (seq 0 (length wps - 1)) in
  length (segments pts) = length wps - 1 /\
  forall i a b,
    wps !! i = Some a ->
    wps !! (i + 1) = Some b ->
    segments pts !! i =
      Some (localCoords (distance_ t) a (altitude_msl a) (ci_home_pos ci),
            localCoords (distance_ t) b (altitude_msl b) (ci_home_pos ci)).
Proof.
  intros wps pts.
  pose (g := fun i =>
    match wps !! i, wps !! (i + 1) with
    | Some a, Some b =>
        (localCoords (distance_ t) a (altitude_msl a) (ci_home_pos ci),
         localCoords (distance_ t) b (altitude_msl b) (ci_home_pos ci))
    | _, _ => (zeroVector, zeroVector)
    end).
  assert (Hsegs : segments pts = map g (seq 0 (length wps - 1))).
  { apply segments_flat_map. intros i Hi.
    apply elem_of_seq in Hi.
    destruct (lookup_lt_is_Some_2 wps i ltac:(lia)) as [a Ha].
    destruct (lookup_lt_is_Some_2 wps (i + 1) ltac:(lia)) as [b Hb].
    unfold waypointSegment, g. fold wps. rewrite Ha, Hb. reflexivity. }
  rewrite Hsegs. split.
  - rewrite length_map, length_seq. reflexivity.
  - intros i a b Ha Hb.
    assert (Hi : i + 1 < length wps) by (eapply lookup_lt_Some; exact Hb).
    change (map g (seq 0 (length wps - 1))) with (g <$> seq 0 (length wps - 1)).
    rewrite list_lookup_fmap, lookup_seq_lt by lia.
    cbn [fmap option_fmap option_map Nat.add]. unfold g. rewrite Ha, Hb. reflexivity.
Qed.

Lemma lookup_S {X} (x : X) (xs : list X) i : (x :: xs) !! S i = xs !! i.
Proof. reflexivity. Qed.

Lemma sceneElements_searchGridLine t ci :
  sceneElements t ci !! (7 + length (ci_search_grid_points ci)) = Some (searchGridLine t ci).
Proof.
  unfold sceneElements, missionElements, componentMarkers.
  cbn [map ci_components app Nat.add].
  rewrite !lookup_S, <- !app_assoc.
  apply list_lookup_middle. unfold searchGridMarkers. rewrite length_map. reflexivity.
Qed.

Lemma sceneElements_waypointLine t ci :
  sceneElements t ci
    !! (8 + length (ci_search_grid_points ci) + length (ci_mission_waypoints ci))
  = Some (waypointLine t ci).
Proof.
  unfold sceneElements, missionElements, componentMarkers.
  cbn [map ci_components app Nat.add].
  rewrite !lookup_S, <- !app_assoc.
  rewrite lookup_app_r by (unfold searchGridMarkers; rewrite length_map; lia).
  unfold searchGridMarkers at 1. rewrite length_map.
  replace (S (length (ci_search_grid_points ci) + length (ci_mission_waypoints ci))
           - length (ci_search_grid_points ci))
    with (S (length (ci_mission_waypoints ci))) by lia.
  cbn [app]. rewrite lookup_S, <- !app_assoc.
  apply list_lookup_middle. unfold waypointMarkers. rewrite length_map. reflexivity.
Qed.

(** C6.  For a complete mission with N search grid points the rebuild
    returns, and the search grid line of the published scene (the child that
    follows the ground, the lights, the home marker, the six components and
    the N grid markers) has exactly N segments; segment [i] goes from grid
    point [i] to grid point [(i + 1) mod N], the last one back to the
    first. *)
Theorem searchGridLine_closed_loop ci st :
  let t := this st in
  let grid := ci_search_grid_points ci in
  exists st' ms line pts,
    rebuildScene (Some (missionOf ci)) (Some (obstaclesOf ci)) (Some (telemetryOf ci)) st
      = (Ok tt, st') /\
    scene (this st') = Some (length (heap st)) /\
    sceneChildren (heap st') (length (heap st)) = Some (baseObjects t ++ ms) /\
    ms !! (7 + length grid) = Some line /\
    viewObj (heap st') line = Some (VLine pts (searchGridPtLineMaterial_ t)) /\
    length (segments pts) = length grid /\
    forall i a b,
      grid !! i = Some a ->
      grid !! ((i + 1) mod length grid) = Some b ->
      segments pts !! i =
        Some (localCoords (distance_ t) a (searchGridPtRadius_ t) (ci_home_pos ci),
              localCoords (distance_ t) b (searchGridPtRadius_ t) (ci_home_pos ci)).
Proof.
  cbn zeta.
  destruct (rebuildScene_complete ci st) as (st' & ms & Hrun & Ht & _ & _ & Hch & Hviews & _).
  apply mapM_Some in Hviews.
  destruct (Forall2_lookup_r _ _ _ _ _ Hviews (sceneElements_searchGridLine (this st) ci))
    as (line & Hline & Hview).
  destruct (searchGridLine_segments (this st) ci) as [Hlen Hseg].
  exists st', ms, line. eexists.
  split; [exact Hrun |].
  split; [rewrite Ht; reflexivity |].
  split; [exact Hch |].
  split; [exact Hline |].
  split; [exact Hview |].
  split; [exact Hlen | exact Hseg].
Qed.

Lemma searchGridLine_closed_loop_witness :
  exists st' (ms : list loc) line pts,
    rebuildScene (Some (missionOf exampleInputs)) (Some (obstaclesOf exampleInputs))
      (Some (telemetryOf exampleInputs)) freshService = (Ok tt, st') /\
    ms !! 10 = Some line /\
    viewObj (heap st') line = Some (VLine pts 11) /\
    length (segments pts) = 3 /\
    segments pts !! 2 =
      Some (localCoords Distance (mkGps 39 (-76)) 20 (mkGps 38 (-76)),
            localCoords Distance (mkGps 38 (-77)) 20 (mkGps 38 (-76))).
Proof.
  destruct (searchGridLine_closed_loop exampleInputs freshService)
    as (st' & ms & line & pts & Hrun & _ & _ & Hline & Hview & Hlen & Hseg).
  exists st', ms, line, pts.
  split; [exact Hrun |].
  split; [exact Hline |].
  split; [exact Hview |].
  split; [exact Hlen |].
  exact (Hseg 2 (mkGps 39 (-76)) (mkGps 38 (-77)) eq_refl eq_refl).
Defined.

(** C7.  For a complete mission with N waypoints the rebuild returns, and
    the waypoint line of the published scene (the child that follows the
    search grid line and the N waypoint markers) has exactly N - 1 segments
    (none when there is no waypoint); segment [i] goes from waypoint [i] to
    waypoint [i + 1], so no segment starts at the last waypoint. *)
Theorem waypointLine_open_path ci st :
  let t := this st in
  let wps := ci_mission_waypoints ci in
  exists st' ms line pts,
    rebuildScene (Some (missionOf ci)) (Some (obstaclesOf ci)) (Some (telemetryOf ci)) st
      = (Ok tt, st') /\
    scene (this st') = Some (length (heap st)) /\
    sceneChildren (heap st') (length (heap st)) = Some (baseObjects t ++ ms) /\
    ms !! (8 + length (ci_search_grid_points ci) + length wps) = Some line /\
    viewObj (heap st') line = Some (VLine pts (missionWaypointLineMaterial_ t)) /\
    length (segments pts) = length wps - 1 /\
    (forall i a b,
       wps !! i = Some a ->
       wps !! (i + 1) = Some b ->
       segments pts !! i =
         Some (localCoords (distance_ t) a (altitude_msl a) (ci_home_pos ci),
               localCoords (distance_ t) b (altitude_msl b) (ci_home_pos ci))) /\
    segments pts !! (length wps - 1) = None.
Proof.
  cbn zeta.
  destruct (rebuildScene_complete ci st) as (st' & ms & Hrun & Ht & _ & _ & Hch & Hviews & _).
  apply mapM_Some in Hviews.
  destruct (Forall2_lookup_r _ _ _ _ _ Hviews (sceneElements_waypointLine (this st) ci))
    as (line & Hline & Hview).
  destruct (waypointLine_segments (this st) ci) as [Hlen Hseg].
  exists st', ms, line. eexists.
  split; [exact Hrun |].
  split; [rewrite Ht; reflexivity |].
  split; [exact Hch |].
  split; [exact Hline |].
  split; [exact Hview |].
  split; [exact Hlen |].
  split; [exact Hseg |].
  apply lookup_ge_None_2. rewrite Hlen. lia.
Qed.

Lemma waypointLine_open_path_witness :
  exists st' (ms : list loc) line pts,
    rebuildScene (Some (missionOf exampleInputs)) (Some (obstaclesOf exampleInputs))
      (Some (telemetryOf exampleInputs)) freshService = (Ok tt, st') /\
    ms !! 13 = Some line /\
    viewObj (heap st') line = Some (VLine pts 13) /\
    length (segments pts) = 1 /\
    segments pts !! 0 =
      Some (localCoords Distance (mkWaypoint 38 (-77) 100) 100 (mkGps 38 (-76)),
            localCoords Distance (mkWaypoint 39 (-76) 200) 200 (mkGps 38 (-76))) /\
    segments pts !! 1 = None.
Proof.
  destruct (waypointLine_open_path exampleInputs freshService)
    as (st' & ms & line & pts & Hrun & _ & _ & Hline & Hview & Hlen & Hseg & Hlast).
  exists st', ms, line, pts.
  split; [exact Hrun |].
  split; [exact Hline |].
  split; [exact Hview |].
  split; [exact Hlen |].
  split; [| exact Hlast].
  exact (Hseg 0 (mkWaypoint 38 (-77) 100) (mkWaypoint 39 (-76) 200) eq_refl eq_refl).
Defined.

(** ** Rebuilding twice (C8) *)

(** C8.  When a rebuild returns, a second rebuild with the same arguments
    returns too; the two published scenes are different objects, and so are
    their markers and lines; the two scenes start with the same ground and
    lights and continue with the same number of markers and lines, which
    look the same, positions included. *)
Theorem rebuildScene_twice mission obstacles telemetry st st1 :
  rebuildScene mission obstacles telemetry st = (Ok tt, st1) ->
  exists st2 s1 s2 ms1 ms2 vs,
    rebuildScene mission obstacles telemetry st1 = (Ok tt, st2) /\
    scene (this st1) = Some s1 /\
    scene (this st2) = Some s2 /\
    s1 <> s2 /\
    sceneChildren (heap st1) s1 = Some (baseObjects (this st) ++ ms1) /\
    sceneChildren (heap st2) s2 = Some (baseObjects (this st) ++ ms2) /\
    mapM (viewObj (heap st1)) ms1 = Some vs /\
    mapM (viewObj (heap st2)) ms1 = Some vs /\
    mapM (viewObj (heap st2)) ms2 = Some vs /\
    length ms1 = length ms2 /\
    (forall l, l ∈ ms1 -> l ∉ ms2).
Proof.
  intros Hrun1.
  destruct (rebuildScene_Ok_inv _ _ _ _ _ _ Hrun1) as [Hlacks | (ci & -> & -> & ->)].
  - destruct (rebuildScene_without_home _ obstacles telemetry st Hlacks)
      as (sta & Hrun1' & _ & Hlena & Hscna).
    rewrite Hrun1 in Hrun1'. injection Hrun1' as Hst1.
    destruct (rebuildScene_without_home _ obstacles telemetry st1 Hlacks)
      as (stb & Hrun2 & _ & Hlenb & Hscnb).
    assert (Hh1 : heap st1 = heap sta) by (rewrite Hst1; reflexivity).
    assert (Ht1 : this st1 = withScene (this st) (Some (length (heap st))))
      by (rewrite Hst1; reflexivity).
    eexists. exists (length (heap st)), (length (heap st1)), [], [], [].
    split; [exact Hrun2 |].
    cbn [this heap scene withScene].
    split; [rewrite Ht1; reflexivity |].
    split; [reflexivity |].
    split; [rewrite Hh1; lia |].
    rewrite app_nil_r. unfold sceneChildren.
    split; [rewrite Hh1, Hscna; reflexivity |].
    split; [rewrite Hscnb, Ht1; reflexivity |].
    split; [reflexivity |].
    split; [reflexivity |].
    split; [reflexivity |].
    split; [reflexivity |].
    intros l Hl. inversion Hl.
  - destruct (rebuildScene_complete ci st)
      as (st1' & ms1 & Hrun1' & Ht1 & _ & _ & Hch1 & Hviews1 & Hlocs1).
    rewrite Hrun1 in Hrun1'. injection Hrun1' as <-.
    destruct (rebuildScene_complete ci st1)
      as (st2 & ms2 & Hrun2 & Ht2 & _ & Hold2 & Hch2 & Hviews2 & Hlocs2).
    rewrite Ht1 in Hch2, Hviews2. rewrite sceneElements_withScene in Hviews2.
    assert (Hgrow : length (heap st) < length (heap st1)).
    { unfold sceneChildren in Hch1.
      destruct (heap st1 !! length (heap st)) as [c |] eqn:Hc; [| discriminate].
      eapply lookup_lt_Some. exact Hc. }
    exists st2, (length (heap st)), (length (heap st1)), ms1, ms2,
      (sceneElements (this st) ci).
    split; [exact Hrun2 |].
    split; [rewrite Ht1; reflexivity |].
    split; [rewrite Ht2; reflexivity |].
    split; [lia |].
    split; [exact Hch1 |].
    split; [exact Hch2 |].
    split; [exact Hviews1 |].
    split.
    { apply mapM_Some. apply mapM_Some in Hviews1.
      eapply views_keep; [exact Hold2 | exact Hviews1]. }
    split; [exact Hviews2 |].
    split.
    + apply mapM_Some in Hviews1, Hviews2.
      apply Forall2_length in Hviews1, Hviews2. congruence.
    + intros l Hl1 Hl2.
      rewrite Forall_forall in Hlocs1, Hlocs2.
      apply Hlocs1 in Hl1. apply Hlocs2 in Hl2. lia.
Qed.

Lemma rebuildScene_twice_witness :
  exists st1 st2 s1 s2 (ms1 ms2 : list loc) vs,
    rebuildScene (Some (missionOf exampleInputs)) (Some (obstaclesOf exampleInputs))
      (Some (telemetryOf exampleInputs)) freshService = (Ok tt, st1) /\
    rebuildScene (Some (missionOf exampleInputs)) (Some (obstaclesOf exampleInputs))
      (Some (telemetryOf exampleInputs)) st1 = (Ok tt, st2) /\
    scene (this st1) = Some s1 /\
    scene (this st2) = Some s2 /\
    s1 <> s2 /\
    mapM (viewObj (heap st1)) ms1 = Some vs /\
    mapM (viewObj (heap st2)) ms2 = Some vs /\
    length ms1 = length ms2.
Proof.
  assert (Hreturns :
    fst (rebuildScene (Some (missionOf exampleInputs)) (Some (obstaclesOf exampleInputs))
           (Some (telemetryOf exampleInputs)) freshService) = Ok tt)
    by (vm_compute; reflexivity).
  destruct (rebuildScene (Some (missionOf exampleInputs)) (Some (obstaclesOf exampleInputs))
              (Some (telemetryOf exampleInputs)) freshService) as [r st1] eqn:Hrun.
  cbn [fst] in Hreturns. subst r.
  destruct (rebuildScene_twice (Some (missionOf exampleInputs))
              (Some (obstaclesOf exampleInputs)) (Some (telemetryOf exampleInputs))
              freshService st1 Hrun)
    as (st2 & s1 & s2 & ms1 & ms2 & vs & Hrun2 & Hs1 & Hs2 & Hne & _ & _ & Hv1 & _ & Hv2
        & Hlen & _).
  exists st1, st2, s1, s2, ms1, ms2, vs.
  split; [reflexivity |].
  split; [exact Hrun2 |].
  split; [exact Hs1 |].
  split; [exact Hs2 |].
  split; [exact Hne |].
  split; [exact Hv1 |].
  split; [exact Hv2 | exact Hlen].
Defined.

(** ** Further properties of the methods *)

(** *** [createObject_] and [setObjectPosition_] on their own *)

(** X1.  Given a scene and a position and a reference that are present,
    [createObject_] returns a new object, which is from then on the last
    child of the scene: a mesh with the given geometry and material, placed
    by [setObjectPosition_], scaled uniformly by [scale], that casts and
    receives shadows.  The other children of the scene stay in place, and
    nothing else changes: not the fields of the service, not the broadcast
    log, no other object. *)
Theorem createObject_adds_marker {A B} `{HasLatLon A} `{HasLatLon B}
    (g m : loc) (pos : A) (alt : R) (refPos : B) (scl : R) (scn : loc)
    (st : State) (ch : list loc) :
  heap st !! scn = Some (OScene ch) ->
  exists obj st',
    createObject_ g m (Some pos) alt (Some refPos) scl scn st = (Ok obj, st') /\
    heap st !! obj = None /\
    sceneChildren (heap st') scn = Some (ch ++ [obj]) /\
    viewObj (heap st') obj
      = Some (sphereMarker g m (localCoords (distance_ (this st)) pos alt refPos) scl) /\
    this st' = this st /\
    broadcasts st' = broadcasts st /\
    (forall l c, l <> scn -> heap st !! l = Some c -> heap st' !! l = Some c).
Proof.
  intros Hscn.
  assert (Hlt : scn < length (heap st)) by (eapply lookup_lt_Some; exact Hscn).
  exists (S (length (heap st))). eexists.
  split.
  { rewrite createObject_run. cbn zeta.
    rewrite (lookup_app_l_Some _ _ _ _ Hscn). reflexivity. }
  cbn [heap this broadcasts setHeap].
  split; [apply lookup_ge_None_2; lia |].
  split.
  { unfold sceneChildren.
    rewrite list_lookup_insert_eq by (rewrite length_app; lia). reflexivity. }
  split.
  { unfold viewObj, vectorAt.
    rewrite list_lookup_insert_ne by lia. rewrite lookup_new1. cbn [position].
    rewrite list_lookup_insert_ne by lia. rewrite lookup_new0. reflexivity. }
  split; [reflexivity |]. split; [reflexivity |].
  intros l c Hne Hc.
  rewrite list_lookup_insert_ne by congruence.
  apply lookup_app_l_Some. exact Hc.
Qed.

Lemma createObject_adds_marker_witness :
  heap freshWithScene !! 17 = Some (OScene []) /\
  exists obj st',
    createObject_ 7 9 (Some (mkGps 39 (-77))) 20 (Some (mkGps 38 (-76))) 20 17
      freshWithScene = (Ok obj, st') /\
    sceneChildren (heap st') 17 = Some [obj] /\
    viewObj (heap st') obj
      = Some (sphereMarker 7 9
                (localCoords Distance (mkGps 39 (-77)) 20 (mkGps 38 (-76))) 20).
Proof.
  split; [reflexivity |].
  destruct (createObject_adds_marker 7 9 (mkGps 39 (-77)) 20 (mkGps 38 (-76)) 20 17
              freshWithScene [] eq_refl)
    as (obj & st' & Hrun & _ & Hch & Hview & _).
  exists obj, st'.
  split; [exact Hrun |]. split; [exact Hch | exact Hview].
Defined.

(** X2.  With an absent position, or an absent reference position,
    [createObject_] throws a [TypeError].  The mesh it had already created
    is not added to the scene: the children of the scene, every object that
    existed, the fields of the service and the broadcast log are as they
    were. *)
Theorem createObject_absent_position {A B} `{HasLatLon A} `{HasLatLon B}
    (g m : loc) (pos : option A) (alt : R) (refPos : option B) (scl : R) (scn : loc)
    (st : State) :
  pos = None \/ refPos = None ->
  exists st',
    createObject_ g m pos alt refPos scl scn st = (Throw TypeError, st') /\
    sceneChildren (heap st') scn = sceneChildren (heap st) scn /\
    (forall l c, heap st !! l = Some c -> heap st' !! l = Some c) /\
    this st' = this st /\
    broadcasts st' = broadcasts st.
Proof.
  intros Habsent. eexists. split.
  { rewrite createObject_run. cbn zeta.
    destruct Habsent as [-> | ->]; [destruct refPos | ]; reflexivity. }
  cbn [heap this broadcasts setHeap].
  split; [| split; [| split; reflexivity]].
  - unfold sceneChildren.
    destruct (heap st !! scn) as [c |] eqn:Hc.
    + rewrite (lookup_app_l_Some _ _ _ _ Hc). reflexivity.
    + apply lookup_ge_None_1 in Hc.
      rewrite lookup_app_r by exact Hc.
      destruct (scn - length (heap st)) as [| [| k]]; reflexivity.
  - intros l c Hc. apply lookup_app_l_Some. exact Hc.
Qed.

Lemma createObject_absent_position_witness :
  exists st',
    createObject_ 7 9 (@None GpsPosition) 20 (Some (mkGps 38 (-76))) 20 17 freshWithScene
      = (Throw TypeError, st') /\
    sceneChildren (heap st') 17 = Some [].
Proof.
  destruct (createObject_absent_position 7 9 (@None GpsPosition) 20 (Some (mkGps 38 (-76)))
              20 17 freshWithScene (or_introl eq_refl))
    as (st' & Hrun & Hch & _).
  exists st'. split; [exact Hrun |]. rewrite Hch. reflexivity.
Defined.

(** X3.  With an absent position, or an absent reference position,
    [setObjectPosition_] throws a [TypeError] before it assigns anything:
    the state, the target vector included, is unchanged. *)
Theorem setObjectPosition_absent {A B} `{HasLatLon A} `{HasLatLon B}
    (pos : option A) (alt : R) (refPos : option B) (objPos : loc) (st : State) :
  pos = None \/ refPos = None ->
  setObjectPosition_ pos alt refPos objPos st = (Throw TypeError, st).
Proof.
  intros Habsent. rewrite setObjectPosition_run.
  destruct Habsent as [-> | ->]; [destruct refPos |]; reflexivity.
Qed.

Lemma setObjectPosition_absent_witness :
  setObjectPosition_ (Some (mkGps 1 2)) 30 (@None GpsPosition) 17 freshWithVector
    = (Throw TypeError, freshWithVector).
Proof.
  apply (setObjectPosition_absent (Some (mkGps 1 2)) 30 (@None GpsPosition) 17
           freshWithVector).
  right. reflexivity.
Defined.

(** X4.  [setObjectPosition_] assigns all three coordinates: what the vector
    held before does not matter, and of two calls in a row on the same
    vector only the second one shows. *)
Theorem setObjectPosition_overwrites {A B C D}
    `{HasLatLon A} `{HasLatLon B} `{HasLatLon C} `{HasLatLon D}
    (pos1 : A) (alt1 : R) (ref1 : B) (pos2 : C) (alt2 : R) (ref2 : D)
    (objPos : loc) (st : State) (v0 : Vector3) :
  heap st !! objPos = Some (OVector3 v0) ->
  (setObjectPosition_ (Some pos1) alt1 (Some ref1) objPos ;;;
   setObjectPosition_ (Some pos2) alt2 (Some ref2) objPos) st
  = setObjectPosition_ (Some pos2) alt2 (Some ref2) objPos st /\
  forall v1,
    setObjectPosition_ (Some pos2) alt2 (Some ref2) objPos
      (setHeap st (<[objPos := OVector3 v1]> (heap st)))
    = setObjectPosition_ (Some pos2) alt2 (Some ref2) objPos st.
Proof.
  intros Hcell.
  assert (Hlt : objPos < length (heap st)) by (eapply lookup_lt_Some; exact Hcell).
  assert (Hover : forall v1,
    setObjectPosition_ (Some pos2) alt2 (Some ref2) objPos
      (setHeap st (<[objPos := OVector3 v1]> (heap st)))
    = setObjectPosition_ (Some pos2) alt2 (Some ref2) objPos st).
  { intros v1. rewrite !setObjectPosition_run, Hcell. cbn [heap setHeap this].
    rewrite list_lookup_insert_eq by exact Hlt.
    rewrite setHeap_setHeap, list_insert_insert_eq. reflexivity. }
  split; [| exact Hover].
  rewrite bind_run, (setObjectPosition_run (Some pos1)), Hcell.
  apply Hover.
Qed.

Lemma setObjectPosition_overwrites_witness :
  (setObjectPosition_ (Some (mkGps 1 2)) 30 (Some (mkGps 3 4)) 17 ;;;
   setObjectPosition_ (Some (mkGps 5 6)) 40 (Some (mkGps 3 4)) 17) freshWithVector
  = setObjectPosition_ (Some (mkGps 5 6)) 40 (Some (mkGps 3 4)) 17 freshWithVector.
Proof.
  apply (setObjectPosition_overwrites (mkGps 1 2) 30 (mkGps 3 4) (mkGps 5 6) 40 (mkGps 3 4)
           17 freshWithVector zeroVector eq_refl).
Defined.

(** *** The content of a rebuilt scene *)

Lemma localCoords_self {A} `{HasLatLon A} d (p : A) alt :
  localCoords d p alt p = mkVector3 0 0 alt.
Proof.
  unfold localCoords. rewrite !Rminus_diag, Math_sign_zero, !Rmult_0_l. reflexivity.
Qed.

Lemma sceneElements_homeMarker t ci : sceneElements t ci !! 0 = Some (homeMarker t ci).
Proof. reflexivity. Qed.

Lemma sceneElements_searchGridMarker t ci i p :
  ci_search_grid_points ci !! i = Some p ->
  sceneElements t ci !! (7 + i)
  = Some (sphereMarker (searchGridPtGeometry_ t) (searchGridPtMaterial_ t)
            (localCoords (distance_ t) p (searchGridPtRadius_ t) (ci_home_pos ci))
            (searchGridPtRadius_ t)).
Proof.
  intros Hp.
  unfold sceneElements, missionElements, componentMarkers.
  cbn [map ci_components app Nat.add].
  rewrite !lookup_S, <- !app_assoc.
  rewrite lookup_app_l
    by (unfold searchGridMarkers; rewrite length_map; eapply lookup_lt_Some; exact Hp).
  unfold searchGridMarkers.
  match goal with
  | |- map ?f ?xs !! _ = _ => change (map f xs) with (f <$> xs)
  end.
  rewrite list_lookup_fmap, Hp. reflexivity.
Qed.

Lemma sceneElements_waypointMarker t ci i w :
  ci_mission_waypoints ci !! i = Some w ->
  sceneElements t ci !! (8 + length (ci_search_grid_points ci) + i)
  = Some (sphereMarker (missionWaypointGeometry_ t) (missionWaypointMaterial_ t)
            (localCoords (distance_ t) w (altitude_msl w) (ci_home_pos ci))
            (ci_mission_waypoints_dist_max ci)).
Proof.
  intros Hw.
  unfold sceneElements, missionElements, componentMarkers.
  cbn [map ci_components app Nat.add].
  rewrite !lookup_S, <- !app_assoc.
  rewrite lookup_app_r by (unfold searchGridMarkers; rewrite length_map; lia).
  unfold searchGridMarkers at 1. rewrite length_map.
  replace (S (length (ci_search_grid_points ci) + i) - length (ci_search_grid_points ci))
    with (S i) by lia.
  cbn [app]. rewrite lookup_S, <- !app_assoc.
  rewrite lookup_app_l
    by (unfold waypointMarkers; rewrite length_map; eapply lookup_lt_Some; exact Hw).
  unfold waypointMarkers.
  match goal with
  | |- map ?f ?xs !! _ = _ => change (map f xs) with (f <$> xs)
  end.
  rewrite list_lookup_fmap, Hw. reflexivity.
Qed.

Lemma sceneElements_length t ci :
  length (sceneElements t ci)
  = 9 + length (ci_search_grid_points ci) + length (ci_mission_waypoints ci)
      + length (ci_stationary_obstacles ci) + length (ci_moving_obstacles ci)
      + length (ci_telemetry ci).
Proof.
  unfold sceneElements, missionElements, obstacleElements, componentMarkers,
    searchGridMarkers, waypointMarkers, stationaryMarkers, movingMarkers, telemetryMarkers.
  repeat first [rewrite length_app | rewrite length_map | rewrite length_cons].
  cbn [length ci_components]. lia.
Qed.

(** The view of a child of the rebuilt scene, read off [sceneElements]. *)
Lemma child_view (h : Heap) (ms : list loc) (vs : list ObjView) i v :
  mapM (viewObj h) ms = Some vs ->
  vs !! i = Some v ->
  exists l, ms !! i = Some l /\ viewObj h l = Some v.
Proof.
  intros Hviews Hv. apply mapM_Some in Hviews.
  exact (Forall2_lookup_r _ _ _ _ _ Hviews Hv).
Qed.

Lemma viewPosition_sphereMarker (h : Heap) l g m p scl :
  viewObj h l = Some (sphereMarker g m p scl) -> viewPosition h l = Some p.
Proof. unfold viewPosition. intros ->. reflexivity. Qed.

(** X5.  In the scene rebuilt from complete arguments the first child after
    the ground and the lights is the home marker, and it sits at the origin
    of the local frame, at the height of its radius: its position is
    (0, 0, missionComponentRadius_), whatever the Distance service
    computes. *)
Theorem home_marker_at_origin ci st :
  let t := this st in
  exists st' ms home,
    rebuildScene (Some (missionOf ci)) (Some (obstaclesOf ci)) (Some (telemetryOf ci)) st
      = (Ok tt, st') /\
    sceneChildren (heap st') (length (heap st)) = Some (baseObjects t ++ ms) /\
    ms !! 0 = Some home /\
    viewObj (heap st') home
      = Some (sphereMarker (homePosGeometry_ t) (homePosMaterial_ t)
                (mkVector3 0 0 (missionComponentRadius_ t)) (missionComponentRadius_ t)).
Proof.
  cbn zeta.
  destruct (rebuildScene_complete ci st) as (st' & ms & Hrun & _ & _ & _ & Hch & Hviews & _).
  destruct (child_view _ _ _ 0 _ Hviews (sceneElements_homeMarker (this st) ci))
    as (home & Hhome & Hview).
  exists st', ms, home.
  split; [exact Hrun |]. split; [exact Hch |]. split; [exact Hhome |].
  rewrite Hview. unfold homeMarker. rewrite localCoords_self. reflexivity.
Qed.

(** X6.  The search grid line joins the markers of the search grid points:
    for complete arguments with N grid points, segment [i] of the line
    starts at the position of the marker of grid point [i] and ends at the
    position of the marker of grid point [(i + 1) mod N].  So every segment
    starts where the previous one ends, and the last one ends where the
    first one starts. *)
Theorem searchGridLine_joins_markers ci st :
  let t := this st in
  let n := length (ci_search_grid_points ci) in
  exists st' ms line pts,
    rebuildScene (Some (missionOf ci)) (Some (obstaclesOf ci)) (Some (telemetryOf ci)) st
      = (Ok tt, st') /\
    sceneChildren (heap st') (length (heap st)) = Some (baseObjects t ++ ms) /\
    ms !! (7 + n) = Some line /\
    viewObj (heap st') line = Some (VLine pts (searchGridPtLineMaterial_ t)) /\
    forall i, i < n ->
      exists marker next p q,
        ms !! (7 + i) = Some marker /\
        ms !! (7 + (i + 1) mod n) = Some next /\
        viewPosition (heap st') marker = Some p /\
        viewPosition (heap st') next = Some q /\
        segments pts !! i = Some (p, q) /\
        exists q', segments pts !! ((i + 1) mod n) = Some (q, q').
Proof.
  cbn zeta.
  destruct (rebuildScene_complete ci st) as (st' & ms & Hrun & _ & _ & _ & Hch & Hviews & _).
  destruct (child_view _ _ _ _ _ Hviews (sceneElements_searchGridLine (this st) ci))
    as (line & Hline & Hlview).
  destruct (searchGridLine_segments (this st) ci) as [_ Hseg].
  exists st', ms, line. eexists.
  split; [exact Hrun |]. split; [exact Hch |]. split; [exact Hline |].
  split; [exact Hlview |].
  intros i Hi.
  assert (Hmod : forall k, k < length (ci_search_grid_points ci) ->
            (k + 1) mod length (ci_search_grid_points ci)
            < length (ci_search_grid_points ci))
    by (intros k Hk; apply Nat.mod_upper_bound; lia).
  destruct (lookup_lt_is_Some_2 (ci_search_grid_points ci) i Hi) as [a Ha].
  destruct (lookup_lt_is_Some_2 (ci_search_grid_points ci) _ (Hmod i Hi)) as [b Hb].
  destruct (lookup_lt_is_Some_2 (ci_search_grid_points ci) _ (Hmod _ (Hmod i Hi)))
    as [c Hc].
  destruct (child_view _ _ _ _ _ Hviews (sceneElements_searchGridMarker (this st) ci i a Ha))
    as (marker & Hmarker & Hmview).
  destruct (child_view _ _ _ _ _ Hviews (sceneElements_searchGridMarker (this st) ci _ b Hb))
    as (next & Hnext & Hnview).
  exists marker, next. eexists. eexists.
  split; [exact Hmarker |]. split; [exact Hnext |].
  split; [eapply viewPosition_sphereMarker; exact Hmview |].
  split; [eapply viewPosition_sphereMarker; exact Hnview |].
  split; [exact (Hseg i a b Ha Hb) |].
  eexists. exact (Hseg _ b c Hb Hc).
Qed.

(** X7.  The waypoint line joins the markers of consecutive waypoints: for
    complete arguments, whenever waypoints [i] and [i + 1] exist, segment
    [i] of the line starts at the position of the marker of waypoint [i] and
    ends at the position of the marker of waypoint [i + 1]. *)
Theorem waypointLine_joins_markers ci st :
  let t := this st in
  let n := length (ci_search_grid_points ci) in
  let k := length (ci_mission_waypoints ci) in
  exists st' ms line pts,
    rebuildScene (Some (missionOf ci)) (Some (obstaclesOf ci)) (Some (telemetryOf ci)) st
      = (Ok tt, st') /\
    sceneChildren (heap st') (length (heap st)) = Some (baseObjects t ++ ms) /\
    ms !! (8 + n + k) = Some line /\
    viewObj (heap st') line = Some (VLine pts (missionWaypointLineMaterial_ t)) /\
    forall i, i + 1 < k ->
      exists marker next p q,
        ms !! (8 + n + i) = Some marker /\
        ms !! (8 + n + (i + 1)) = Some next /\
        viewPosition (heap st') marker = Some p /\
        viewPosition (heap st') next = Some q /\
        segments pts !! i = Some (p, q).
Proof.
  cbn zeta.
  destruct (rebuildScene_complete ci st) as (st' & ms & Hrun & _ & _ & _ & Hch & Hviews & _).
  destruct (child_view _ _ _ _ _ Hviews (sceneElements_waypointLine (this st) ci))
    as (line & Hline & Hlview).
  destruct (waypointLine_segments (this st) ci) as [_ Hseg].
  exists st', ms, line. eexists.
  split; [exact Hrun |]. split; [exact Hch |]. split; [exact Hline |].
  split; [exact Hlview |].
  intros i Hi.
  destruct (lookup_lt_is_Some_2 (ci_mission_waypoints ci) i ltac:(lia)) as [a Ha].
  destruct (lookup_lt_is_Some_2 (ci_mission_waypoints ci) (i + 1) Hi) as [b Hb].
  destruct (child_view _ _ _ _ _ Hviews (sceneElements_waypointMarker (this st) ci i a Ha))
    as (marker & Hmarker & Hmview).
  destruct (child_view _ _ _ _ _ Hviews (sceneElements_waypointMarker (this st) ci _ b Hb))
    as (next & Hnext & Hnview).
  exists marker, next. eexists. eexists.
  split; [exact Hmarker |]. split; [exact Hnext |].
  split; [eapply viewPosition_sphereMarker; exact Hmview |].
  split; [eapply viewPosition_sphereMarker; exact Hnview |].
  exact (Hseg i a b Ha Hb).
Qed.

Lemma searchGridLine_joins_markers_witness :
  exists st' (ms : list loc) marker next p q,
    rebuildScene (Some (missionOf exampleInputs)) (Some (obstaclesOf exampleInputs))
      (Some (telemetryOf exampleInputs)) freshService = (Ok tt, st') /\
    ms !! 9 = Some marker /\
    ms !! 7 = Some next /\
    viewPosition (heap st') marker = Some p /\
    viewPosition (heap st') next = Some q.
Proof.
  destruct (searchGridLine_joins_markers exampleInputs freshService)
    as (st' & ms & line & pts & Hrun & _ & _ & _ & Hjoin).
  destruct (Hjoin 2 ltac:(cbn; lia)) as (marker & next & p & q & Hm & Hn & Hp & Hq & _).
  exists st', ms, marker, next, p, q.
  split; [exact Hrun |]. split; [exact Hm |]. split; [exact Hn |].
  split; [exact Hp | exact Hq].
Defined.

Lemma waypointLine_joins_markers_witness :
  exists st' (ms : list loc) marker next p q,
    rebuildScene (Some (missionOf exampleInputs)) (Some (obstaclesOf exampleInputs))
      (Some (telemetryOf exampleInputs)) freshService = (Ok tt, st') /\
    ms !! 11 = Some marker /\
    ms !! 12 = Some next /\
    viewPosition (heap st') marker = Some p /\
    viewPosition (heap st') next = Some q.
Proof.
  destruct (waypointLine_joins_markers exampleInputs freshService)
    as (st' & ms & line & pts & Hrun & _ & _ & _ & Hjoin).
  destruct (Hjoin 0 ltac:(cbn; lia)) as (marker & next & p & q & Hm & Hn & Hp & Hq & _).
  exists st', ms, marker, next, p, q.
  split; [exact Hrun |]. split; [exact Hm |]. split; [exact Hn |].
  split; [exact Hp | exact Hq].
Defined.

(** *** Edge cases of the connecting lines *)

(** X8.  A complete mission without search grid points still gets its search
    grid line: the line object is added to the scene, with no vertex. *)
Theorem searchGridLine_without_points ci st :
  ci_search_grid_points ci = [] ->
  exists st' ms line,
    rebuildScene (Some (missionOf ci)) (Some (obstaclesOf ci)) (Some (telemetryOf ci)) st
      = (Ok tt, st') /\
    sceneChildren (heap st') (length (heap st)) = Some (baseObjects (this st) ++ ms) /\
    ms !! 7 = Some line /\
    viewObj (heap st') line = Some (VLine [] (searchGridPtLineMaterial_ (this st))).
Proof.
  intros Hgrid.
  destruct (rebuildScene_complete ci st) as (st' & ms & Hrun & _ & _ & _ & Hch & Hviews & _).
  destruct (child_view _ _ _ _ _ Hviews (sceneElements_searchGridLine (this st) ci))
    as (line & Hline & Hlview).
  exists st', ms, line.
  split; [exact Hrun |]. split; [exact Hch |].
  unfold searchGridLine in Hlview. rewrite Hgrid in Hline, Hlview.
  split; [exact Hline | exact Hlview].
Qed.

Lemma searchGridLine_without_points_witness :
  exists st' (ms : list loc) line,
    rebuildScene (Some (missionOf bareInputs)) (Some (obstaclesOf bareInputs))
      (Some (telemetryOf bareInputs)) freshService = (Ok tt, st') /\
    ms !! 7 = Some line /\
    viewObj (heap st') line = Some (VLine [] 11).
Proof.
  destruct (searchGridLine_without_points bareInputs freshService eq_refl)
    as (st' & ms & line & Hrun & _ & Hline & Hview).
  exists st', ms, line.
  split; [exact Hrun |]. split; [exact Hline | exact Hview].
Defined.

(** X9.  A complete mission with fewer than two waypoints still gets its
    waypoint line, with no vertex: with one waypoint the loop bound is 0,
    without waypoints it is -1, and the loop body never runs. *)
Theorem waypointLine_without_segments ci st :
  length (ci_mission_waypoints ci) <= 1 ->
  exists st' ms line,
    rebuildScene (Some (missionOf ci)) (Some (obstaclesOf ci)) (Some (telemetryOf ci)) st
      = (Ok tt, st') /\
    sceneChildren (heap st') (length (heap st)) = Some (baseObjects (this st) ++ ms) /\
    ms !! (8 + length (ci_search_grid_points ci) + length (ci_mission_waypoints ci))
      = Some line /\
    viewObj (heap st') line = Some (VLine [] (missionWaypointLineMaterial_ (this st))).
Proof.
  intros Hfew.
  destruct (rebuildScene_complete ci st) as (st' & ms & Hrun & _ & _ & _ & Hch & Hviews & _).
  destruct (child_view _ _ _ _ _ Hviews (sceneElements_waypointLine (this st) ci))
    as (line & Hline & Hlview).
  exists st', ms, line.
  split; [exact Hrun |]. split; [exact Hch |]. split; [exact Hline |].
  unfold waypointLine in Hlview.
  replace (length (ci_mission_waypoints ci) - 1) with 0 in Hlview by lia.
  exact Hlview.
Qed.

Lemma waypointLine_without_segments_witness :
  exists st' (ms : list loc) line,
    rebuildScene (Some (missionOf singleInputs)) (Some (obstaclesOf singleInputs))
      (Some (telemetryOf singleInputs)) freshService = (Ok tt, st') /\
    ms !! 10 = Some line /\
    viewObj (heap st') line = Some (VLine [] 13).
Proof.
  destruct (waypointLine_without_segments singleInputs freshService ltac:(cbn; lia))
    as (st' & ms & line & Hrun & _ & Hline & Hview).
  exists st', ms, line.
  split; [exact Hrun |]. split; [exact Hline | exact Hview].
Defined.

(** X10.  With exactly one search grid point the search grid line has one
    segment, which starts and ends at that point: [(0 + 1) mod 1] is 0. *)
Theorem searchGridLine_single_point ci st p :
  ci_search_grid_points ci = [p] ->
  exists st' ms line pts,
    rebuildScene (Some (missionOf ci)) (Some (obstaclesOf ci)) (Some (telemetryOf ci)) st
      = (Ok tt, st') /\
    sceneChildren (heap st') (length (heap st)) = Some (baseObjects (this st) ++ ms) /\
    ms !! 8 = Some line /\
    viewObj (heap st') line = Some (VLine pts (searchGridPtLineMaterial_ (this st))) /\
    segments pts
      = [ (localCoords (distance_ (this st)) p (searchGridPtRadius_ (this st))
             (ci_home_pos ci),
           localCoords (distance_ (this st)) p (searchGridPtRadius_ (this st))
             (ci_home_pos ci)) ].
Proof.
  intros Hgrid.
  destruct (rebuildScene_complete ci st) as (st' & ms & Hrun & _ & _ & _ & Hch & Hviews & _).
  destruct (child_view _ _ _ _ _ Hviews (sceneElements_searchGridLine (this st) ci))
    as (line & Hline & Hlview).
  exists st', ms, line. eexists.
  split; [exact Hrun |]. split; [exact Hch |].
  rewrite Hgrid in Hline.
  split; [exact Hline |]. split; [exact Hlview |].
  unfold searchGridSegment. rewrite Hgrid. reflexivity.
Qed.

Lemma searchGridLine_single_point_witness :
  exists st' (ms : list loc) line pts,
    rebuildScene (Some (missionOf singleInputs)) (Some (obstaclesOf singleInputs))
      (Some (telemetryOf singleInputs)) freshService = (Ok tt, st') /\
    ms !! 8 = Some line /\
    viewObj (heap st') line = Some (VLine pts 11) /\
    length (segments pts) = 1.
Proof.
  destruct (searchGridLine_single_point singleInputs freshService (mkGps 39 (-77)) eq_refl)
    as (st' & ms & line & pts & Hrun & _ & Hline & Hview & Hsegs).
  exists st', ms, line, pts.
  split; [exact Hrun |]. split; [exact Hline |]. split; [exact Hview |].
  rewrite Hsegs. reflexivity.
Defined.

(** *** The outcome of a rebuild *)

(** X11.  Without a home position the obstacles and the telemetry are not
    read at all: the outcome of the rebuild is the same for all arguments
    that fail the guard, and the only object it allocates is the scene,
    which holds the ground and the lights; every object that existed and is
    not a scene is unchanged. *)
Theorem rebuildScene_without_home_ignores_arguments
    mission obstacles telemetry mission' obstacles' telemetry' st :
  lacksHomePosition mission ->
  lacksHomePosition mission' ->
  rebuildScene mission' obstacles' telemetry' st
    = rebuildScene mission obstacles telemetry st /\
  let st' := snd (rebuildScene mission obstacles telemetry st) in
  length (heap st') = S (length (heap st)) /\
  heap st' !! length (heap st) = Some (OScene (baseObjects (this st))) /\
  keeps (heap st) (heap st').
Proof.
  intros Hlacks Hlacks'.
  assert (Hsame : forall m o t, lacksHomePosition m ->
            rebuildScene m o t st = rebuildScene None None None st).
  { intros m o t Hm.
    rewrite !rebuildScene_buildScene, !bind_run, (buildScene_without_home _ _ _ _ Hm).
    reflexivity. }
  split; [rewrite (Hsame _ _ _ Hlacks), (Hsame _ _ _ Hlacks'); reflexivity |].
  destruct (rebuildScene_without_home _ obstacles telemetry st Hlacks)
    as (st1 & Hrun & (_ & _ & _ & Hold & _) & Hlen & Hscn).
  rewrite Hrun. cbn [snd heap].
  split; [exact Hlen |]. split; [exact Hscn |].
  intros l c Hc Hns. destruct (Hold l c Hc) as (c' & Hc' & Hm).
  rewrite (movedOut_not_scene _ _ _ Hm Hns) in Hc'. exact Hc'.
Qed.

Lemma rebuildScene_without_home_ignores_arguments_witness :
  rebuildScene (Some (mkMission None None None None None None None None None 0))
    (Some (obstaclesOf exampleInputs)) None freshService
  = rebuildScene None None (Some (telemetryOf exampleInputs)) freshService.
Proof.
  apply (rebuildScene_without_home_ignores_arguments None None
           (Some (telemetryOf exampleInputs))
           (Some (mkMission None None None None None None None None None 0))
           (Some (obstaclesOf exampleInputs)) None freshService).
  - exact I.
  - reflexivity.
Defined.

(** X12.  The scene rebuilt from complete arguments has 12 children more
    than there are search grid points, waypoints, stationary obstacles,
    moving obstacles and telemetry points together: the ground, the two
    lights, the home marker, the six mission components, the two lines, and
    one marker for each point, obstacle and telemetry entry. *)
Theorem rebuildScene_children_count ci st :
  exists st' ch,
    rebuildScene (Some (missionOf ci)) (Some (obstaclesOf ci)) (Some (telemetryOf ci)) st
      = (Ok tt, st') /\
    sceneChildren (heap st') (length (heap st)) = Some ch /\
    length ch
      = 12 + length (ci_search_grid_points ci) + length (ci_mission_waypoints ci)
          + length (ci_stationary_obstacles ci) + length (ci_moving_obstacles ci)
          + length (ci_telemetry ci).
Proof.
  destruct (rebuildScene_complete ci st) as (st' & ms & Hrun & _ & _ & _ & Hch & Hviews & _).
  exists st', (baseObjects (this st) ++ ms).
  split; [exact Hrun |]. split; [exact Hch |].
  apply mapM_Some, Forall2_length in Hviews.
  rewrite length_app, Hviews, sceneElements_length. cbn [length baseObjects]. lia.
Qed.

(** X15.  In the scene rebuilt from complete arguments the markers of the
    home position, of the mission components and of the search grid points
    are placed at the height of their own radius, and the marker of a
    stationary obstacle at half the height of its cylinder: these markers
    rest on the ground plane instead of being centred on it. *)
Theorem markers_rest_on_ground ci st :
  let t := this st in
  exists st' ms,
    rebuildScene (Some (missionOf ci)) (Some (obstaclesOf ci)) (Some (telemetryOf ci)) st
      = (Ok tt, st') /\
    sceneChildren (heap st') (length (heap st)) = Some (baseObjects t ++ ms) /\
    mapM (viewObj (heap st')) ms = Some (sceneElements t ci) /\
    Forall centreAtRadius (homeMarker t ci :: componentMarkers t ci ++ searchGridMarkers t ci) /\
    Forall centreAtHalfHeight (stationaryMarkers t ci).
Proof.
  cbn zeta.
  destruct (rebuildScene_complete ci st) as (st' & ms & Hrun & _ & _ & _ & Hch & Hviews & _).
  exists st', ms.
  split; [exact Hrun |]. split; [exact Hch |]. split; [exact Hviews |].
  unfold homeMarker, componentMarkers, searchGridMarkers, stationaryMarkers.
  split.
  - repeat first
      [ apply Forall_app; split
      | apply Forall_cons; split
      | apply Forall_nil
      | apply Forall_map_all; intros ? ].
    all: first [ exact I | reflexivity ].
  - apply Forall_map_all. intros o. reflexivity.
Qed.

(** *** A service over its life *)

(** One call of [rebuildScene], whatever its arguments: either it throws and
    the fields and the log are as before, or it returns, the scene is the
    new object at the end of the old heap, and the log has grown by its
    announcement.  In both cases the heap has not shrunk. *)
Lemma rebuildScene_step mission obstacles telemetry st :
  let st' := snd (rebuildScene mission obstacles telemetry st) in
  length (heap st) <= length (heap st') /\
  ((this st' = this st /\ broadcasts st' = broadcasts st) \/
   (this st' = withScene (this st) (Some (length (heap st))) /\
    broadcasts st' = broadcasts st ++ [mkBroadcast sceneUpdated (Some (length (heap st)))] /\
    length (heap st) < length (heap st'))).
Proof.
  cbn zeta.
  pose proof (rebuildScene_cases mission obstacles telemetry st) as Hcases.
  pose proof (buildScene_frame mission obstacles telemetry st) as Hframe.
  unfold wp in Hframe.
  destruct (buildScene mission obstacles telemetry st) as [[scn | e] st1];
    rewrite Hcases; cbn [snd this heap broadcasts].
  - destruct Hframe as (-> & (Ht & Hb & Hlen & _)).
    split; [lia |]. right.
    rewrite Ht, Hb. split; [reflexivity |]. split; [reflexivity |].
    exact Hlen.
  - destruct Hframe as (Ht & Hb & Hlen & _).
    split; [lia |]. left. split; assumption.
Qed.

(** X13.  Over the life of a service, through any calls of [rebuildScene]
    that return or throw: every broadcast is ['MissionScene.sceneUpdated']
    and announces a scene that exists; no scene is announced twice; and the
    public field [scene] is [null] as long as nothing was broadcast and
    afterwards always the scene announced last. *)
Theorem scene_field_follows_broadcasts st :
  reachable st ->
  Forall (fun b => event_name b = sceneUpdated /\
                   exists s, scene_seen b = Some s /\ s < length (heap st))
         (broadcasts st) /\
  NoDup (map scene_seen (broadcasts st)) /\
  scene (this st) = lastAnnounced (broadcasts st) /\
  (scene (this st) = None <-> broadcasts st = []).
Proof.
  intros Hreach.
  assert (Hinv :
    Forall (fun b => event_name b = sceneUpdated /\
                     exists s, scene_seen b = Some s /\ s < length (heap st))
           (broadcasts st) /\
    NoDup (map scene_seen (broadcasts st)) /\
    scene (this st) = lastAnnounced (broadcasts st)).
  { induction Hreach as [d | st mission obstacles telemetry Hreach (Hall & Hnodup & Hlast)].
    - split; [constructor |]. split; [constructor | reflexivity].
    - destruct (rebuildScene_step mission obstacles telemetry st)
        as [Hlen [[Ht Hb] | (Ht & Hb & Hnew)]].
      + rewrite Ht, Hb. split; [| split; assumption].
        eapply Forall_impl; [exact Hall |].
        intros b (Hname & s & Hs & Hlt). split; [exact Hname |].
        exists s. split; [exact Hs | lia].
      + rewrite Ht, Hb. split; [| split].
        * apply Forall_app. split.
          -- eapply Forall_impl; [exact Hall |].
             intros b (Hname & s & Hs & Hlt). split; [exact Hname |].
             exists s. split; [exact Hs | lia].
          -- constructor; [| constructor].
             split; [reflexivity |]. eexists. split; [reflexivity | exact Hnew].
        * rewrite map_app. cbn [map scene_seen].
          apply NoDup_app. split; [exact Hnodup |]. split; [| apply NoDup_singleton].
          intros o Ho Hin. apply list_elem_of_singleton in Hin. subst o.
          change (map scene_seen (broadcasts st)) with (scene_seen <$> broadcasts st) in Ho.
          apply list_elem_of_fmap in Ho. destruct Ho as (b & Hb' & Hin).
          rewrite Forall_forall in Hall. destruct (Hall b Hin) as (_ & s & Hs & Hlt).
          rewrite Hs in Hb'. injection Hb' as Hb'. lia.
        * unfold lastAnnounced. rewrite last_snoc. reflexivity. }
  destruct Hinv as (Hall & Hnodup & Hlast).
  split; [exact Hall |]. split; [exact Hnodup |]. split; [exact Hlast |].
  rewrite Hlast. unfold lastAnnounced. split.
  - intros Hnone. destruct (broadcasts st) as [| b0 bs] using rev_ind; [reflexivity |].
    rewrite last_snoc in Hnone.
    apply Forall_app in Hall. destruct Hall as [_ Hb0].
    apply Forall_inv in Hb0 as (_ & s & Hs & _). congruence.
  - intros ->. reflexivity.
Qed.

Lemma scene_field_follows_broadcasts_witness :
  scene (this (snd (rebuildScene None None None freshService)))
  = lastAnnounced (broadcasts (snd (rebuildScene None None None freshService))).
Proof.
  apply (scene_field_follows_broadcasts (snd (rebuildScene None None None freshService))).
  apply reachable_rebuild. apply reachable_new.
Defined.

(** Over the life of a service the fields other than [scene] are those the
    constructor set. *)
Lemma reachable_fields st :
  reachable st ->
  exists distance s, this st = withScene (this (new_MissionScene distance)) s.
Proof.
  intros Hreach.
  induction Hreach as [d | st mission obstacles telemetry Hreach (d & s & IH)].
  - exists d, None. reflexivity.
  - destruct (rebuildScene_step mission obstacles telemetry st)
      as [_ [[Ht _] | (Ht & _)]]; rewrite Ht, IH.
    + exists d, s. reflexivity.
    + exists d. eexists. reflexivity.
Qed.

(** X14.  The markers of every scene a service rebuilds share the objects
    the constructor made: all spherical markers (home position, mission
    components, search grid points, waypoints, moving obstacles, telemetry)
    have one and the same geometry, the stationary obstacles have another
    one, and the moving obstacles have the material of the stationary
    ones. *)
Theorem markers_share_resources ci st :
  reachable st ->
  let t := this st in
  exists st' ms,
    rebuildScene (Some (missionOf ci)) (Some (obstaclesOf ci)) (Some (telemetryOf ci)) st
      = (Ok tt, st') /\
    sceneChildren (heap st') (length (heap st)) = Some (baseObjects t ++ ms) /\
    mapM (viewObj (heap st')) ms = Some (sceneElements t ci) /\
    Forall (fun v => viewGeometry v = None \/
                     viewGeometry v = Some (missionComponentGeometry_ t))
           (missionElements t ci ++ movingMarkers t ci ++ telemetryMarkers t ci) /\
    Forall (fun v => viewGeometry v = Some (stationaryObstacleGeometry_ t))
           (stationaryMarkers t ci) /\
    stationaryObstacleGeometry_ t <> missionComponentGeometry_ t /\
    Forall (fun v => viewMaterial v = stationaryObstacleMaterial_ t)
           (obstacleElements t ci).
Proof.
  intros Hreach. cbn zeta.
  destruct (rebuildScene_complete ci st) as (st' & ms & Hrun & _ & _ & _ & Hch & Hviews & _).
  exists st', ms.
  split; [exact Hrun |]. split; [exact Hch |]. split; [exact Hviews |].
  destruct (reachable_fields st Hreach) as (d & s & ->).
  unfold missionElements, obstacleElements, homeMarker, componentMarkers,
    searchGridMarkers, searchGridLine, waypointMarkers, waypointLine, stationaryMarkers,
    movingMarkers, telemetryMarkers.
  split; [| split; [| split]].
  - repeat first
      [ apply Forall_app; split
      | apply Forall_cons; split
      | apply Forall_nil
      | apply Forall_map_all; intros ? ].
    all: first [ exact I | left; reflexivity | right; reflexivity ].
  - apply Forall_map_all. intros o. reflexivity.
  - cbn. lia.
  - apply Forall_app. split; apply Forall_map_all; intros o; reflexivity.
Qed.

Lemma markers_share_resources_witness :
  exists st' (ms : list loc),
    rebuildScene (Some (missionOf exampleInputs)) (Some (obstaclesOf exampleInputs))
      (Some (telemetryOf exampleInputs)) freshService = (Ok tt, st') /\
    mapM (viewObj (heap st')) ms = Some (sceneElements (this freshService) exampleInputs) /\
    Forall (fun v => viewMaterial v = 15)
           (obstacleElements (this freshService) exampleInputs).
Proof.
  destruct (markers_share_resources exampleInputs freshService (reachable_new Distance))
    as (st' & ms & Hrun & _ & Hviews & _ & _ & _ & Hmat).
  exists st', ms.
  split; [exact Hrun |]. split; [exact Hviews | exact Hmat].
Defined.

(** *** The scene graph over the life of a service *)

(** What a call of [rebuildScene] does to the heap and the parent links is
    what building the scene does. *)
Lemma rebuildScene_rebuilt mission obstacles telemetry st :
  let st' := snd (rebuildScene mission obstacles telemetry st) in
  exists st1,
    rebuilt (length (heap st)) st st1 /\
    heap st' = heap st1 /\
    parents st' = parents st1 /\
    (forall e, fst (rebuildScene mission obstacles telemetry st) = Throw e ->
       this st' = this st).
Proof.
  cbn zeta.
  pose proof (rebuildScene_cases mission obstacles telemetry st) as Hcases.
  pose proof (buildScene_frame mission obstacles telemetry st) as Hframe.
  unfold wp in Hframe.
  destruct (buildScene mission obstacles telemetry st) as [[scn | e] st1];
    rewrite Hcases; cbn [fst snd this heap parents]; exists st1.
  - destruct Hframe as (_ & Hfr).
    split; [exact Hfr |]. split; [reflexivity |]. split; [reflexivity |].
    intros e He. discriminate He.
  - split; [exact Hframe |]. split; [reflexivity |]. split; [reflexivity |].
    intros _ _. exact (proj1 Hframe).
Qed.

(** A rebuild that returns has published the new scene, whose first children
    are the ground and the lights. *)
Lemma rebuildScene_returns mission obstacles telemetry st st1 :
  rebuildScene mission obstacles telemetry st = (Ok tt, st1) ->
  this st1 = withScene (this st) (Some (length (heap st))) /\
  exists ms, sceneChildren (heap st1) (length (heap st)) = Some (baseObjects (this st) ++ ms).
Proof.
  intros Hrun.
  destruct (rebuildScene_Ok_inv _ _ _ _ _ _ Hrun) as [Hlacks | (ci & -> & -> & ->)].
  - destruct (rebuildScene_without_home _ obstacles telemetry st Hlacks)
      as (sta & Hrun' & _ & _ & Hscn).
    rewrite Hrun in Hrun'. injection Hrun' as ->. cbn [this heap].
    split; [reflexivity |]. exists []. rewrite app_nil_r.
    unfold sceneChildren. rewrite Hscn. reflexivity.
  - destruct (rebuildScene_complete ci st) as (st1' & ms & Hrun' & Ht & _ & _ & Hch & _).
    rewrite Hrun in Hrun'. injection Hrun' as <-.
    split; [exact Ht |]. exists ms. exact Hch.
Qed.

(** Over the life of a service the ground and the lights are the objects at
    the locations 6, 0 and 1, and they exist. *)
Lemma reachable_baseObjects st :
  reachable st -> baseObjects (this st) = [6; 0; 1] /\ 17 <= length (heap st).
Proof.
  intros Hreach. split.
  - destruct (reachable_fields st Hreach) as (d & s & ->). reflexivity.
  - induction Hreach as [d | st mission obstacles telemetry Hreach IH]; [cbn; lia |].
    destruct (rebuildScene_step mission obstacles telemetry st) as [Hlen _]. lia.
Qed.

(** X16.  The ground and the lights are in one scene at a time.  When a
    rebuild has returned, they are the first children of the scene it
    published and that scene is their parent.  The next call of
    [rebuildScene], whatever its arguments and whether it returns or throws,
    takes them out of that scene, which keeps its markers and lines, and
    makes the scene it starts their parent.  If that call throws, the field
    [scene] still refers to the scene published before, which is now without
    ground and lights. *)
Theorem rebuildScene_strips_previous_scene
    mission obstacles telemetry mission' obstacles' telemetry' st st1 :
  reachable st ->
  rebuildScene mission obstacles telemetry st = (Ok tt, st1) ->
  let st2 := snd (rebuildScene mission' obstacles' telemetry' st1) in
  exists s1 ms,
    scene (this st1) = Some s1 /\
    sceneChildren (heap st1) s1 = Some (baseObjects (this st) ++ ms) /\
    Forall (fun g => parents st1 !! g = Some s1) (baseObjects (this st)) /\
    sceneChildren (heap st2) s1 = Some ms /\
    Forall (fun g => parents st2 !! g = Some (length (heap st1))) (baseObjects (this st)) /\
    (forall e, fst (rebuildScene mission' obstacles' telemetry' st1) = Throw e ->
       scene (this st2) = Some s1).
Proof.
  intros Hreach Hrun1. cbn zeta.
  destruct (reachable_baseObjects st Hreach) as [Hbase Hlen].
  destruct (rebuildScene_returns _ _ _ _ _ Hrun1) as (Ht1 & ms & Hch1).
  destruct (rebuildScene_rebuilt mission obstacles telemetry st)
    as (sta & (_ & _ & Hgrow & _ & _ & _ & _ & Hpar1 & _) & Hheap1 & Hparents1 & _).
  rewrite Hrun1 in Hheap1, Hparents1. cbn [snd] in Hheap1, Hparents1.
  assert (Hlen1 : length (heap st) < length (heap st1)) by (rewrite Hheap1; exact Hgrow).
  assert (Hp1 : forall g, g ∈ baseObjects (this st) ->
            parents st1 !! g = Some (length (heap st))).
  { intros g Hg. rewrite Hparents1. apply Hpar1; [exact Hg |].
    rewrite Hbase in Hg. rewrite !elem_of_cons, elem_of_nil in Hg. lia. }
  destruct (rebuildScene_rebuilt mission' obstacles' telemetry' st1)
    as (stb & (_ & _ & _ & _ & _ & _ & _ & Hpar2 & Hexact2) & Hheap2 & Hparents2 & Hthrow2).
  assert (Hbase1 : baseObjects (this st1) = baseObjects (this st))
    by (rewrite Ht1; reflexivity).
  rewrite Hbase1 in Hpar2, Hexact2.
  exists (length (heap st)), ms.
  split; [rewrite Ht1; reflexivity |].
  split; [exact Hch1 |].
  split; [apply Forall_forall; exact Hp1 |].
  split; [| split].
  - unfold sceneChildren in Hch1 |- *.
    destruct (heap st1 !! length (heap st)) as [c |] eqn:Hc; [| discriminate Hch1].
    destruct c as [r | p | m | vl | g mat | ch]; try discriminate Hch1.
    injection Hch1 as ->.
    rewrite Hheap2, (Hexact2 _ _ Hc).
    assert (Hleave : forall g rest, g ∈ baseObjects (this st) ->
              leaves (delete (length (heap st1)) (parents st1)) (length (heap st)) g
                (g :: rest) = rest).
    { intros g rest Hg. unfold leaves.
      assert (g < length (heap st1)).
      { rewrite Hbase in Hg. rewrite !elem_of_cons, elem_of_nil in Hg. lia. }
      rewrite lookup_delete_ne, (Hp1 g Hg) by lia.
      rewrite decide_True by reflexivity.
      cbn [removeFirst]. rewrite decide_True by reflexivity. reflexivity. }
    unfold leavesAll, baseObjects in *. cbn [foldl app].
    rewrite !Hleave by (rewrite !elem_of_cons; tauto).
    reflexivity.
  - apply Forall_forall. intros g Hg. rewrite Hparents2. apply Hpar2; [exact Hg |].
    rewrite Hbase in Hg. rewrite !elem_of_cons, elem_of_nil in Hg. lia.
  - intros e He. rewrite (Hthrow2 e He), Ht1. reflexivity.
Qed.

Lemma rebuildScene_strips_previous_scene_witness :
  exists st1 s1 (ms : list loc),
    rebuildScene (Some (missionOf exampleInputs)) (Some (obstaclesOf exampleInputs))
      (Some (telemetryOf exampleInputs)) freshService = (Ok tt, st1) /\
    scene (this st1) = Some s1 /\
    sceneChildren (heap st1) s1 = Some ([6; 0; 1] ++ ms) /\
    sceneChildren
      (heap (snd (rebuildScene (Some (missionOf exampleInputs)) None None st1))) s1
      = Some ms.
Proof.
  assert (Hreturns :
    fst (rebuildScene (Some (missionOf exampleInputs)) (Some (obstaclesOf exampleInputs))
           (Some (telemetryOf exampleInputs)) freshService) = Ok tt)
    by (vm_compute; reflexivity).
  destruct (rebuildScene (Some (missionOf exampleInputs)) (Some (obstaclesOf exampleInputs))
              (Some (telemetryOf exampleInputs)) freshService) as [r st1] eqn:Hrun.
  cbn [fst] in Hreturns. subst r.
  destruct (rebuildScene_strips_previous_scene (Some (missionOf exampleInputs))
              (Some (obstaclesOf exampleInputs)) (Some (telemetryOf exampleInputs))
              (Some (missionOf exampleInputs)) None None
              freshService st1 (reachable_new Distance) Hrun)
    as (s1 & ms & Hs1 & Hch1 & _ & Hch2 & _).
  exists st1, s1, ms.
  split; [reflexivity |]. split; [exact Hs1 |]. split; [exact Hch1 | exact Hch2].
Defined.
